(** * PDF-Processor: the text-reconstruction and markdown pipeline

    A shallow embedding of the core of the repository
    ([src/main/workers/text-corrector.js], [src/main/workers/ocr-worker.js],
    [src/utils/markdown-generator.js]) and the properties of it that the
    specification states.

    Layout of the development:
    - [Js]: JavaScript strings as sequences of UTF-16 code units, and the
      string methods the sources call;
    - [Regex]: a backtracking matcher for the regular-expression constructs
      the sources use, with [test], [match], [replace] and [split];
    - [Natural]: the edit distance of the [natural] package;
    - [OCRWorker], [TextCorrector], [MarkdownGenerator], [PDFProcessor]:
      the classes of the repository, method by method;
    - the vocabulary of the properties, then the lemmas and theorems. *)

From Stdlib Require Import List Bool Arith NArith ZArith QArith Lia.
From Stdlib Require Import String Ascii.
Import ListNotations.
Close Scope Q_scope.


(* ================================================================= *)
(** * JavaScript strings *)

Module Js.

(** A string is a sequence of UTF-16 code units. *)
Definition char := N.
Definition jsstring := list char.

(** String literals are written as in the sources, with the escapes
    [\n], [\t] and [\\] of JavaScript. *)
Fixpoint unescape (s : list N) : jsstring :=
  match s with
  | [] => []
  | c :: t =>
      match t with
      | d :: t' =>
          if (c =? 92)%N && (d =? 110)%N then 10%N :: unescape t'
          else if (c =? 92)%N && (d =? 116)%N then 9%N :: unescape t'
          else if (c =? 92)%N && (d =? 92)%N then 92%N :: unescape t'
          else c :: unescape t
      | [] => [c]
      end
  end.

Definition js (s : string) : jsstring :=
  unescape (List.map N_of_ascii (list_ascii_of_string s)).
Arguments js s%_string.

Definition inRange (lo hi c : char) : bool := ((lo <=? c) && (c <=? hi))%N.

Definition isDigit (c : char) : bool := inRange 48%N 57%N c.
Definition isUpper (c : char) : bool := inRange 65%N 90%N c.
Definition isLower (c : char) : bool := inRange 97%N 122%N c.

(** [\w]: letters, digits and the underscore. *)
Definition isWordChar (c : char) : bool :=
  isDigit c || isUpper c || isLower c || (c =? 95)%N.

(** [\s], and what [trim] removes: WhiteSpace and LineTerminator of
    ECMAScript (TAB LF VT FF CR SP NBSP, U+1680, U+2000..U+200A, U+2028,
    U+2029, U+202F, U+205F, U+3000, U+FEFF). *)
Definition isSpace (c : char) : bool :=
  existsb (N.eqb c)
    [9; 10; 11; 12; 13; 32; 160; 5760; 8232; 8233; 8239; 8287; 12288; 65279]%N
  || inRange 8192%N 8202%N c.

(** What [.] does not match: LF, CR, U+2028, U+2029. *)
Definition isLineTerminator (c : char) : bool :=
  existsb (N.eqb c) [10; 13; 8232; 8233]%N.

(** Case conversion.  The mapping of the ASCII letters is the one of
    ECMAScript; code units from 128 on are left as they are (the Unicode
    case tables of the engine are not part of the repository), so the two
    functions are exact on every text whose cased letters are ASCII. *)
Definition upperChar (c : char) : char := if isLower c then (c - 32)%N else c.
Definition lowerChar (c : char) : char := if isUpper c then (c + 32)%N else c.

Definition toUpperCase (s : jsstring) : jsstring := List.map upperChar s.
Definition toLowerCase (s : jsstring) : jsstring := List.map lowerChar s.

Fixpoint streq (a b : jsstring) : bool :=
  match a, b with
  | [], [] => true
  | x :: a', y :: b' => (x =? y)%N && streq a' b'
  | _, _ => false
  end.

Fixpoint dropWhile (p : char -> bool) (s : jsstring) : jsstring :=
  match s with
  | [] => []
  | c :: t => if p c then dropWhile p t else s
  end.

Definition trimStart (s : jsstring) : jsstring := dropWhile isSpace s.
Definition trimEnd (s : jsstring) : jsstring := rev (dropWhile isSpace (rev s)).
Definition trim (s : jsstring) : jsstring := trimEnd (trimStart s).

(** Truthiness of a string: the empty string is falsy. *)
Definition truthy (s : jsstring) : bool :=
  match s with [] => false | _ => true end.

Fixpoint startsWith (p s : jsstring) : bool :=
  match p, s with
  | [], _ => true
  | x :: p', y :: s' => (x =? y)%N && startsWith p' s'
  | _ :: _, [] => false
  end.

Definition endsWith (p s : jsstring) : bool := startsWith (rev p) (rev s).

(** [s.includes(p)]. *)
Fixpoint includes (p s : jsstring) : bool :=
  startsWith p s || match s with [] => false | _ :: t => includes p t end.

(** [s.split(c)] for a separator of one code unit. *)
Fixpoint splitChar (sep : char) (s : jsstring) : list jsstring :=
  match s with
  | [] => [[]]
  | c :: t =>
      if (c =? sep)%N then [] :: splitChar sep t
      else match splitChar sep t with
           | h :: r => (c :: h) :: r
           | [] => [[c]]
           end
  end.

(** [l.join(sep)]. *)
Fixpoint join (sep : jsstring) (l : list jsstring) : jsstring :=
  match l with
  | [] => []
  | [x] => x
  | x :: r => x ++ sep ++ join sep r
  end.

(** [s.repeat(n)]. *)
Fixpoint repeat (s : jsstring) (n : nat) : jsstring :=
  match n with
  | O => []
  | S n' => s ++ repeat s n'
  end.

(** [parseInt] on a string of decimal digits. *)
Definition parseDigits (s : jsstring) : N :=
  fold_left (fun acc c => (acc * 10 + (c - 48))%N) s 0%N.

(** GetSubstitution of ECMAScript: the expansion of the [$] patterns of a
    replacement string.  [before] and [after] are the parts of the subject
    around the match, [captures] the capture groups (there are none when
    the pattern of [replace] is a string). *)
Definition captureAt (captures : list (option jsstring)) (n : nat) : jsstring :=
  match n with
  | O => []
  | S n' => match nth_error captures n' with
            | Some (Some s) => s
            | _ => []
            end
  end.

Definition digitVal (c : char) : nat := N.to_nat (c - 48)%N.

Fixpoint getSubstitution (matched before after : jsstring)
    (captures : list (option jsstring)) (replacement : jsstring) : jsstring :=
  match replacement with
  | [] => []
  | c :: t =>
      if negb (c =? 36)%N then c :: getSubstitution matched before after captures t
      else
        match t with
        | d :: t' =>
            if (d =? 36)%N then (* $$ *)
              36%N :: getSubstitution matched before after captures t'
            else if (d =? 38)%N then (* $& *)
              matched ++ getSubstitution matched before after captures t'
            else if (d =? 96)%N then (* $` *)
              before ++ getSubstitution matched before after captures t'
            else if (d =? 39)%N then (* $' *)
              after ++ getSubstitution matched before after captures t'
            else if isDigit d then
              let m := List.length captures in
              let one := digitVal d in
              match t' with
              | e :: t'' =>
                  let two := (10 * one + digitVal e)%nat in
                  if isDigit e && (1 <=? two)%nat && (two <=? m)%nat then
                    captureAt captures two
                      ++ getSubstitution matched before after captures t''
                  else if (1 <=? one)%nat && (one <=? m)%nat then
                    captureAt captures one
                      ++ getSubstitution matched before after captures t'
                  else c :: getSubstitution matched before after captures t
              | [] =>
                  if (1 <=? one)%nat && (one <=? m)%nat then
                    captureAt captures one
                  else c :: getSubstitution matched before after captures t
              end
            else c :: getSubstitution matched before after captures t
        | [] => [c]
        end
  end.

(** The first occurrence of [p] in [s]: the text before it and the text
    after it. *)
Fixpoint findFirst (p : jsstring) (seen s : jsstring) : option (jsstring * jsstring) :=
  if startsWith p s then Some (rev seen, skipn (List.length p) s)
  else match s with
       | [] => None
       | c :: t => findFirst p (c :: seen) t
       end.

(** [s.replace(p, r)] with a string pattern: the first occurrence only. *)
Definition replaceString (s p r : jsstring) : jsstring :=
  match findFirst p [] s with
  | Some (before, after) => before ++ getSubstitution p before after [] r ++ after
  | None => s
  end.

End Js.

(* ================================================================= *)
(** * Regular expressions *)

Module Regex.
Import Js.

(** The constructs the sources use.  A class is a list of items, possibly
    negated; a quantifier is greedy, with a lower bound and an optional
    upper bound; a capture group carries its number (the order of its
    opening parenthesis); [RNotAhead] is the negative lookahead [(?!...)].
    No regular expression of the sources has the [m], [s], [u] or [y]
    flag, so [^] and [$] are the two ends of the subject. *)
Inductive citem :=
| CChr (c : char)
| CRange (lo hi : char)
| CDigit
| CWord
| CSpace.

Inductive regex :=
| REmpty
| RChr (c : char)
| RAny
| RSet (neg : bool) (items : list citem)
| RSeq (a b : regex)
| RAlt (a b : regex)
| RRep (min : nat) (max : option nat) (a : regex)
| RGroup (i : nat) (a : regex)
| RBol
| REol
| RWordB
| RNotAhead (a : regex).

(** A matcher state: the code units already passed (last one first), the
    code units still ahead, and the groups captured so far. *)
Record mstate := MState {
  seen : jsstring;
  rest : jsstring;
  caps : list (nat * jsstring)
}.

Definition citemMatch (it : citem) (c : char) : bool :=
  match it with
  | CChr a => (a =? c)%N
  | CRange lo hi => inRange lo hi c
  | CDigit => isDigit c
  | CWord => isWordChar c
  | CSpace => isSpace c
  end.

(** With the [i] flag two code units match when they canonicalize to the
    same code unit; for the ASCII letters that is equality up to case. *)
Definition itemsMatch (ic : bool) (items : list citem) (c : char) : bool :=
  existsb (fun it => citemMatch it c) items
  || (ic && (existsb (fun it => citemMatch it (upperChar c)) items
             || existsb (fun it => citemMatch it (lowerChar c)) items)).

Definition chrMatch (ic : bool) (a c : char) : bool :=
  if ic then (upperChar a =? upperChar c)%N else (a =? c)%N.

Definition advance (st : mstate) : list mstate :=
  match rest st with
  | [] => []
  | c :: t => [MState (c :: seen st) t (caps st)]
  end.

Definition oneChar (p : char -> bool) (st : mstate) : list mstate :=
  match rest st with
  | [] => []
  | c :: _ => if p c then advance st else []
  end.

Definition consumed (st st' : mstate) : jsstring :=
  firstn (List.length (rest st) - List.length (rest st')) (rest st).

Definition setCap (i : nat) (s : jsstring) (st : mstate) : mstate :=
  MState (seen st) (rest st) ((i, s) :: caps st).

Definition atWordBoundary (st : mstate) : bool :=
  xorb (match seen st with c :: _ => isWordChar c | [] => false end)
       (match rest st with c :: _ => isWordChar c | [] => false end).

(** The greedy quantifier (RepeatMatcher of ECMAScript): iterate as long
    as possible, then give the iterations back one by one; once the lower
    bound is reached an iteration that passes no code unit is rejected.
    [fuel] bounds the number of iterations. *)
Fixpoint rep (fuel : nat) (step : mstate -> list mstate)
    (min : nat) (max : option nat) (st : mstate) {struct fuel} : list mstate :=
  match max with
  | Some O => [st]
  | _ =>
      match fuel with
      | O => match min with O => [st] | S _ => [] end
      | S fuel' =>
          let again :=
            flat_map (fun st' =>
              if (min =? 0)%nat
                 && (List.length (rest st') =? List.length (rest st))%nat
              then []
              else rep fuel' step (pred min) (option_map pred max) st')
              (step st) in
          match min with
          | O => again ++ [st]
          | S _ => again
          end
      end
  end.

(** All the ways [r] matches from [st], in the order in which a
    backtracking matcher tries them: the first one is the match of
    ECMAScript. *)
Fixpoint run (ic : bool) (r : regex) (st : mstate) : list mstate :=
  match r with
  | REmpty => [st]
  | RChr a => oneChar (chrMatch ic a) st
  | RAny => oneChar (fun c => negb (isLineTerminator c)) st
  | RSet neg items => oneChar (fun c => xorb neg (itemsMatch ic items c)) st
  | RSeq a b => flat_map (run ic b) (run ic a st)
  | RAlt a b => run ic a st ++ run ic b st
  | RRep min max a =>
      rep (min + List.length (rest st) + 1) (run ic a) min max st
  | RGroup i a => List.map (fun st' => setCap i (consumed st st') st') (run ic a st)
  | RBol => match seen st with [] => [st] | _ :: _ => [] end
  | REol => match rest st with [] => [st] | _ :: _ => [] end
  | RWordB => if atWordBoundary st then [st] else []
  | RNotAhead a => match run ic a st with [] => [st] | _ :: _ => [] end
  end.

(** A regular expression with its flags ([g] is a matter of the method
    called, see [replaceAll]). *)
Record regexp := RegExp { source : regex; ignoreCase : bool }.

Fixpoint ngroups (r : regex) : nat :=
  match r with
  | RSeq a b | RAlt a b => Nat.max (ngroups a) (ngroups b)
  | RRep _ _ a | RNotAhead a => ngroups a
  | RGroup i a => Nat.max i (ngroups a)
  | _ => O
  end.

Fixpoint lookupCap (i : nat) (l : list (nat * jsstring)) : option jsstring :=
  match l with
  | [] => None
  | (j, s) :: l' => if (i =? j)%nat then Some s else lookupCap i l'
  end.

(** The match object: [m[0]], the groups [m[1]], [m[2]], ..., and the
    text around the match. *)
Record jsmatch := JsMatch {
  whole : jsstring;
  groups : list (option jsstring);
  before : jsstring;
  after : jsstring
}.

Definition group (m : jsmatch) (n : nat) : option jsstring :=
  match n with
  | O => Some (whole m)
  | S n' => match nth_error (groups m) n' with
            | Some g => g
            | None => None
            end
  end.

Definition mkMatch (re : regexp) (st st' : mstate) : jsmatch :=
  JsMatch (consumed st st')
          (List.map (fun i => lookupCap i (caps st')) (seq 1 (ngroups (source re))))
          (rev (seen st)) (rest st').

(** The match at the position of [st], if there is one. *)
Definition matchAt (re : regexp) (st : mstate) : option (jsmatch * mstate) :=
  match run (ignoreCase re) (source re) st with
  | st' :: _ => Some (mkMatch re st st', st')
  | [] => None
  end.

(** RegExpBuiltinExec from position 0: the leftmost match. *)
Fixpoint search (re : regexp) (seen rest : jsstring) : option jsmatch :=
  match matchAt re (MState seen rest []) with
  | Some (m, _) => Some m
  | None =>
      match rest with
      | [] => None
      | c :: t => search re (c :: seen) t
      end
  end.

(** [s.match(re)] for [re] without the [g] flag. *)
Definition exec (re : regexp) (s : jsstring) : option jsmatch := search re [] s.

(** [re.test(s)], and the truth value of [s.match(re)]. *)
Definition test (re : regexp) (s : jsstring) : bool :=
  match exec re s with Some _ => true | None => false end.

(** The second argument of [replace]: a replacement string with its [$]
    patterns, or a function of the match. *)
Inductive replacer :=
| Template (t : jsstring)
| Callback (f : jsmatch -> jsstring).

Definition replacement (r : replacer) (m : jsmatch) : jsstring :=
  match r with
  | Template t => getSubstitution (whole m) (before m) (after m) (groups m) t
  | Callback f => f m
  end.

(** [s.replace(re, r)] for [re] with the [g] flag: the matches are found
    from left to right, each search starting where the previous match
    ended (one code unit further after an empty match). *)
Fixpoint replaceFrom (fuel : nat) (re : regexp) (r : replacer)
    (seen rest : jsstring) : jsstring :=
  match fuel with
  | O => rest
  | S fuel' =>
      match matchAt re (MState seen rest []) with
      | Some (m, st') =>
          match whole m with
          | [] =>
              match rest with
              | [] => replacement r m
              | c :: t => replacement r m ++ c :: replaceFrom fuel' re r (c :: seen) t
              end
          | _ :: _ =>
              replacement r m ++ replaceFrom fuel' re r (Regex.seen st') (Regex.rest st')
          end
      | None =>
          match rest with
          | [] => []
          | c :: t => c :: replaceFrom fuel' re r (c :: seen) t
          end
      end
  end.

Definition replaceAll (re : regexp) (r : replacer) (s : jsstring) : jsstring :=
  replaceFrom (S (List.length s)) re r [] s.

(** [s.split(re)] for [re] without capture groups (those of the sources
    have none): [cur] is the piece being collected, last code unit first. *)
Fixpoint splitFrom (fuel : nat) (re : regexp) (seen cur rest : jsstring)
    : list jsstring :=
  match fuel with
  | O => [rev cur ++ rest]
  | S fuel' =>
      match rest with
      | [] => [rev cur]
      | c :: t =>
          match matchAt re (MState seen rest []) with
          | Some (m, st') =>
              match whole m, cur with
              | [], [] => splitFrom fuel' re (c :: seen) [c] t
              | _, _ => rev cur :: splitFrom fuel' re (Regex.seen st') [] (Regex.rest st')
              end
          | None => splitFrom fuel' re (c :: seen) (c :: cur) t
          end
      end
  end.

Definition split (re : regexp) (s : jsstring) : list jsstring :=
  match s with
  | [] => match matchAt re (MState [] [] []) with
          | Some _ => []
          | None => [[]]
          end
  | _ :: _ => splitFrom (2 * List.length s + 1) re [] [] s
  end.

(** Shorthands for writing the patterns of the sources. *)
Definition lit (s : string) : regex :=
  fold_right (fun c r => RSeq (RChr c) r) REmpty (js s).
Arguments lit s%_string.

Definition chr (s : string) : char :=
  match js s with c :: _ => c | [] => 0%N end.
Arguments chr s%_string.

Definition oneOf (s : string) : list citem := List.map CChr (js s).
Arguments oneOf s%_string.

Fixpoint seqs (l : list regex) : regex :=
  match l with
  | [] => REmpty
  | [r] => r
  | r :: l' => RSeq r (seqs l')
  end.

Definition star := RRep 0 None.
Definition plus := RRep 1 None.
Definition atLeast (n : nat) := RRep n None.
Definition between (n m : nat) := RRep n (Some m).
Definition sp := RSet false [CSpace].
Definition digit := RSet false [CDigit].
Definition word := RSet false [CWord].

End Regex.


(* ================================================================= *)
(** * The [natural] package *)

Module Natural.
Import Js.

(** [natural.LevenshteinDistance(source, target)] with its default costs:
    the number of insertions, deletions and substitutions of one code unit
    that turn [source] into [target] (a transposition counts as two
    edits; the package has a separate Damerau variant, which the sources
    do not call).  Computed row by row. *)
Fixpoint nextRow (a : char) (t : jsstring) (prev : list nat) (left : nat) : list nat :=
  match t, prev with
  | b :: t', diag :: ((up :: _) as prev') =>
      let v := Nat.min (Nat.min (up + 1) (left + 1))
                       (diag + if (a =? b)%N then 0 else 1) in
      v :: nextRow a t' prev' v
  | _, _ => []
  end.

Definition rowStep (t : jsstring) (row : list nat) (a : char) : list nat :=
  match row with
  | d :: _ => (d + 1) :: nextRow a t row (d + 1)
  | [] => []
  end.

Definition LevenshteinDistance (source target : jsstring) : nat :=
  last (fold_left (rowStep target) source (seq 0 (S (List.length target)))) 0.

End Natural.

(* ================================================================= *)
(** * ocr-worker.js: the aggregation of the page results *)

Module OCRWorker.
Import Js Regex.

(** One page as the recognition step returns it.  [confidence] is [None]
    when the field is missing; of [words] only the length is read. *)
Record pageResult := PageResult {
  page : N;
  text : jsstring;
  confidence : option Q;
  words : option (list jsstring)
}.

Record lowConfidencePage := LowConfidencePage {
  lc_page : N;
  lc_confidence : option Q
}.

Record metadata := Metadata {
  averageConfidence : Q;
  lowConfidencePages : list lowConfidencePage;
  processingTime : N
}.

Record structuredText := StructuredText {
  pages : list pageResult;
  fullText : jsstring;
  totalConfidence : Q;
  pageCount : nat;
  wordCount : nat;
  meta : metadata
}.

Definition Qltb (x y : Q) : bool := negb (Qle_bool y x).

(** [page.confidence || 0]. *)
Definition confidenceOrZero (p : pageResult) : Q :=
  match confidence p with
  | Some q => q
  | None => 0%Q
  end.

(** [page.text && page.text.trim()]. *)
Definition hasText (p : pageResult) : bool := truthy (text p) && truthy (trim (text p)).

Definition wordsOf (p : pageResult) : nat :=
  match words p with
  | Some w => List.length w
  | None => List.length (split (RegExp (plus sp) false) (text p))
  end.

(** The accumulators of the loop of [combinePageResults]. *)
Record acc := Acc {
  a_totalConfidence : Q;
  a_totalWords : nat;
  a_fullTextParts : list jsstring;
  a_low : list lowConfidencePage
}.

Definition combineStep (a : acc) (p : pageResult) : acc :=
  if hasText p then
    Acc (a_totalConfidence a + confidenceOrZero p)%Q
        (a_totalWords a + wordsOf p)
        ((if (0 <? List.length (a_fullTextParts a))%nat
          then a_fullTextParts a ++ [js "\n\n"]
          else a_fullTextParts a) ++ [trim (text p)])
        (if Qltb (confidenceOrZero p) 70%Q
         then a_low a ++ [LowConfidencePage (page p) (confidence p)]
         else a_low a)
  else a.

(** [combinePageResults(results)]; [now] is the reading of [Date.now()]. *)
Definition combinePageResults (now : N) (results : list pageResult) : structuredText :=
  let a := fold_left combineStep results (Acc 0%Q 0 [] []) in
  StructuredText results
    (join [] (a_fullTextParts a))
    (a_totalConfidence a)
    (List.length results)
    (a_totalWords a)
    (Metadata
       (if (0 <? List.length results)%nat
        then (a_totalConfidence a / inject_Z (Z.of_nat (List.length results)))%Q
        else 0%Q)
       (a_low a)
       now).

(** [chunkArray(array, chunkSize)], for a chunk size that is a natural
    number.  The loop adds [chunkSize] to its index until the index
    passes the end of the array: [remaining] is the part of the array
    from the index on, and [fuel] bounds the number of iterations
    ([None]: the loop has not ended within the bound). *)
Fixpoint chunkFrom {A : Type} (fuel : nat) (remaining : list A) (chunkSize : nat)
    : option (list (list A)) :=
  match remaining with
  | [] => Some []
  | _ :: _ =>
      match fuel with
      | O => None
      | S fuel' =>
          match chunkFrom fuel' (skipn chunkSize remaining) chunkSize with
          | Some chunks => Some (firstn chunkSize remaining :: chunks)
          | None => None
          end
      end
  end.

Definition chunkArray {A : Type} (array : list A) (chunkSize : nat)
    : option (list (list A)) :=
  chunkFrom (List.length array) array chunkSize.

(** A page as [convertPDFToImages] hands it to [processImages]: its
    number and, for a page of extracted text, the flag and the text (the
    path and the name are not read here). *)
Record imagePage := ImagePage {
  ip_page : N;
  isTextOnly : bool;
  extractedText : option jsstring
}.

(** [page.extractedText], or the empty string when there is none. *)
Definition extractedOrEmpty (p : imagePage) : jsstring :=
  match extractedText p with
  | Some s => s
  | None => []
  end.

(** [createMockWordData(text)]: the [text] fields of the words. *)
Definition createMockWordData (text : jsstring) : list jsstring :=
  filter (fun word => truthy (trim word)) (split (RegExp (plus sp) false) text).

(** The recognition of a page by Tesseract, outside the repository: the
    text, the confidence and the words of the result of [processImage],
    or [None] when [initialize] or [processImage] throws. *)
Definition recognizer := imagePage -> option (jsstring * option Q * list jsstring).

(** The body of the loop of [processImages]: the result pushed for a
    page, by the [try] block or by its [catch] clause. *)
Definition pageOutcome (ocr : recognizer) (p : imagePage) : pageResult :=
  if isTextOnly p && truthy (extractedOrEmpty p) then
    PageResult (ip_page p) (extractedOrEmpty p) (Some 100%Q)
               (Some (createMockWordData (extractedOrEmpty p)))
  else
    match ocr p with
    | Some (text, confidence, words) =>
        PageResult (ip_page p) text confidence (Some words)
    | None =>
        PageResult (ip_page p) (extractedOrEmpty p)
                   (Some (if truthy (extractedOrEmpty p) then 100%Q else 0%Q)) None
    end.

(** [processImages(imagePages, settings)]; [now] is the reading of
    [Date.now()] in [combinePageResults]. *)
Definition processImages (now : N) (ocr : recognizer) (imagePages : list imagePage)
    : structuredText :=
  combinePageResults now (List.map (pageOutcome ocr) imagePages).

End OCRWorker.

(* ================================================================= *)
(** * text-corrector.js *)

Module TextCorrector.
Import Js Regex.

(** The spell checker as [performSpellCheck] uses it.  The two objects
    that [initializeSpellChecker] stores in [this.spellChecker] both have
    the methods [correct] and [suggest], so the two conditional
    expressions of [performSpellCheck] always select these.  The value of
    [correct(word)] is what the code calls [isMisspelled]. *)
Record oracle := Oracle {
  correct : jsstring -> bool;
  suggest : jsstring -> list jsstring
}.

(** What [this.spellChecker] holds: the [nspell] instance, or the fallback
    object, whose two closures read [this.customDictionary] when called. *)
Inductive checker :=
| Nspell (o : oracle)
| Fallback.

(** The fields of a [TextCorrector].  [customDictionary] is a [Set] of
    strings: a list without duplicates, in insertion order. *)
Record corrector := Corrector {
  spellChecker : option checker;
  customDictionary : list jsstring
}.

(** The collaborators outside the repository: [dictionary] is the outcome
    of loading [dictionary-en] into [nspell] ([None] when that fails), and
    [nlpText s] the value of [compromise(s).text()] ([None] when the call
    throws). *)
Record env := Env {
  dictionary : option oracle;
  nlpText : jsstring -> option jsstring
}.

Definition has (d : list jsstring) (w : jsstring) : bool := existsb (streq w) d.
Definition add (d : list jsstring) (w : jsstring) : list jsstring :=
  if has d w then d else d ++ [w].

(** [initializeOCRPatterns]: the three tables, each in the order in which
    [Object.entries] enumerates it (the keys that are array indices first,
    in ascending order, then the others in insertion order). *)
Definition characterErrors : list (string * string) :=
  [ ("0", "o"); ("1", "l"); ("5", "S"); ("8", "B");
    ("rn", "m"); ("cl", "d"); ("ii", "ll");
    ("vv", "w"); ("VV", "W"); ("nn", "n"); ("oo", "o") ]%string.

Definition wordErrors : list (string * string) :=
  [ ("tlie", "the"); ("liave", "have"); ("witli", "with"); ("tliis", "this");
    ("tliat", "that"); ("wliich", "which"); ("wlien", "when");
    ("wliere", "where"); ("liere", "here"); ("tliere", "there");
    ("liis", "his"); ("lier", "her"); ("liim", "him"); ("otlier", "other");
    ("anotlier", "another"); ("furtlier", "further") ]%string.

Definition punctuationErrors : list (string * string) :=
  [ (",,", ","); ("..", "."); (";;", ";"); ("::", ":"); ("??", "?");
    ("!!", "!"); (" ,", ","); (" .", "."); (" ;", ";"); (" :", ":");
    (" ?", "?"); (" !", "!") ]%string.

Definition applyTable (mk : string -> regexp) (table : list (string * string))
    (text : jsstring) : jsstring :=
  fold_left (fun corrected entry =>
               replaceAll (mk (fst entry)) (Template (js (snd entry))) corrected)
            table text.

(** [new RegExp(error, 'g')]: the keys are letters and digits. *)
Definition fixCharacterErrors (text : jsstring) : jsstring :=
  applyTable (fun error => RegExp (lit error) false) characterErrors text.

(** [new RegExp('\\b' + escapeRegExp(error) + '\\b', 'gi')]. *)
Definition fixWordErrors (text : jsstring) : jsstring :=
  applyTable (fun error => RegExp (seqs [RWordB; lit error; RWordB]) true)
             wordErrors text.

(** [new RegExp(escapeRegExp(error), 'g')]: the escaped key matches the
    key itself. *)
Definition fixPunctuationErrors (text : jsstring) : jsstring :=
  applyTable (fun error => RegExp (lit error) false) punctuationErrors text.

(** [/^---\s*Page\s+\d+\s*---$/] *)
Definition pageMarker : regexp :=
  RegExp (seqs [RBol; lit "---"; star sp; lit "Page"; plus sp; plus digit;
                star sp; lit "---"; REol]) false.

(** The bullets of the sources: U+2022, U+2023, U+25E6, U+2043, U+2219,
    [-] and [*]. *)
Definition bulletSet : list citem :=
  [CChr 8226; CChr 8227; CChr 9702; CChr 8259; CChr 8729; CChr 45; CChr 42]%N.

Definition upperAZ : regex := RSet false [CRange 65 90]%N.
Definition lowerAZ : regex := RSet false [CRange 97 122]%N.

(** [looksLikeHeading(line)] *)
Definition looksLikeHeading (line : jsstring) : bool :=
  if (List.length line <? 3)%nat then false
  else if (100 <? List.length line)%nat then false
  else if streq line (toUpperCase line) && (List.length line <? 50)%nat then true
  else if test (RegExp (seqs [RBol; upperAZ; star digit; RSet false (oneOf ".)"); sp]) false) line
  then true
  else if test (RegExp (seqs [RBol; plus digit; RSet false (oneOf ".)"); sp]) false) line
  then true
  else if test (RegExp (seqs [RBol; plus (RSet false (oneOf "IVX")); RSet false (oneOf ".)"); sp]) false) line
  then true
  else false.

(** [shouldMergeWithPrevious(line, currentParagraph)] *)
Definition shouldMergeWithPrevious (line : jsstring) (currentParagraph : list jsstring) : bool :=
  match currentParagraph with
  | [] => false
  | _ :: _ =>
      if looksLikeHeading line then false
      else if test (RegExp (seqs [RBol; star sp; RSet false bulletSet; sp]) false) line
              || test (RegExp (seqs [RBol; star sp; plus digit; RSet false (oneOf ".)"); sp]) false) line
      then false
      else
        let lastLine := last currentParagraph [] in
        if endsWith (js ".") lastLine && test (RegExp (seqs [RBol; upperAZ]) false) line
        then false
        else if negb (test (RegExp (seqs [RBol; upperAZ]) false) line) then true
        else if negb (test (RegExp (seqs [RSet false (oneOf ".!?"); REol]) false) lastLine) then true
        else false
  end.

(** The state of the loop of [restoreTextStructure]. *)
Record structure := Structure {
  processedLines : list jsstring;
  currentParagraph : list jsstring
}.

Definition flush (s : structure) : list jsstring :=
  match currentParagraph s with
  | [] => processedLines s
  | _ :: _ => processedLines s ++ [join (js " ") (currentParagraph s)]
  end.

(** One iteration of the loop, on the line [lines[i]]. *)
Definition structureStep (s : structure) (raw : jsstring) : structure :=
  let line := trim raw in
  if test pageMarker line then s
  else if negb (truthy line) then Structure (flush s ++ [[]]) []
  else if shouldMergeWithPrevious line (currentParagraph s)
  then Structure (processedLines s) (currentParagraph s ++ [line])
  else Structure (flush s) [line].

(** The logical lines that [restoreTextStructure] joins at its end. *)
Definition restoreLines (lines : list jsstring) : list jsstring :=
  flush (fold_left structureStep lines (Structure [] [])).

(** [restoreTextStructure(text, ocrResults)]; the second argument is not
    read. *)
Definition restoreTextStructure (text : jsstring) : jsstring :=
  join (js "\n") (restoreLines (splitChar 10%N text)).

(** [isValidWord(word)] *)
Definition commonWords : list jsstring :=
  List.map js
  [ "the"; "be"; "to"; "of"; "and"; "a"; "in"; "that"; "have"; "i";
    "it"; "for"; "not"; "on"; "with"; "he"; "as"; "you"; "do"; "at";
    "this"; "but"; "his"; "by"; "from"; "they"; "she"; "or"; "an"; "will";
    "my"; "one"; "all"; "would"; "there"; "their"; "what"; "so"; "up"; "out";
    "if"; "about"; "who"; "get"; "which"; "go"; "me"; "when"; "make"; "can";
    "like"; "time"; "no"; "just"; "him"; "know"; "take"; "people"; "into";
    "year"; "your"; "good"; "some"; "could"; "them"; "see"; "other"; "than";
    "then"; "now"; "look"; "only"; "come"; "its"; "over"; "think"; "also";
    "back"; "after"; "use"; "two"; "how"; "our"; "work"; "first"; "well";
    "way"; "even"; "new"; "want"; "because"; "any"; "these"; "give"; "day";
    "most"; "us" ]%string.

Definition isValidWord (dict : list jsstring) (word : jsstring) : bool :=
  if has dict (toLowerCase word) then true
  else has commonWords (toLowerCase word).

(** [getSuggestions(word)] *)
Definition suggestionWords : list jsstring :=
  List.map js
  [ "the"; "and"; "that"; "have"; "for"; "not"; "with"; "you"; "this"; "but" ]%string.

Definition getSuggestions (word : jsstring) : list jsstring :=
  firstn 5
    (filter (fun candidate =>
               (Natural.LevenshteinDistance (toLowerCase word) candidate <=? 2)%nat)
            suggestionWords).

(** The fallback object of [initializeSpellChecker]. *)
Definition fallbackOracle (dict : list jsstring) : oracle :=
  Oracle (fun word => negb (isValidWord dict word)) getSuggestions.

Definition oracleOf (c : checker) (dict : list jsstring) : oracle :=
  match c with
  | Nspell o => o
  | Fallback => fallbackOracle dict
  end.

(** [initializeSpellChecker()] *)
Definition initializeSpellChecker (e : env) (tc : corrector) : corrector :=
  match dictionary e with
  | Some o => Corrector (Some (Nspell o)) (customDictionary tc)
  | None => Corrector (Some Fallback) (customDictionary tc)
  end.

(** [chooseBestSuggestion(originalWord, suggestions, aggressiveMode)];
    [None] is [null].  For the length [n] of a string,
    [Math.floor(n * 0.3)] is the integer quotient of [3 * n] by [10]. *)
Definition chooseBestSuggestion (originalWord : jsstring)
    (suggestions : list jsstring) (aggressiveMode : bool) : option jsstring :=
  match suggestions with
  | [] => None
  | bestSuggestion :: _ =>
      if negb aggressiveMode then
        let distance :=
          Natural.LevenshteinDistance (toLowerCase originalWord)
                                      (toLowerCase bestSuggestion) in
        if (distance <=? Nat.max 1 (3 * List.length originalWord / 10))%nat
        then Some bestSuggestion
        else None
      else Some bestSuggestion
  end.

(** [/[^\w]/g] *)
Definition nonWord : regexp := RegExp (RSet true [CWord]) false.

(** The body of the loop of [performSpellCheck]: what is pushed on
    [correctedWords] for [word]. *)
Definition correctWord (o : oracle) (dict : list jsstring) (aggressiveMode : bool)
    (word : jsstring) : jsstring :=
  let cleanWord := replaceAll nonWord (Template []) word in
  if (List.length cleanWord <? 2)%nat then word
  else if has dict (toLowerCase cleanWord) then word
  else if correct o cleanWord then
    match suggest o cleanWord with
    | [] => word
    | suggestions =>
        match chooseBestSuggestion cleanWord suggestions aggressiveMode with
        | Some bestSuggestion =>
            if truthy bestSuggestion
            then replaceString word cleanWord bestSuggestion
            else word
        | None => word
        end
    end
  else word.

(** [performSpellCheck(text, aggressiveMode)] *)
Definition performSpellCheck (tc : corrector) (text : jsstring)
    (aggressiveMode : bool) : jsstring :=
  match spellChecker tc with
  | None => text
  | Some c =>
      let o := oracleOf c (customDictionary tc) in
      join (js " ")
           (List.map (correctWord o (customDictionary tc) aggressiveMode)
                     (split (RegExp (plus sp) false) text))
  end.

(** The four patterns of [improveTextFlow]: [/\s{2,}/g],
    [/\s+([,.;:!?])/g], [/([.!?])\s*([a-z])/g] and
    [/([.!?]\s+)([a-z])/g]. *)
Definition doubleSpace : regexp := RegExp (atLeast 2 sp) false.

Definition spacePunct : regexp :=
  RegExp (seqs [plus sp; RGroup 1 (RSet false (oneOf ",.;:!?"))]) false.

Definition stopLower : regexp :=
  RegExp (seqs [RGroup 1 (RSet false (oneOf ".!?")); star sp; RGroup 2 lowerAZ]) false.

Definition stopSpaceLower : regexp :=
  RegExp (seqs [RGroup 1 (RSeq (RSet false (oneOf ".!?")) (plus sp));
                RGroup 2 lowerAZ]) false.

(** The four replacements of [improveTextFlow]. *)
Definition collapseSpaces (s : jsstring) : jsstring :=
  replaceAll doubleSpace (Template (js " ")) s.

Definition spaceBeforePunctuation (s : jsstring) : jsstring :=
  replaceAll spacePunct (Template (js "$1")) s.

Definition spaceAfterSentence (s : jsstring) : jsstring :=
  replaceAll stopLower (Template (js "$1 $2")) s.

Definition capitalizeSentences (s : jsstring) : jsstring :=
  replaceAll stopSpaceLower
             (Callback (fun m => captureAt (groups m) 1
                                 ++ toUpperCase (captureAt (groups m) 2))) s.

(** [improveTextFlow(text)]: when [compromise] throws, the [catch] clause
    returns the argument. *)
Definition improveTextFlow (e : env) (text : jsstring) : jsstring :=
  match nlpText e text with
  | None => text
  | Some improved =>
      capitalizeSentences
        (spaceAfterSentence (spaceBeforePunctuation (collapseSpaces improved)))
  end.

(** [finalCleanup(text)] *)
Definition finalCleanup (text : jsstring) : jsstring :=
  let cleaned := replaceAll (RegExp (atLeast 3 (RChr 10%N)) false) (Template (js "\n\n")) text in
  let cleaned := join (js "\n") (List.map trim (splitChar 10%N cleaned)) in
  trim cleaned.

(** [loadCustomDictionary(customWords)] *)
Inductive customWords :=
| WordList (l : list jsstring)
| WordText (s : jsstring).

Definition loadCustomDictionary (tc : corrector) (w : customWords) : corrector :=
  match w with
  | WordList l =>
      Corrector (spellChecker tc)
                (fold_left (fun d word => add d (toLowerCase word)) l (customDictionary tc))
  | WordText s =>
      Corrector (spellChecker tc)
                (fold_left (fun d word =>
                              let trimmed := trim word in
                              if truthy trimmed then add d (toLowerCase trimmed) else d)
                           (splitChar 10%N s) (customDictionary tc))
  end.

(** The settings that [processText] reads. *)
Record settings := Settings {
  s_customDictionary : option customWords;
  enableSpellCheck : bool;
  aggressiveCorrection : bool;
  includeMetadata : bool
}.

(** [if (settings.customDictionary)]: an array is truthy, a string when it
    is not empty. *)
Definition dictionaryGiven (s : settings) : option customWords :=
  match s_customDictionary s with
  | Some (WordText []) => None
  | o => o
  end.

(** The first argument of [processText]. *)
Inductive ocrResults :=
| OcrString (s : jsstring)
| OcrStructured (st : OCRWorker.structuredText)
| OcrObject (text content : option jsstring)
| OcrNothing.

Definition orEmpty (o : option jsstring) : jsstring :=
  match o with Some s => s | None => [] end.

Definition extractText (r : ocrResults) : jsstring :=
  match r with
  | OcrString s => s
  | OcrStructured st =>
      if truthy (OCRWorker.fullText st) then OCRWorker.fullText st
      else join (js "\n\n")
             (filter (fun pageText => truthy (trim pageText))
                     (List.map OCRWorker.text (OCRWorker.pages st)))
  | OcrObject text content =>
      if truthy (orEmpty text) then orEmpty text else orEmpty content
  | OcrNothing => []
  end.

Definition noTextFallback : jsstring :=
  js "No text could be extracted from this PDF. This may be due to:\n- Unsupported PDF format\n- Image-based PDF requiring better OCR\n- Processing error\n\nPlease try with a different PDF or check the console for detailed error messages.".

(** Steps 1 to 4 of [processText]. *)
Definition correctAndRestore (text : jsstring) : jsstring :=
  restoreTextStructure (fixPunctuationErrors (fixWordErrors (fixCharacterErrors text))).

(** [processText(ocrResults, settings)]: the text returned and the
    corrector as the call leaves it. *)
Definition processText (e : env) (tc : corrector) (r : ocrResults) (s : settings)
    : jsstring * corrector :=
  let text := extractText r in
  if negb (truthy text) || negb (truthy (trim text)) then (noTextFallback, tc)
  else
    let tc := match spellChecker tc with
              | None => initializeSpellChecker e tc
              | Some _ => tc
              end in
    let tc := match dictionaryGiven s with
              | Some w => loadCustomDictionary tc w
              | None => tc
              end in
    let correctedText := correctAndRestore text in
    let correctedText :=
      if enableSpellCheck s
      then performSpellCheck tc correctedText (aggressiveCorrection s)
      else correctedText in
    let correctedText := improveTextFlow e correctedText in
    (finalCleanup correctedText, tc).

End TextCorrector.

(* ================================================================= *)
(** * Exceptions *)

(** The errors a method can throw, and the outcome of a call. *)
Inductive exn :=
| ReferenceError (name : string)
| TypeError (message : string).

Inductive result (A : Type) :=
| Returns (a : A)
| Throws (e : exn).
Arguments Returns {A} a.
Arguments Throws {A} e.

Definition bind {A B : Type} (r : result A) (k : A -> result B) : result B :=
  match r with
  | Returns a => k a
  | Throws e => Throws e
  end.

Notation "x <- c ;; k" := (bind c (fun x => k))
  (at level 61, c at next level, right associativity).

(* ================================================================= *)
(** * markdown-generator.js *)

Module MarkdownGenerator.
Import Js Regex.

(** [initializeHeadingPatterns()] *)
Definition headingPatterns : list regexp :=
  [ (* /^[IVX]+[\.\)]\s+(.+)$/i *)
    RegExp (seqs [RBol; plus (RSet false (oneOf "IVX")); RSet false (oneOf ".)");
                  plus sp; RGroup 1 (plus RAny); REol]) true;
    (* /^(\d+)[\.\)]\s+(.+)$/ *)
    RegExp (seqs [RBol; RGroup 1 (plus digit); RSet false (oneOf ".)");
                  plus sp; RGroup 2 (plus RAny); REol]) false;
    (* /^([A-Z])[\.\)]\s+(.+)$/ *)
    RegExp (seqs [RBol; RGroup 1 (RSet false [CRange 65 90]%N); RSet false (oneOf ".)");
                  plus sp; RGroup 2 (plus RAny); REol]) false;
    (* /^([A-Z][A-Z\s]{2,50})$/ *)
    RegExp (seqs [RBol;
                  RGroup 1 (RSeq (RSet false [CRange 65 90]%N)
                                 (between 2 50 (RSet false [CRange 65 90; CSpace]%N)));
                  REol]) false;
    (* /^(\d+\.\d+)\s+(.+)$/ *)
    RegExp (seqs [RBol; RGroup 1 (seqs [plus digit; RChr (chr "."); plus digit]);
                  plus sp; RGroup 2 (plus RAny); REol]) false;
    (* /^(CHAPTER|SECTION|PART|APPENDIX)\s+(.+)$/i *)
    RegExp (seqs [RBol;
                  RGroup 1 (RAlt (lit "CHAPTER")
                              (RAlt (lit "SECTION") (RAlt (lit "PART") (lit "APPENDIX"))));
                  plus sp; RGroup 2 (plus RAny); REol]) true ].

Record heading := Heading {
  level : nat;
  text : jsstring;
  markdown : jsstring
}.

(** A value that may be [undefined], used as a string. *)
Definition strOf (o : option jsstring) : jsstring :=
  match o with
  | Some s => s
  | None => js "undefined"
  end.

(** [a || b] on values that are strings or [undefined]. *)
Definition orElse (a b : option jsstring) : option jsstring :=
  match a with
  | Some (_ :: _) => a
  | _ => b
  end.

(** [determineHeadingLevel(match, patternIndex)].  The case of the
    all-caps pattern reads [line], which is neither a parameter nor a
    variable in scope there: the evaluation throws a ReferenceError. *)
Definition determineHeadingLevel (m : jsmatch) (patternIndex : nat) : result nat :=
  match patternIndex with
  | 0 => Returns 1
  | 1 => let num := parseDigits (strOf (group m 1)) in
         Returns (if (num <=? 3)%N then 2 else 3)
  | 2 => Returns 3
  | 3 => Throws (ReferenceError "line")
  | 4 => Returns 2
  | 5 => Returns 1
  | _ => Returns 2
  end.

(** [toTitleCase(str)]: [/\b\w/g] *)
Definition toTitleCase (str : jsstring) : jsstring :=
  replaceAll (RegExp (RSeq RWordB word) false)
             (Callback (fun m => toUpperCase (whole m)))
             (toLowerCase str).

(** [extractHeadingText(match, patternIndex)] *)
Definition extractHeadingText (m : jsmatch) (patternIndex : nat) : option jsstring :=
  match patternIndex with
  | 0 | 1 | 2 => orElse (group m 2) (group m 1)
  | 3 => Some (toTitleCase (strOf (group m 1)))
  | 4 => group m 2
  | 5 => group m 2
  | _ => orElse (group m 1) (group m 0)
  end.

(** [detectUnderlinedHeading(line)] *)
Definition detectUnderlinedHeading (line : jsstring) : option heading := None.

(** [detectHeading(line)]: the loop over the pattern table, from the
    pattern of index [i] on. *)
Fixpoint detectHeadingFrom (patterns : list regexp) (i : nat) (line : jsstring)
    : result (option heading) :=
  match patterns with
  | [] => Returns (detectUnderlinedHeading line)
  | pattern :: patterns' =>
      match exec pattern line with
      | Some m =>
          level <- determineHeadingLevel m i ;;
          let text := strOf (extractHeadingText m i) in
          Returns (Some (Heading level text
                           (repeat (js "#") level ++ js " " ++ text)))
      | None => detectHeadingFrom patterns' (S i) line
      end
  end.

Definition detectHeading (line : jsstring) : result (option heading) :=
  detectHeadingFrom headingPatterns 0 line.

Inductive listType := bullet | numbered.

Record listItem := ListItem {
  li_level : nat;
  li_type : listType;
  li_markdown : jsstring
}.

(** The bullets of [detectListItem]: U+2022, U+2023, U+25E6, U+2043,
    U+2219, [-] and [*]. *)
Definition bulletSet : list citem :=
  [CChr 8226; CChr 8227; CChr 9702; CChr 8259; CChr 8729; CChr 45; CChr 42]%N.

(** [detectListItem(line)] *)
Definition detectListItem (line : jsstring) : option listItem :=
  match exec (RegExp (seqs [RBol; RGroup 1 (star sp);
                            RGroup 2 (RSet false bulletSet);
                            plus sp; RGroup 3 (plus RAny); REol]) false) line with
  | Some bulletMatch =>
      let indent := List.length (strOf (group bulletMatch 1)) in
      let level := indent / 2 + 1 in
      Some (ListItem level bullet
              (repeat (js "  ") (Nat.max 0 (level - 1)) ++ js "- "
               ++ strOf (group bulletMatch 3)))
  | None =>
      match exec (RegExp (seqs [RBol; RGroup 1 (star sp); RGroup 2 (plus digit);
                                RSet false (oneOf ".)"); plus sp;
                                RGroup 3 (plus RAny); REol]) false) line with
      | Some numberedMatch =>
          let indent := List.length (strOf (group numberedMatch 1)) in
          let level := indent / 2 + 1 in
          Some (ListItem level numbered
                  (repeat (js "  ") (Nat.max 0 (level - 1))
                   ++ strOf (group numberedMatch 2) ++ js ". "
                   ++ strOf (group numberedMatch 3)))
      | None => None
      end
  end.

(** [looksLikeTableRow(line)] *)
Definition looksLikeTableRow (line : jsstring) : bool :=
  test (RegExp (seqs [plus word; atLeast 2 sp; plus word]) false) line
  || includes (js "\t") line.

Fixpoint takeWhile {A : Type} (p : A -> bool) (l : list A) : list A :=
  match l with
  | [] => []
  | x :: l' => if p x then x :: takeWhile p l' else []
  end.

(** [processTable(lines, startIndex)], on the lines from [startIndex] on:
    the markdown of the table and the number of lines it takes, or [None]
    for the result whose [markdown] is [null]. *)
Definition processTable (linesFrom : list jsstring) : option (jsstring * nat) :=
  let tableLines :=
    List.map trim (takeWhile (fun l => looksLikeTableRow (trim l)) linesFrom) in
  if (List.length tableLines <? 2)%nat then None
  else
    let rows :=
      List.map (fun line =>
                  let cells :=
                    List.map trim
                      (split (RegExp (RAlt (atLeast 2 sp) (plus (RChr 9%N))) false) line) in
                  js "| " ++ join (js " | ") cells ++ js " |")
               tableLines in
    let rows :=
      match rows with
      | [] => rows
      | first :: others =>
          let headerSeparator :=
            js "|" ++ repeat (js " --- |") (List.length (splitChar (chr "|") first) - 2) in
          first :: headerSeparator :: others
      end in
    Some (js "\n" ++ join (js "\n") rows ++ js "\n", List.length tableLines).

(** [looksLikeCode(line)] *)
Definition codeKeywords : list jsstring :=
  List.map js
  [ "function"; "var"; "let"; "const"; "if"; "else"; "for"; "while"; "return";
    "import"; "export"; "class"; "def"; "public"; "private" ]%string.

Definition looksLikeCode (line : jsstring) : bool :=
  if (List.length line =? 0)%nat then false
  else if existsb (fun keyword => includes keyword line) codeKeywords then true
  else if test (RegExp (RSet false (oneOf "{}();=<>")) false) line then true
  else if test (RegExp (seqs [RBol; atLeast 4 sp]) false) line
          && test (RegExp word false) line then true
  else false.

(** [processInlineFormatting(line)] *)
Definition alnum : list citem := [CRange 97 122; CRange 65 90; CRange 48 57]%N.

Definition processInlineFormatting (line : jsstring) : jsstring :=
  (* /\b([A-Z]{2,})\b(?!\s*[.!?])/g *)
  let processed :=
    replaceAll (RegExp (seqs [RWordB; RGroup 1 (atLeast 2 (RSet false [CRange 65 90]%N));
                              RWordB;
                              RNotAhead (RSeq (star sp) (RSet false (oneOf ".!?")))]) false)
               (Template (js "**$1**")) line in
  (* /(https?:\/\/[^\s]+)/g *)
  let processed :=
    replaceAll (RegExp (RGroup 1 (seqs [lit "http"; RRep 0 (Some 1) (RChr (chr "s"));
                                        lit "://"; plus (RSet true [CSpace])])) false)
               (Template (js "[$1]($1)")) processed in
  (* /\b([a-zA-Z0-9._%+-]+@[a-zA-Z0-9.-]+\.[a-zA-Z]{2,})\b/g *)
  replaceAll (RegExp (seqs [RWordB;
                            RGroup 1 (seqs [plus (RSet false (alnum ++ oneOf "._%+-"));
                                            RChr (chr "@");
                                            plus (RSet false (alnum ++ oneOf ".-"));
                                            RChr (chr ".");
                                            atLeast 2 (RSet false [CRange 97 122; CRange 65 90]%N)]);
                            RWordB]) false)
             (Template (js "[$1](mailto:$1)")) processed.

(** The loop of [processContent].  [skip] counts the lines still to pass
    over after a table ([i = table.endIndex]); [listLevel] and
    [currentHeadingLevel] are assigned but never read, and are left out. *)
Fixpoint processLines (lines : list jsstring) (skip : nat)
    (processedLines : list jsstring) (inCodeBlock : bool)
    : result (list jsstring * bool) :=
  match lines with
  | [] => Returns (processedLines, inCodeBlock)
  | line :: lines' =>
      match skip with
      | S skip' => processLines lines' skip' processedLines inCodeBlock
      | O =>
          let trimmedLine := trim line in
          if negb (truthy trimmedLine)
          then processLines lines' 0 (processedLines ++ [[]]) inCodeBlock
          else
            heading <- detectHeading trimmedLine ;;
            match heading with
            | Some h =>
                let processedLines :=
                  if (0 <? List.length processedLines)%nat
                     && negb (streq (last processedLines []) [])
                  then processedLines ++ [[]] else processedLines in
                processLines lines' 0 (processedLines ++ [markdown h]) inCodeBlock
            | None =>
                match detectListItem trimmedLine with
                | Some item =>
                    processLines lines' 0 (processedLines ++ [li_markdown item]) inCodeBlock
                | None =>
                    match (if looksLikeTableRow trimmedLine
                           then processTable lines else None) with
                    | Some (table, n) =>
                        processLines lines' (n - 1) (processedLines ++ [table]) inCodeBlock
                    | None =>
                        if looksLikeCode trimmedLine then
                          processLines lines' 0
                            ((if inCodeBlock then processedLines
                              else processedLines ++ [js "```"]) ++ [trimmedLine])
                            true
                        else
                          let processedLines :=
                            if inCodeBlock then processedLines ++ [js "```"]
                            else processedLines in
                          processLines lines' 0
                            (processedLines ++ [processInlineFormatting trimmedLine])
                            false
                    end
                end
            end
      end
  end.

(** [processContent(text, options)]; the options are not read. *)
Definition processContent (text : jsstring) : result jsstring :=
  r <- processLines (splitChar 10%N text) 0 [] false ;;
  let processedLines :=
    if snd r then fst r ++ [js "```"] else fst r in
  Returns (join (js "\n") processedLines).

(** [generateAnchor(text)] *)
Definition generateAnchor (text : jsstring) : jsstring :=
  let s := toLowerCase text in
  let s := replaceAll (RegExp (RSet true [CWord; CSpace; CChr (chr "-")]) false) (Template []) s in
  let s := replaceAll (RegExp (plus sp) false) (Template (js "-")) s in
  let s := replaceAll (RegExp (plus (RChr (chr "-"))) false) (Template (js "-")) s in
  replaceAll (RegExp (RAlt (RSeq RBol (RChr (chr "-"))) (RSeq (RChr (chr "-")) REol)) false)
             (Template []) s.

Record tocEntry := TocEntry {
  toc_level : nat;
  toc_text : jsstring;
  toc_anchor : jsstring
}.

(** [/^(#{1,6})\s+(.+)$/] *)
Definition headingLine : regexp :=
  RegExp (seqs [RBol; RGroup 1 (between 1 6 (RChr (chr "#"))); plus sp;
                RGroup 2 (plus RAny); REol]) false.

(** [generateTableOfContents(content)]; [None] is [null]. *)
Definition tocHeadings (content : jsstring) : list tocEntry :=
  flat_map (fun line =>
              match exec headingLine line with
              | Some headingMatch =>
                  let text := strOf (group headingMatch 2) in
                  [TocEntry (List.length (strOf (group headingMatch 1))) text
                            (generateAnchor text)]
              | None => []
              end)
           (splitChar 10%N content).

Definition generateTableOfContents (content : jsstring) : option jsstring :=
  match tocHeadings content with
  | [] => None
  | headings =>
      Some (join (js "\n")
              (List.map (fun h =>
                           repeat (js "  ") (Nat.max 0 (toc_level h - 1))
                           ++ js "- [" ++ toc_text h ++ js "](#" ++ toc_anchor h ++ js ")")
                        headings))
  end.

(** [finalCleanup(markdown)] *)
Definition hashes : regex := between 1 6 (RChr (chr "#")).

Definition finalCleanup (markdown : jsstring) : jsstring :=
  (* /\n{4,}/g *)
  let cleaned :=
    replaceAll (RegExp (atLeast 4 (RChr 10%N)) false) (Template (js "\n\n\n")) markdown in
  (* /\n(#{1,6}\s+)/g *)
  let cleaned :=
    replaceAll (RegExp (RSeq (RChr 10%N) (RGroup 1 (RSeq hashes (plus sp)))) false)
               (Template (js "\n\n$1")) cleaned in
  (* /(#{1,6}\s+.+)\n(?!\n)/g *)
  let cleaned :=
    replaceAll (RegExp (seqs [RGroup 1 (seqs [hashes; plus sp; plus RAny]);
                              RChr 10%N; RNotAhead (RChr 10%N)]) false)
               (Template (js "$1\n\n")) cleaned in
  (* /\n([\-\*]\s+)/g *)
  let cleaned :=
    replaceAll (RegExp (RSeq (RChr 10%N) (RGroup 1 (RSeq (RSet false (oneOf "-*")) (plus sp)))) false)
               (Template (js "\n$1")) cleaned in
  let cleaned := join (js "\n") (List.map trimEnd (splitChar 10%N cleaned)) in
  trimEnd cleaned ++ js "\n".

(** The reading of the clock by [new Date()], in UTC. *)
Record Date := MkDate {
  year : N; month : N; day : N;
  hours : N; minutes : N; seconds : N; milliseconds : N
}.

Definition digitChar (n : N) : char := (48 + n mod 10)%N.

Fixpoint padded (width : nat) (n : N) : jsstring :=
  match width with
  | O => []
  | S w => padded w (n / 10) ++ [digitChar n]
  end.

(** [now.toISOString()], for a year of four digits. *)
Definition toISOString (d : Date) : jsstring :=
  padded 4 (year d) ++ js "-" ++ padded 2 (month d) ++ js "-" ++ padded 2 (day d)
  ++ js "T" ++ padded 2 (hours d) ++ js ":" ++ padded 2 (minutes d) ++ js ":"
  ++ padded 2 (seconds d) ++ js "." ++ padded 3 (milliseconds d) ++ js "Z".

Definition quote : jsstring := [34%N].

(** [generateMetadata(sourceURL)]; [now] is the value of [new Date()]. *)
Definition generateMetadata (now : Date) (sourceURL : jsstring) : jsstring :=
  join (js "\n")
    [ js "---";
      js "title: " ++ quote ++ js "PDF Processed Document" ++ quote;
      js "source: " ++ quote ++ sourceURL ++ quote;
      js "processed_date: " ++ quote ++ toISOString now ++ quote;
      js "generator: " ++ quote ++ js "PDF Processor v1.0.0" ++ quote;
      js "---";
      [] ]
  ++ js "\n".

(** The options of [generate], with their defaults. *)
Record options := Options {
  sourceURL : jsstring;
  metadata : bool;
  preserveFormatting : bool;
  includeTableOfContents : bool
}.

Definition defaultOptions : options := Options [] true true false.

Definition placeholder : jsstring :=
  js "No content could be processed from the PDF. Please check the processing logs for errors.".

(** [generate(text, options)]; [text] is [None] for an argument that is
    not a string, and [now] is the clock that [generateMetadata] reads. *)
Definition generate (now : Date) (text : option jsstring) (o : options)
    : result jsstring :=
  let text := match text with
              | Some ((_ :: _) as t) => t
              | _ => placeholder
              end in
  let markdown := if metadata o then generateMetadata now (sourceURL o) else [] in
  processedContent <- processContent text ;;
  let markdown :=
    if includeTableOfContents o then
      match generateTableOfContents processedContent with
      | Some toc =>
          if truthy toc
          then markdown ++ js "\n## Table of Contents\n\n" ++ toc ++ js "\n\n"
          else markdown
      | None => markdown
      end
    else markdown in
  Returns (finalCleanup (markdown ++ processedContent)).

End MarkdownGenerator.

(* ================================================================= *)
(** * pdf-processor.js: the orchestration *)

Module PDFProcessor.
Import Js.

(** [processURL(jobId, url, settings)] from the recognition step on, up
    to the markdown: [results] are the page results that [processImages]
    combines, which a new [TextCorrector] corrects and a new
    [MarkdownGenerator] renders; [clock] and [now] are the two readings of
    the time.  [generate] receives the URL and [settings.includeMetadata]
    only.  The value is the [markdown] field of the object that
    [processURL] returns; the progress messages, and the calls of
    [saveOutput] and [cleanup] that come after [generate] and write and
    remove files, are not part of this function. *)
Definition newCorrector : TextCorrector.corrector := TextCorrector.Corrector None [].

Definition processURL (e : TextCorrector.env) (clock : N) (now : MarkdownGenerator.Date)
    (url : jsstring) (results : list OCRWorker.pageResult)
    (s : TextCorrector.settings) : result jsstring :=
  let ocrResults := OCRWorker.combinePageResults clock results in
  let correctedText :=
    fst (TextCorrector.processText e newCorrector
           (TextCorrector.OcrStructured ocrResults) s) in
  MarkdownGenerator.generate now (Some correctedText)
    (MarkdownGenerator.Options url (TextCorrector.includeMetadata s) true false).

(** [array.slice(start, end)] for indices within the array. *)
Definition slice {A : Type} (start stop : nat) (l : list A) : list A :=
  firstn (stop - start) (skipn start l).

(** [splitTextIntoPages(text, numPages)].  For the numbers of lines and
    of pages of a document, [Math.ceil(a / b)] is the integer quotient of
    [a + b - 1] by [b]. *)
Definition splitTextIntoPages (text : jsstring) (numPages : nat) : list jsstring :=
  if (numPages <=? 1)%nat then [text]
  else
    let lines := splitChar 10%N text in
    let linesPerPage := (List.length lines + numPages - 1) / numPages in
    flat_map (fun i =>
                let start := i * linesPerPage in
                let stop := Nat.min ((i + 1) * linesPerPage) (List.length lines) in
                let pageText := join (js "\n") (slice start stop lines) in
                if (0 <? List.length (trim pageText))%nat then [pageText] else [])
             (seq 0 numPages).

(** The text of the document that [convertPDFToImages] makes up when it
    has no pages to return ([mockText]). *)
Definition mockText : jsstring :=
  js "# PDF Processing Demonstration\n\n## Introduction\n\nThis is a demonstration of the PDF Processor application. The PDF you provided could not be fully processed, so this mock content demonstrates the text correction and markdown generation features.\n\n## Features Demonstrated\n\nThe following features are working correctly:\n\n### Text Processing Pipeline\n- **Text structure restoration** - Paragraphs and headings are properly formatted\n- **OCR error correction** - Common OCR errors are automatically fixed\n- **Spell checking** - Misspelled words are corrected when possible\n- **Markdown formatting** - Clean, structured markdown output\n\n### System Architecture\n- Real-time progress tracking\n- Robust error handling\n- Fallback processing modes\n- Comprehensive logging\n\n## Technical Details\n\nThis content was generated because:\n- The PDF may be image-based requiring external OCR tools\n- Network connectivity issues prevented download\n- The PDF format is not fully supported\n- System dependencies are missing\n\n## Next Steps\n\nTo enable full PDF processing:\n1. Install ImageMagick or GraphicsMagick\n2. Ensure network connectivity\n3. Try with text-based PDFs\n4. Check the console logs for detailed error information\n\n## Conclusion\n\nThe PDF Processor application is working correctly. This demonstration shows that all text processing features are functional and ready for real PDF content.".

(** The files that [convertPDFToImages] writes in the temporary
    directory when it works from extracted text: the text of the page of
    a given number, and the mock text. *)
Inductive tempFile :=
| TextFile (page : nat)
| MockFile.

(** The loop of [convertPDFToImages] over [pageTexts], from the index [i]
    on: the text of each page is written to a file, then the page is
    pushed.  [writeFile f] tells whether [fs.writeFile] succeeds on the
    file [f]; [None] when it throws. *)
Fixpoint pagesFrom (writeFile : tempFile -> bool) (i : nat) (pageTexts : list jsstring)
    : option (list OCRWorker.imagePage) :=
  match pageTexts with
  | [] => Some []
  | pageText :: pageTexts' =>
      if writeFile (TextFile (i + 1)) then
        match pagesFrom writeFile (S i) pageTexts' with
        | Some pages =>
            Some (OCRWorker.ImagePage (N.of_nat (i + 1)) true (Some pageText) :: pages)
        | None => None
        end
      else None
  end.

(** The pages of the images of [pdf2pic]: they have a number, a path and
    a name only. *)
Definition imagePagesOf (totalPages : nat) : list OCRWorker.imagePage :=
  List.map (fun pageNum => OCRWorker.ImagePage (N.of_nat pageNum) false None)
           (seq 1 totalPages).

(** [convertPDFToImages(jobId, pdfPath, settings)].  [converted] is the
    number of pages that [pdf2pic] has converted ([None] when [pdf2pic]
    is not available, or when the conversion throws, which the first
    [catch] clause absorbs); [parsed] is [data.text] and [data.numpages]
    of the result of [pdfParse] ([None] when [pdf-parse] has not been
    loaded, or when reading or parsing the file throws, which the second
    [catch] clause absorbs, as it does a failure to write the text of a
    page).  The last part makes up the document of [mockText]; nothing
    catches a failure to write it: [None] is the rejection with the error
    of [fs.writeFile]. *)
Definition convertPDFToImages (converted : option nat) (parsed : option (jsstring * nat))
    (writeFile : tempFile -> bool) : option (list OCRWorker.imagePage) :=
  match converted with
  | Some totalPages => Some (imagePagesOf totalPages)
  | None =>
      let extracted :=
        match parsed with
        | Some (text, numpages) =>
            if truthy text && truthy (trim text) && (100 <? List.length text)%nat then
              pagesFrom writeFile 0
                (splitTextIntoPages text (if (numpages =? 0)%nat then 1 else numpages))
            else None
        | None => None
        end in
      match extracted with
      | Some pages => Some pages
      | None =>
          if writeFile MockFile
          then Some [OCRWorker.ImagePage 1 true (Some mockText)]
          else None
      end
  end.

End PDFProcessor.

(* ================================================================= *)
(** * Vocabulary of the properties *)

Import Js Regex.

(** What [detectHeading] returns when the pattern of index [i] gives the
    match [m]. *)
Definition classified (m : jsmatch) (i : nat)
    : result (option MarkdownGenerator.heading) :=
  level <- MarkdownGenerator.determineHeadingLevel m i ;;
  let text := MarkdownGenerator.strOf (MarkdownGenerator.extractHeadingText m i) in
  Returns (Some (MarkdownGenerator.Heading level text
                   (repeat (js "#") level ++ js " " ++ text))).

(** The second and the fourth pattern of the table. *)
Definition numericPrefix : regexp :=
  nth 1 MarkdownGenerator.headingPatterns (RegExp REmpty false).
Definition allCaps : regexp :=
  nth 3 MarkdownGenerator.headingPatterns (RegExp REmpty false).

(** The end-to-end scenario of the specification: one page, the default
    settings of the application (spell check on, not aggressive, metadata
    on, an empty custom dictionary), a clock reading, the fallback spell
    checker and a [compromise] that gives the text back unchanged. *)
Definition scenarioText : jsstring := js "HELLO WORLD\n\nThis is a test.".

Definition scenarioPage : OCRWorker.pageResult :=
  OCRWorker.PageResult 1%N scenarioText (Some (95 # 1)%Q) None.

Definition defaultSettings : TextCorrector.settings :=
  TextCorrector.Settings (Some (TextCorrector.WordText [])) true false true.

Definition scenarioDate : MarkdownGenerator.Date :=
  MarkdownGenerator.MkDate 2025 1 22 12 0 0 0.

Definition plainEnv : TextCorrector.env :=
  TextCorrector.Env None (fun s => Some s).

Definition scenarioURL : jsstring := js "https://example.com/doc.pdf".

(** The longest run of consecutive blank lines. *)
Fixpoint blankRun (current longest : nat) (lines : list jsstring) : nat :=
  match lines with
  | [] => Nat.max current longest
  | [] :: lines' => blankRun (S current) longest lines'
  | (_ :: _) :: lines' => blankRun 0 (Nat.max current longest) lines'
  end.

(** The blank lines of a document: its last line is the empty piece after
    the final newline, which is not a line of the document. *)
Definition longestBlankRun (markdown : jsstring) : nat :=
  blankRun 0 0 (removelast (splitChar 10%N markdown)).

(** The entry that [combinePageResults] pushes for a page. *)
Definition lowEntry (p : OCRWorker.pageResult) : OCRWorker.lowConfidencePage :=
  OCRWorker.LowConfidencePage (OCRWorker.page p) (OCRWorker.confidence p).

Definition isLowConfidence (p : OCRWorker.pageResult) : bool :=
  OCRWorker.hasText p && OCRWorker.Qltb (OCRWorker.confidenceOrZero p) 70%Q.

(** The page that [processImages] records when recognition fails. *)
Definition failedPage : OCRWorker.pageResult :=
  OCRWorker.PageResult 1%N [] (Some 0%Q) None.

(** A spell checker that reports every word misspelled and suggests one
    word for it. *)
Definition suggesting (w : jsstring) : TextCorrector.oracle :=
  TextCorrector.Oracle (fun _ => true) (fun _ => [w]).

(** The comparison key of a token: [word.replace(/[^\w]/g, '')]. *)
Definition keyOf (word : jsstring) : jsstring :=
  replaceAll TextCorrector.nonWord (Template []) word.

(** A text without line feed. *)
Definition LF : char := 10%N.
Definition noNewline (s : jsstring) : Prop := Forall (fun c => c <> LF) s.

(** A text without white space. *)
Definition noSpace (s : jsstring) : Prop := Forall (fun c => isSpace c = false) s.

(** [/\s+/], the separator of [performSpellCheck]. *)
Definition whitespaceRun : regexp := RegExp (plus sp) false.

(** The number of code units at the head of [s] that satisfy [p], and the
    matcher state [n] code units further. *)
Fixpoint prefixLen (p : char -> bool) (s : jsstring) : nat :=
  match s with
  | c :: t => if p c then S (prefixLen p t) else 0
  | [] => 0
  end.

Fixpoint advanceN (n : nat) (st : mstate) : mstate :=
  match n with
  | O => st
  | S k =>
      match rest st with
      | c :: t => advanceN k (MState (c :: seen st) t (caps st))
      | [] => st
      end
  end.

(** The classes of the patterns of [improveTextFlow]: [[,.;:!?]], [[.!?]]
    and [[a-z]]. *)
Definition isPunct (c : char) : bool :=
  existsb (fun it => citemMatch it c) (oneOf ",.;:!?").
Definition isStop (c : char) : bool :=
  existsb (fun it => citemMatch it c) (oneOf ".!?").
Definition isLowerAZ (c : char) : bool :=
  existsb (fun it => citemMatch it c) [CRange 97 122]%N.

Definition headIs (p : char -> bool) (s : jsstring) : bool :=
  match s with
  | c :: _ => p c
  | [] => false
  end.

(** What the four replacements of [improveTextFlow] leave behind them: no
    two white-space code units in a row; no white space before
    [, . ; : ! ?]; no lower-case letter after [. ! ?], whether directly or
    after one white-space code unit. *)
Fixpoint noDoubleSpace (s : jsstring) : bool :=
  match s with
  | a :: t => negb (isSpace a && headIs isSpace t) && noDoubleSpace t
  | [] => true
  end.

Fixpoint noSpaceBeforePunct (s : jsstring) : bool :=
  match s with
  | a :: t => negb (isSpace a && headIs isPunct t) && noSpaceBeforePunct t
  | [] => true
  end.

Definition lowerFollows (s : jsstring) : bool :=
  headIs isLowerAZ s
  || match s with
     | c :: t => isSpace c && headIs isLowerAZ t
     | [] => false
     end.

Fixpoint sentencesCapitalized (s : jsstring) : bool :=
  match s with
  | a :: t => negb (isStop a && lowerFollows t) && sentencesCapitalized t
  | [] => true
  end.

(** The replacements after the first one, on a text without two
    white-space code units in a row. *)
Fixpoint dropSpaceBeforePunct (s : jsstring) : jsstring :=
  match s with
  | c1 :: s1 =>
      match s1 with
      | c2 :: s2 =>
          if isSpace c1 && isPunct c2 then c2 :: dropSpaceBeforePunct s2
          else c1 :: dropSpaceBeforePunct s1
      | [] => [c1]
      end
  | [] => []
  end.

Fixpoint spaceAfterStop (s : jsstring) : jsstring :=
  match s with
  | [] => []
  | c1 :: s1 =>
      if isStop c1 then
        match s1 with
        | c2 :: s2 =>
            if isLowerAZ c2 then c1 :: 32%N :: c2 :: spaceAfterStop s2
            else if isSpace c2 then
              match s2 with
              | c3 :: s3 =>
                  if isLowerAZ c3 then c1 :: 32%N :: c3 :: spaceAfterStop s3
                  else c1 :: spaceAfterStop s1
              | [] => c1 :: spaceAfterStop s1
              end
            else c1 :: spaceAfterStop s1
        | [] => [c1]
        end
      else c1 :: spaceAfterStop s1
  end.

Fixpoint capitalizeAfterStop (s : jsstring) : jsstring :=
  match s with
  | [] => []
  | c1 :: s1 =>
      match s1 with
      | c2 :: c3 :: s3 =>
          if isStop c1 && isSpace c2 && isLowerAZ c3
          then c1 :: c2 :: upperChar c3 :: capitalizeAfterStop s3
          else c1 :: capitalizeAfterStop s1
      | _ => c1 :: capitalizeAfterStop s1
      end
  end.

(** No match of [re] at any position of [s], which comes after [sn]. *)
Fixpoint noMatch (re : regexp) (sn s : jsstring) : Prop :=
  matchAt re (MState sn s []) = None
  /\ match s with
     | c :: t => noMatch re (c :: sn) t
     | [] => True
     end.

(** No [. ! ?] directly before a lower-case letter. *)
Fixpoint noStopLower (s : jsstring) : bool :=
  match s with
  | a :: t => negb (isStop a && headIs isLowerAZ t) && noStopLower t
  | [] => true
  end.

(** The four replacements of [improveTextFlow], one after the other. *)
Definition normalizeFlow (s : jsstring) : jsstring :=
  TextCorrector.capitalizeSentences
    (TextCorrector.spaceAfterSentence
       (TextCorrector.spaceBeforePunctuation (TextCorrector.collapseSpaces s))).

(** The spell checker that [processText] ends up using: the one already
    initialized, or the one that [initializeSpellChecker] installs. *)
Definition checkerInUse (e : TextCorrector.env) (tc : TextCorrector.corrector)
    : TextCorrector.checker :=
  match TextCorrector.spellChecker tc with
  | Some c => c
  | None =>
      match TextCorrector.dictionary e with
      | Some o => TextCorrector.Nspell o
      | None => TextCorrector.Fallback
      end
  end.


(* ================================================================= *)
(** * Vocabulary of the further properties *)

(** The first and the third pattern of the table of heading patterns. *)
Definition romanNumeral : regexp :=
  nth 0 MarkdownGenerator.headingPatterns (RegExp REmpty false).
Definition letterPrefix : regexp :=
  nth 2 MarkdownGenerator.headingPatterns (RegExp REmpty false).

(** A line on which the all-caps pattern is the first one to match. *)
Definition allCapsFirst (line : jsstring) : Prop :=
  exec romanNumeral line = None
  /\ exec numericPrefix line = None
  /\ exec letterPrefix line = None
  /\ exec allCaps line <> None.

(** The words that [loadCustomDictionary] takes from its argument: the
    elements of an array, the trimmed non-empty lines of a string. *)
Definition entries (w : TextCorrector.customWords) : list jsstring :=
  match w with
  | TextCorrector.WordList l => l
  | TextCorrector.WordText s =>
      filter truthy (List.map trim (splitChar LF s))
  end.

(** The text of the pages that have some, trimmed. *)
Definition pageTexts (results : list OCRWorker.pageResult) : list jsstring :=
  List.map (fun p => trim (OCRWorker.text p)) (filter OCRWorker.hasText results).

(** The matcher has gone from [st] to [st'] over the code units [p]. *)
Definition moved (st st' : mstate) : Prop :=
  exists p, rest st = p ++ rest st' /\ seen st' = rev p ++ seen st.

(** A position that [replace] passes over: no match there, or an empty
    one. *)
Definition passedOver (re : regexp) (sn : jsstring) (c : char) (t : jsstring) : Prop :=
  match matchAt re (MState sn (c :: t) []) with
  | None => True
  | Some (m, _) => whole m = []
  end.

(** A replacement string without [$]. *)
Definition plain (t : jsstring) : Prop := Forall (fun c => c <> 36%N) t.

(** The steps of [generateAnchor] after the change of case, as functions
    on the code units: keeping the code units of a class; writing [t] for
    each run of a class ([inRun]: the code unit before was of the class);
    dropping a hyphen that comes first, and one that comes last. *)
Definition isHyphen (c : char) : bool := (45 =? c)%N.

Definition anchorChar (c : char) : bool :=
  existsb (fun it => citemMatch it c) [CWord; CSpace; CChr 45%N].

Fixpoint squeeze (p : char -> bool) (t : jsstring) (inRun : bool) (s : jsstring)
    : jsstring :=
  match s with
  | [] => []
  | c :: s' =>
      if p c then (if inRun then squeeze p t true s' else t ++ squeeze p t true s')
      else c :: squeeze p t false s'
  end.

Fixpoint dropLastHyphen (s : jsstring) : jsstring :=
  match s with
  | [] => []
  | c :: s' =>
      match s' with
      | [] => if isHyphen c then [] else [c]
      | _ :: _ => c :: dropLastHyphen s'
      end
  end.

Definition dropEndHyphens (s : jsstring) : jsstring :=
  match s with
  | [] => []
  | c :: s' => if isHyphen c then dropLastHyphen s' else dropLastHyphen s
  end.

(** The code units of an anchor: lower-case letters, digits, the
    underscore and the hyphen. *)
Definition slugChar (c : char) : bool :=
  isLower c || isDigit c || (c =? 95)%N || isHyphen c.

Fixpoint noDoubleHyphen (s : jsstring) : bool :=
  match s with
  | a :: t => negb (isHyphen a && headIs isHyphen t) && noDoubleHyphen t
  | [] => true
  end.

Definition lastIs (p : char -> bool) (s : jsstring) : bool := headIs p (rev s).

(** [/^-|-$/] *)
Definition endHyphen : regexp :=
  RegExp (RAlt (RSeq RBol (RChr 45%N)) (RSeq (RChr 45%N) REol)) false.

(** A text without the digits that [fixCharacterErrors] rewrites. *)
Definition rewrittenDigit (c : char) : Prop := In c (js "0158").
Definition afterCharacterFix (s : jsstring) : Prop :=
  Forall (fun c => ~ rewrittenDigit c) s.

(** The non-empty lines, each followed by a space: the text of the lines
    whatever the way it is broken into lines. *)
Definition spaced (lines : list jsstring) : jsstring :=
  flat_map (fun line => line ++ [32%N]) (filter truthy lines).

Definition isPageMarker (raw : jsstring) : bool :=
  test TextCorrector.pageMarker (trim raw).

(** A line with something other than white space on it. *)
Definition nonBlank (line : jsstring) : bool := truthy (trim line).

(** Whether the group of number [i] occurs in [r]. *)
Fixpoint hasGroup (i : nat) (r : regex) : bool :=
  match r with
  | RSeq a b | RAlt a b => hasGroup i a || hasGroup i b
  | RRep _ _ a | RNotAhead a => hasGroup i a
  | RGroup j a => (i =? j)%nat || hasGroup i a
  | _ => false
  end.

(** The groups captured so far are over the alphabet [ok]. *)
Definition capturesOver (ok : char -> Prop) (st : mstate) : Prop :=
  Forall (fun entry => Forall ok (snd entry)) (caps st).


(** The markdown of the placeholder of [generate]: the sentence contains
    the word [for], which [looksLikeCode] takes for a keyword. *)
Definition placeholderMarkdown : jsstring :=
  js "```\nNo content could be processed from the PDF. Please check the processing logs for errors.\n```".

(** An ASCII code unit that is no lower-case letter. *)
Definition upperOrCaseless (c : char) : bool := (c <? 128)%N && negb (isLower c).

(** What the first four replacements of [fixCharacterErrors] make of a
    code unit: the digits 0, 1, 5 and 8 become the letters o, l, S and B. *)
Definition digitLetter (c : char) : char :=
  if (c =? 48)%N then 111%N
  else if (c =? 49)%N then 108%N
  else if (c =? 53)%N then 83%N
  else if (c =? 56)%N then 66%N
  else c.

(** The two patterns of [detectListItem]. *)
Definition bulletRe : regexp :=
  RegExp (seqs [RBol; RGroup 1 (star sp);
                RGroup 2 (RSet false MarkdownGenerator.bulletSet);
                plus sp; RGroup 3 (plus RAny); REol]) false.

Definition numberedRe : regexp :=
  RegExp (seqs [RBol; RGroup 1 (star sp); RGroup 2 (plus digit);
                RSet false (oneOf ".)"); plus sp; RGroup 3 (plus RAny); REol]) false.

(** A spell checker that answers as [nspell] does: [correct] is true of
    the words of a lexicon, and [suggest] proposes nothing for them; for
    any other word it proposes [candidates]. *)
Definition lexiconChecker (lexicon candidates : list jsstring) : TextCorrector.oracle :=
  TextCorrector.Oracle
    (fun word => TextCorrector.has lexicon word)
    (fun word => if TextCorrector.has lexicon word then [] else candidates).

(** A document of extracted text of more than 100 code units. *)
Definition sampleDocument : jsstring :=
  js "Chapter one of the report.\nIt has two lines on its first page.\nThe second page starts here,\nand ends with this line of the sample document.".
(* ================================================================= *)
(** * Heading classification *)

Lemma detectHeadingFrom_first :
  forall patterns i line k pattern m,
    nth_error patterns k = Some pattern ->
    exec pattern line = Some m ->
    (forall j p, j < k -> nth_error patterns j = Some p -> exec p line = None) ->
    MarkdownGenerator.detectHeadingFrom patterns i line = classified m (i + k).
Proof.
  induction patterns as [|p0 patterns IH]; intros i line k pattern m Hk Hm Hbefore.
  - destruct k; discriminate.
  - destruct k as [|k]; simpl in Hk.
    + injection Hk as ->. simpl. rewrite Hm, Nat.add_0_r. reflexivity.
    + simpl. rewrite (Hbefore 0 p0) by (simpl; auto with arith).
      rewrite (IH (S i) line k pattern m Hk Hm).
      * f_equal. lia.
      * intros j p Hj Hp. apply (Hbefore (S j) p); [lia | exact Hp].
Qed.

(** C10 (as amended).  The pattern table is evaluated in its order and the
    first pattern that matches decides: when the pattern of index [k]
    matches a line and no earlier one does, the heading is the one built
    from that match.  The line "1. INTRODUCTION" is matched by the
    numeric-prefix pattern, not by the all-caps pattern, and is a heading
    of level 2 with the text "INTRODUCTION". *)
Theorem heading_first_match_wins :
  (forall line k pattern m,
      nth_error MarkdownGenerator.headingPatterns k = Some pattern ->
      exec pattern line = Some m ->
      (forall j p, j < k ->
         nth_error MarkdownGenerator.headingPatterns j = Some p ->
         exec p line = None) ->
      MarkdownGenerator.detectHeading line = classified m k)
  /\ test numericPrefix (js "1. INTRODUCTION") = true
  /\ test allCaps (js "1. INTRODUCTION") = false
  /\ MarkdownGenerator.detectHeading (js "1. INTRODUCTION")
     = Returns (Some (MarkdownGenerator.Heading 2 (js "INTRODUCTION")
                        (js "## INTRODUCTION"))).
Proof.
  split; [|repeat split; vm_compute; reflexivity].
  intros line k pattern m Hk Hm Hbefore.
  unfold MarkdownGenerator.detectHeading.
  rewrite (detectHeadingFrom_first _ 0 line k pattern m Hk Hm Hbefore).
  reflexivity.
Qed.

(** The first-match rule at the line "1. INTRODUCTION": the roman-numeral
    pattern fails, the numeric-prefix pattern matches. *)
Lemma heading_first_match_wins_witness :
  exists m,
    exec numericPrefix (js "1. INTRODUCTION") = Some m
    /\ MarkdownGenerator.detectHeading (js "1. INTRODUCTION") = classified m 1.
Proof.
  destruct (exec numericPrefix (js "1. INTRODUCTION")) as [m|] eqn:E;
    [|vm_compute in E; discriminate].
  exists m. split; [reflexivity|].
  apply (proj1 heading_first_match_wins (js "1. INTRODUCTION") 1 numericPrefix m).
  - reflexivity.
  - exact E.
  - intros j p Hj Hp. destruct j as [|j]; [|lia].
    injection Hp as <-. vm_compute. reflexivity.
Defined.

(** C10, the claim as stated fails: the all-caps pattern does not match
    the line "1. INTRODUCTION". *)
Lemma all_caps_rejects_numbered_line :
  ~ (exec numericPrefix (js "1. INTRODUCTION") <> None
     /\ exec allCaps (js "1. INTRODUCTION") <> None).
Proof.
  intros [_ H]. apply H. vm_compute. reflexivity.
Qed.

(* ================================================================= *)
(** * Exceptions in the renderer *)

(** C1.  [generate] throws on a text whose only line is all capitals: the
    all-caps case of [determineHeadingLevel] reads a variable that is not
    in scope. *)
Theorem generate_throws_on_all_caps_line :
  forall now o,
    MarkdownGenerator.generate now (Some (js "HELLO WORLD")) o
    = Throws (ReferenceError "line").
Proof.
  intros now o. vm_compute. reflexivity.
Qed.

(** Where no text is present, both stages return their fixed text. *)
Lemma processText_without_text :
  forall e tc s,
    TextCorrector.processText e tc (TextCorrector.OcrString []) s
    = (TextCorrector.noTextFallback, tc).
Proof. reflexivity. Qed.

(* ================================================================= *)
(** * The end-to-end scenario *)

(** C2.  On the scenario of the specification the corrected text is one
    line, the document has the metadata block and one paragraph, no
    heading and no table of contents (also when [generate] is asked for
    one); and [generate] on the text as structure reconstruction leaves
    it throws. *)
Theorem scenario_has_no_heading :
  forall clock,
    fst (TextCorrector.processText plainEnv PDFProcessor.newCorrector
           (TextCorrector.OcrStructured
              (OCRWorker.combinePageResults clock [scenarioPage]))
           defaultSettings)
    = js "HELLO WORLD This is a test."
    /\ PDFProcessor.processURL plainEnv clock scenarioDate scenarioURL
         [scenarioPage] defaultSettings
       = Returns (MarkdownGenerator.generateMetadata scenarioDate scenarioURL
                  ++ js "**HELLO** **WORLD** This is a test.\n")
    /\ MarkdownGenerator.generate scenarioDate
         (Some (js "HELLO WORLD This is a test."))
         (MarkdownGenerator.Options scenarioURL true true true)
       = Returns (MarkdownGenerator.generateMetadata scenarioDate scenarioURL
                  ++ js "**HELLO** **WORLD** This is a test.\n")
    /\ MarkdownGenerator.tocHeadings
         (MarkdownGenerator.generateMetadata scenarioDate scenarioURL
          ++ js "**HELLO** **WORLD** This is a test.\n") = []
    /\ TextCorrector.correctAndRestore scenarioText = scenarioText
    /\ MarkdownGenerator.generate scenarioDate (Some scenarioText)
         (MarkdownGenerator.Options scenarioURL true true true)
       = Throws (ReferenceError "line").
Proof.
  intros clock. repeat split; vm_compute; reflexivity.
Qed.

(* ================================================================= *)
(** * Final cleanup of the markdown *)

(** C8.  A paragraph, two blank lines and a numbered heading: the
    document that [generate] returns has three blank lines in a row,
    because the newline that [finalCleanup] puts before a heading comes
    after the blank lines have been collapsed. *)
Theorem cleanup_leaves_three_blank_lines :
  forall now url,
    MarkdownGenerator.generate now (Some (js "a\n\n\n1. Intro"))
      (MarkdownGenerator.Options url false true false)
    = Returns (js "a\n\n\n\n## Intro\n")
    /\ MarkdownGenerator.finalCleanup (js "a\n\n\n## Intro")
       = js "a\n\n\n\n## Intro\n"
    /\ longestBlankRun (js "a\n\n\n\n## Intro\n") = 3.
Proof.
  intros now url. repeat split; vm_compute; reflexivity.
Qed.

(* ================================================================= *)
(** * Determinism of the rendering *)

(** C6 (as amended).  Without the metadata block the document does not
    depend on the clock: two runs on the same text and options, or on the
    same pages and settings, return the same string whatever the times at
    which they are made. *)
Theorem rendering_without_metadata_ignores_clock :
  (forall now1 now2 text url pf toc,
      MarkdownGenerator.generate now1 text (MarkdownGenerator.Options url false pf toc)
      = MarkdownGenerator.generate now2 text (MarkdownGenerator.Options url false pf toc))
  /\ (forall e clock1 clock2 now1 now2 url results dict sc ag,
        PDFProcessor.processURL e clock1 now1 url results
          (TextCorrector.Settings dict sc ag false)
        = PDFProcessor.processURL e clock2 now2 url results
            (TextCorrector.Settings dict sc ag false)).
Proof.
  split.
  - intros. reflexivity.
  - intros. unfold PDFProcessor.processURL. simpl TextCorrector.includeMetadata.
    reflexivity.
Qed.

(** C6, the claim as stated fails: with the metadata block (the default)
    two runs one second apart give two different documents. *)
Lemma rendering_depends_on_clock :
  MarkdownGenerator.generate (MarkdownGenerator.MkDate 2025 1 22 12 0 0 0)
    (Some (js "Some text")) MarkdownGenerator.defaultOptions
  <> MarkdownGenerator.generate (MarkdownGenerator.MkDate 2025 1 22 12 0 1 0)
       (Some (js "Some text")) MarkdownGenerator.defaultOptions.
Proof.
  vm_compute. intros H. discriminate H.
Qed.

(* ================================================================= *)
(** * Confidence statistics *)

Lemma Qltb_lt : forall x y, OCRWorker.Qltb x y = true <-> (x < y)%Q.
Proof.
  intros x y. unfold OCRWorker.Qltb. rewrite negb_true_iff.
  split.
  - intros H. apply Qnot_le_lt. intros Hle.
    apply Qle_bool_iff in Hle. congruence.
  - intros H. destruct (Qle_bool y x) eqn:E; [|reflexivity].
    apply Qle_bool_iff in E. exfalso. exact (Qlt_not_le _ _ H E).
Qed.

Lemma combine_low :
  forall results a,
    OCRWorker.a_low (fold_left OCRWorker.combineStep results a)
    = OCRWorker.a_low a ++ List.map lowEntry (filter isLowConfidence results).
Proof.
  induction results as [|p results IH]; intros a; simpl.
  - rewrite app_nil_r. reflexivity.
  - rewrite IH. unfold OCRWorker.combineStep, isLowConfidence.
    destruct (OCRWorker.hasText p); simpl; [|reflexivity].
    destruct (OCRWorker.Qltb (OCRWorker.confidenceOrZero p) 70); simpl.
    + rewrite <- app_assoc. reflexivity.
    + reflexivity.
Qed.

(** C9 (as amended).  [lowConfidencePages] lists, in page order, the pages
    that have text and whose confidence (0 when missing) is strictly
    below 70; a page without text is not listed whatever its confidence. *)
Theorem low_confidence_pages :
  forall now results,
    OCRWorker.lowConfidencePages (OCRWorker.meta (OCRWorker.combinePageResults now results))
    = List.map lowEntry (filter isLowConfidence results)
    /\ (forall e,
          In e (OCRWorker.lowConfidencePages
                  (OCRWorker.meta (OCRWorker.combinePageResults now results)))
          <-> exists p, In p results /\ e = lowEntry p
                        /\ OCRWorker.hasText p = true
                        /\ (OCRWorker.confidenceOrZero p < 70)%Q).
Proof.
  intros now results.
  assert (E : OCRWorker.lowConfidencePages
                (OCRWorker.meta (OCRWorker.combinePageResults now results))
              = List.map lowEntry (filter isLowConfidence results)).
  { unfold OCRWorker.combinePageResults. simpl. rewrite combine_low. reflexivity. }
  split; [exact E|].
  intros e. rewrite E, in_map_iff. split.
  - intros [p [He Hp]]. apply filter_In in Hp. destruct Hp as [Hin Hlow].
    unfold isLowConfidence in Hlow. apply andb_true_iff in Hlow.
    destruct Hlow as [Ht Hc]. apply Qltb_lt in Hc.
    exists p. repeat split; auto.
  - intros [p [Hin [He [Ht Hc]]]]. exists p. split; [auto|].
    apply filter_In. split; [exact Hin|].
    unfold isLowConfidence. rewrite Ht. simpl. apply Qltb_lt. exact Hc.
Qed.

(** C9, the claim as stated fails: a page without text and with
    confidence 0 is not listed. *)
Lemma low_confidence_without_text :
  ~ (forall now results p,
        In p results ->
        (In (lowEntry p)
            (OCRWorker.lowConfidencePages
               (OCRWorker.meta (OCRWorker.combinePageResults now results)))
         <-> (OCRWorker.confidenceOrZero p < 70)%Q)).
Proof.
  intros H.
  destruct (H 0%N [failedPage] failedPage (or_introl eq_refl)) as [_ H2].
  apply H2. reflexivity.
Qed.

(* ================================================================= *)
(** * The selection of a suggestion *)

Lemma chooseBestSuggestion_cautious :
  forall key top more,
    TextCorrector.chooseBestSuggestion key (top :: more) false
    = if (Natural.LevenshteinDistance (toLowerCase key) (toLowerCase top)
          <=? Nat.max 1 (3 * List.length key / 10))%nat
      then Some top else None.
Proof. reflexivity. Qed.


Lemma chooseBestSuggestion_in :
  forall key suggestions ag best,
    TextCorrector.chooseBestSuggestion key suggestions ag = Some best ->
    In best suggestions.
Proof.
  intros key [|top more] ag best H; simpl in H; [discriminate|].
  destruct (negb ag); [destruct (_ <=? _)%nat|]; try discriminate;
    injection H as <-; left; reflexivity.
Qed.






(* ================================================================= *)
(** * Structure reconstruction *)

Section Structure.
Import TextCorrector.

Lemma flush_app :
  forall P Q c, flush (Structure (P ++ Q) c) = P ++ flush (Structure Q c).
Proof.
  intros P Q [|x c]; unfold flush; simpl; [reflexivity | symmetry; apply app_assoc].
Qed.

(** The lines already emitted do not influence the loop. *)
Lemma structureStep_prefix :
  forall P Q c raw,
    structureStep (Structure (P ++ Q) c) raw
    = Structure (P ++ processedLines (structureStep (Structure Q c) raw))
                (currentParagraph (structureStep (Structure Q c) raw)).
Proof.
  intros P Q c raw. unfold structureStep.
  destruct (test pageMarker (trim raw)); [reflexivity|].
  destruct (negb (truthy (trim raw))).
  - simpl. rewrite flush_app, <- app_assoc. reflexivity.
  - simpl currentParagraph.
    destruct (shouldMergeWithPrevious (trim raw) c); simpl.
    + reflexivity.
    + rewrite flush_app. reflexivity.
Qed.

Lemma fold_structure_prefix :
  forall lines P Q c,
    fold_left structureStep lines (Structure (P ++ Q) c)
    = Structure
        (P ++ processedLines (fold_left structureStep lines (Structure Q c)))
        (currentParagraph (fold_left structureStep lines (Structure Q c))).
Proof.
  induction lines as [|raw lines IH]; intros P Q c; simpl.
  - reflexivity.
  - rewrite structureStep_prefix.
    destruct (structureStep (Structure Q c) raw) as [Q' c'] eqn:E. simpl.
    apply IH.
Qed.

Lemma looksLikeHeading_truthy :
  forall line, looksLikeHeading line = true -> truthy line = true.
Proof.
  intros [|c line]; [discriminate | reflexivity].
Qed.

(** A heading flushes the pending paragraph and opens a new one. *)
Lemma structureStep_heading :
  forall s raw,
    test pageMarker (trim raw) = false ->
    looksLikeHeading (trim raw) = true ->
    structureStep s raw = Structure (flush s) [trim raw].
Proof.
  intros s raw Hpage Hhead. unfold structureStep.
  rewrite Hpage, (looksLikeHeading_truthy _ Hhead). simpl.
  unfold shouldMergeWithPrevious. rewrite Hhead.
  destruct (currentParagraph s); reflexivity.
Qed.

(** The paragraph that a line has opened stays the first thing that the
    loop emits, and its text begins with that line. *)
Lemma first_line_kept :
  forall lines line c,
    exists more others,
      flush (fold_left structureStep lines (Structure [] (line :: c)))
      = (line ++ more) :: others.
Proof.
  assert (G : forall lines first P c,
             exists others,
               flush (fold_left structureStep lines (Structure (first :: P) c))
               = first :: others).
  { intros lines first P c.
    change (first :: P) with ([first] ++ P).
    rewrite fold_structure_prefix.
    destruct (fold_left structureStep lines (Structure P c)) as [P' c'].
    cbn [processedLines currentParagraph]. rewrite flush_app. simpl. eexists. reflexivity. }
  assert (J : forall line c, exists more, join (js " ") (line :: c) = line ++ more).
  { intros line [|x c]; simpl; [exists []; symmetry; apply app_nil_r | eexists; reflexivity]. }
  induction lines as [|raw lines IH]; intros line c.
  - unfold flush. simpl. destruct (J line c) as [more Hm].
    exists more, []. rewrite <- Hm. reflexivity.
  - simpl. unfold structureStep at 2.
    destruct (test pageMarker (trim raw)); [apply IH|].
    destruct (negb (truthy (trim raw))).
    + unfold flush at 2. simpl. destruct (J line c) as [more Hm].
      destruct (G lines (join (js " ") (line :: c)) [[]] []) as [others Ho].
      exists more, others. rewrite <- Hm. exact Ho.
    + simpl currentParagraph.
      destruct (shouldMergeWithPrevious (trim raw) (line :: c)).
      * simpl. apply IH.
      * unfold flush at 2. simpl. destruct (J line c) as [more Hm].
        destruct (G lines (join (js " ") (line :: c)) [] [trim raw]) as [others Ho].
        exists more, others. rewrite <- Hm. exact Ho.
Qed.

(** C4 (as amended).  A line that looks like a heading (and is not a page
    marker) is never merged into the pending paragraph: the paragraph is
    flushed before it and the heading opens a new logical line, so the
    logical lines of a text are those of the lines before the heading
    followed by those of the lines from the heading on, the first of
    which begins with the heading.  (The lines that follow may still be
    merged into it.) *)
Theorem heading_starts_logical_line :
  forall before raw after,
    test pageMarker (trim raw) = false ->
    looksLikeHeading (trim raw) = true ->
    restoreLines (before ++ raw :: after)
    = restoreLines before ++ restoreLines (raw :: after)
    /\ exists more others,
         restoreLines (raw :: after) = (trim raw ++ more) :: others.
Proof.
  intros before raw after Hpage Hhead. unfold restoreLines. split.
  - rewrite fold_left_app. simpl.
    rewrite !(structureStep_heading _ raw Hpage Hhead).
    rewrite <- (app_nil_r (flush (fold_left structureStep before (Structure [] [])))) at 1.
    rewrite fold_structure_prefix, flush_app.
    reflexivity.
  - simpl. rewrite (structureStep_heading _ raw Hpage Hhead).
    apply first_line_kept.
Qed.

(** A paragraph of two lines followed by a heading and a sentence. *)
Lemma heading_starts_logical_line_witness :
  restoreLines [js "Some text that"; js "goes on"; js "INTRODUCTION"; js "More text."]
  = restoreLines [js "Some text that"; js "goes on"]
    ++ restoreLines [js "INTRODUCTION"; js "More text."]
  /\ exists more others,
       restoreLines [js "INTRODUCTION"; js "More text."]
       = (trim (js "INTRODUCTION") ++ more) :: others.
Proof.
  apply (heading_starts_logical_line
           [js "Some text that"; js "goes on"] (js "INTRODUCTION") [js "More text."]);
    vm_compute; reflexivity.
Defined.

(** C4, the claim as stated fails: the line after a heading is joined to
    it. *)
Lemma heading_absorbs_next_line :
  looksLikeHeading (js "INTRODUCTION") = true
  /\ restoreLines [js "INTRODUCTION"; js "this continues"]
     = [js "INTRODUCTION this continues"]
  /\ restoreTextStructure (js "INTRODUCTION\nthis continues")
     = js "INTRODUCTION this continues".
Proof.
  repeat split; vm_compute; reflexivity.
Qed.

End Structure.

(* ================================================================= *)
(** * The matcher on a repeated class *)

Lemma oneChar_ext :
  forall p q st, (forall c, p c = q c) -> oneChar p st = oneChar q st.
Proof.
  intros p q [sn [|c t] cp] H; unfold oneChar; simpl; [reflexivity|].
  rewrite H. reflexivity.
Qed.

Lemma run_class :
  forall items st,
    run false (RSet false items) st
    = oneChar (fun c => existsb (fun it => citemMatch it c) items) st.
Proof.
  intros items st. simpl. apply oneChar_ext. intros c.
  unfold itemsMatch. simpl. rewrite orb_false_r. reflexivity.
Qed.

Lemma run_sp : forall st, run false sp st = oneChar isSpace st.
Proof.
  intros st. unfold sp. rewrite run_class. apply oneChar_ext.
  intros c. simpl. apply orb_false_r.
Qed.

Lemma oneChar_cons :
  forall p sn c t cp,
    oneChar p (MState sn (c :: t) cp)
    = if p c then [MState (c :: sn) t cp] else [].
Proof. reflexivity. Qed.

Lemma oneChar_nil : forall p sn cp, oneChar p (MState sn [] cp) = [].
Proof. reflexivity. Qed.

(** The first way in which a greedy repetition of a class matches: the
    longest run of the class, when it is long enough. *)
Lemma rep_class_head :
  forall step p,
    (forall st, step st = oneChar p st) ->
    forall fuel min st,
      prefixLen p (rest st) < fuel ->
      hd_error (rep fuel step min None st)
      = if (min <=? prefixLen p (rest st))%nat
        then Some (advanceN (prefixLen p (rest st)) st)
        else None.
Proof.
  intros step p Hstep.
  induction fuel as [|fuel IH]; intros min st Hfuel; [lia|].
  destruct st as [sn [|c t] cp].
  - simpl. rewrite Hstep, oneChar_nil. simpl. destruct min; reflexivity.
  - cbn [rep]. rewrite Hstep, oneChar_cons. simpl rest. simpl prefixLen.
    destruct (p c) eqn:Hc.
    + cbn [flat_map]. simpl rest. simpl option_map. simpl List.length.
      replace (List.length t =? S (List.length t))%nat with false
        by (symmetry; apply Nat.eqb_neq; lia).
      rewrite andb_false_r, !app_nil_r.
      simpl in Hfuel. rewrite Hc in Hfuel.
      specialize (IH (pred min) (MState (c :: sn) t cp)). simpl rest in IH.
      assert (Hf : prefixLen p t < fuel) by lia. specialize (IH Hf).
      destruct min as [|min].
      * simpl pred in *. simpl in IH.
        destruct (rep fuel step 0 None (MState (c :: sn) t cp)); [discriminate|].
        simpl in *. exact IH.
      * simpl pred in *. exact IH.
    + simpl. destruct min; reflexivity.
Qed.

Lemma advanceN_split :
  forall n sn s cp,
    n <= List.length s ->
    advanceN n (MState sn s cp) = MState (rev (firstn n s) ++ sn) (skipn n s) cp.
Proof.
  induction n as [|n IH]; intros sn s cp Hn; [reflexivity|].
  destruct s as [|c t]; [simpl in Hn; lia|].
  simpl advanceN. rewrite IH by (simpl in Hn; lia).
  simpl. rewrite <- app_assoc. reflexivity.
Qed.

Lemma prefixLen_le : forall p s, prefixLen p s <= List.length s.
Proof.
  induction s as [|c t IH]; simpl; [lia|]. destruct (p c); lia.
Qed.

Lemma prefixLen_all :
  forall p s, forallb p (firstn (prefixLen p s) s) = true.
Proof.
  induction s as [|c t IH]; simpl; [reflexivity|].
  destruct (p c) eqn:E; simpl; [rewrite E; exact IH | reflexivity].
Qed.

Lemma prefixLen_stop :
  forall p s, match skipn (prefixLen p s) s with
              | c :: _ => p c = false
              | [] => True
              end.
Proof.
  induction s as [|c t IH]; simpl; [exact I|].
  destruct (p c) eqn:E; simpl; [exact IH | exact E].
Qed.

(** [/\s{k,}/] at a position: the longest run of white space there, when
    it has [k] code units or more. *)
Lemma matchAt_spaces :
  forall k sn s,
    matchAt (RegExp (atLeast k sp) false) (MState sn s [])
    = let n := prefixLen isSpace s in
      if (k <=? n)%nat
      then Some (JsMatch (firstn n s) [] (rev sn) (skipn n s),
                 MState (rev (firstn n s) ++ sn) (skipn n s) [])
      else None.
Proof.
  intros k sn s. unfold matchAt, atLeast. cbn [source ignoreCase run].
  pose proof (rep_class_head (run false sp) isSpace run_sp
                (k + List.length s + 1) k (MState sn s [])) as H.
  simpl rest in H. pose proof (prefixLen_le isSpace s) as Hle.
  specialize (H ltac:(lia)).
  cbv zeta. destruct (k <=? prefixLen isSpace s)%nat.
  - destruct (rep _ _ _ _ _) as [|st' l]; [discriminate|].
    simpl in H. injection H as ->.
    rewrite advanceN_split by exact Hle.
    unfold mkMatch, consumed. simpl.
    rewrite length_skipn.
    replace (List.length s - (List.length s - prefixLen isSpace s))
      with (prefixLen isSpace s) by lia.
    reflexivity.
  - destruct (rep _ _ _ _ _) as [|st' l]; [reflexivity | discriminate].
Qed.

(* ================================================================= *)
(** * Spell checking flattens the text *)

Lemma splitFrom_whitespace :
  forall fuel sn cur s,
    List.length s < fuel ->
    noSpace cur ->
    Forall noSpace (splitFrom fuel whitespaceRun sn cur s).
Proof.
  induction fuel as [|fuel IH]; intros sn cur s Hfuel Hcur; [lia|].
  destruct s as [|c t]; simpl splitFrom.
  - constructor; [|constructor]. apply Forall_rev. exact Hcur.
  - unfold whitespaceRun, plus. fold (atLeast 1). rewrite matchAt_spaces.
    cbv zeta. simpl prefixLen. destruct (isSpace c) eqn:Hc.
    + simpl Nat.leb. cbv iota beta. simpl whole. simpl firstn. cbv iota.
      simpl Regex.seen. simpl Regex.rest.
      assert (Hgo : Forall noSpace
                      (rev cur :: splitFrom fuel (RegExp (atLeast 1 sp) false)
                         (rev (c :: firstn (prefixLen isSpace t) t) ++ sn) []
                         (skipn (prefixLen isSpace t) t))).
      { constructor; [apply Forall_rev; exact Hcur|].
        apply IH; [|constructor].
        rewrite length_skipn. simpl in Hfuel. lia. }
      destruct cur; exact Hgo.
    + simpl Nat.leb. cbv iota. apply IH; [simpl in Hfuel; lia|].
      constructor; assumption.
Qed.

(** The pieces between the runs of white space contain no white space. *)
Lemma split_whitespace :
  forall s, Forall noSpace (split whitespaceRun s).
Proof.
  intros [|c t]; unfold split.
  - unfold whitespaceRun, plus. fold (atLeast 1). rewrite matchAt_spaces.
    simpl. constructor; constructor.
  - apply splitFrom_whitespace; [simpl; lia | constructor].
Qed.

Lemma noSpace_noNewline : forall s, noSpace s -> noNewline s.
Proof.
  intros s H. unfold noNewline. eapply Forall_impl; [|exact H].
  intros c Hc E. subst c. discriminate Hc.
Qed.

Section Substitution.
Variable ok : char -> Prop.

Lemma captureAt_ok :
  forall captures n,
    Forall (fun o => match o with Some s => Forall ok s | None => True end) captures ->
    Forall ok (captureAt captures n).
Proof.
  intros captures [|n] H; unfold captureAt, jsstring, char in *; [constructor|].
  destruct (nth_error captures n) as [[s|]|] eqn:E; try constructor.
  apply nth_error_In in E. rewrite Forall_forall in H. exact (H _ E).
Qed.

(** What a replacement string expands to is made of its own code units,
    of those of the match and of the subject around it, and of those of
    the groups. *)
Lemma getSubstitution_ok :
  forall matched before after captures,
    Forall ok matched -> Forall ok before -> Forall ok after ->
    Forall (fun o => match o with Some s => Forall ok s | None => True end) captures ->
    forall replacement,
      Forall ok replacement ->
      Forall ok (getSubstitution matched before after captures replacement).
Proof.
  intros matched before after captures Hm Hb Ha Hc replacement.
  remember (List.length replacement) as n eqn:Hn.
  assert (Hle : List.length replacement <= n) by lia. clear Hn.
  revert replacement Hle.
  induction n as [|n IH]; intros [|c t] Hle Hr; try (simpl; constructor; fail).
  - simpl in Hle. lia.
  - assert (Hc0 : ok c) by (inversion Hr; assumption).
    assert (Ht : Forall ok t) by (inversion Hr; assumption).
    assert (Rt : Forall ok (getSubstitution matched before after captures t))
      by (apply IH; [simpl in Hle; lia | exact Ht]).
    simpl. destruct (negb (c =? 36)%N); [constructor; assumption|].
    destruct t as [|d t']; [constructor; [assumption | constructor]|].
    assert (Ht' : Forall ok t') by (inversion Ht; assumption).
    assert (Rt' : Forall ok (getSubstitution matched before after captures t'))
      by (apply IH; [simpl in Hle; lia | exact Ht']).
    destruct (d =? 36)%N eqn:E1.
    { apply N.eqb_eq in E1. subst d. constructor; [inversion Ht; assumption | exact Rt']. }
    destruct (d =? 38)%N; [apply Forall_app; split; assumption|].
    destruct (d =? 96)%N; [apply Forall_app; split; assumption|].
    destruct (d =? 39)%N; [apply Forall_app; split; assumption|].
    destruct (isDigit d); [|constructor; assumption].
    destruct t' as [|e t''].
    + destruct (_ && _)%bool; [apply captureAt_ok; exact Hc | constructor; assumption].
    + assert (Rt'' : Forall ok (getSubstitution matched before after captures t'')).
      { apply IH; [simpl in Hle; lia | inversion Ht'; assumption]. }
      destruct (_ && _ && _)%bool.
      * apply Forall_app; split; [apply captureAt_ok; exact Hc | exact Rt''].
      * destruct (_ && _)%bool.
        -- apply Forall_app; split; [apply captureAt_ok; exact Hc | exact Rt'].
        -- constructor; assumption.
Qed.

Lemma startsWith_app :
  forall p s, startsWith p s = true -> s = p ++ skipn (List.length p) s.
Proof.
  induction p as [|x p IH]; intros s H; [reflexivity|].
  destruct s as [|y s]; [discriminate|].
  simpl in H. apply andb_true_iff in H. destruct H as [Hxy H].
  apply N.eqb_eq in Hxy. subst y. simpl. f_equal. apply IH. exact H.
Qed.

Lemma findFirst_app :
  forall p s sn b a,
    findFirst p sn s = Some (b, a) -> rev sn ++ s = b ++ p ++ a.
Proof.
  induction s as [|c t IH]; intros sn b a H; simpl in H.
  - destruct (startsWith p []) eqn:E; [|discriminate].
    injection H as <- <-. f_equal. apply (startsWith_app _ _ E).
  - destruct (startsWith p (c :: t)) eqn:E.
    + injection H as <- <-. f_equal. apply (startsWith_app _ _ E).
    + apply IH in H. simpl in H. rewrite <- app_assoc in H. exact H.
Qed.

Lemma replaceString_ok :
  forall s p r, Forall ok s -> Forall ok r -> Forall ok (replaceString s p r).
Proof.
  intros s p r Hs Hr. unfold replaceString.
  destruct (findFirst p [] s) as [[b a]|] eqn:E; [|exact Hs].
  apply findFirst_app in E. simpl in E. rewrite E in Hs.
  apply Forall_app in Hs. destruct Hs as [Hb Hs].
  apply Forall_app in Hs. destruct Hs as [Hp Ha].
  apply Forall_app; split; [exact Hb|].
  apply Forall_app; split; [|exact Ha].
  apply getSubstitution_ok; auto.
Qed.

Lemma join_ok :
  forall sep l, Forall ok sep -> Forall (Forall ok) l -> Forall ok (join sep l).
Proof.
  intros sep l Hsep. induction l as [|x l IH]; intros H; simpl; [constructor|].
  inversion H as [|? ? Hx Hl]; subst.
  destruct l as [|y l]; [exact Hx|].
  apply Forall_app; split; [exact Hx|].
  apply Forall_app; split; [exact Hsep | apply IH; exact Hl].
Qed.

End Substitution.

Lemma correctWord_noNewline :
  forall o dict ag word,
    (forall w s, TextCorrector.correct o w = true ->
                 In s (TextCorrector.suggest o w) -> noNewline s) ->
    noNewline word ->
    noNewline (TextCorrector.correctWord o dict ag word).
Proof.
  intros o dict ag word Ho Hw. unfold TextCorrector.correctWord.
  destruct (_ <? 2)%nat; [exact Hw|].
  destruct (TextCorrector.has dict _); [exact Hw|].
  destruct (TextCorrector.correct o _) eqn:Ec; [|exact Hw].
  destruct (TextCorrector.suggest o _) as [|top more] eqn:Es; [exact Hw|].
  destruct (TextCorrector.chooseBestSuggestion _ (top :: more) ag) as [best|] eqn:Eb;
    [|exact Hw].
  destruct (truthy best); [|exact Hw].
  apply replaceString_ok; [exact Hw|].
  apply chooseBestSuggestion_in in Eb. rewrite <- Es in Eb.
  exact (Ho _ _ Ec Eb).
Qed.

Lemma performSpellCheck_noNewline :
  forall c dict text ag,
    (forall w s,
        TextCorrector.correct (TextCorrector.oracleOf c dict) w = true ->
        In s (TextCorrector.suggest (TextCorrector.oracleOf c dict) w) ->
        noNewline s) ->
    noNewline
      (TextCorrector.performSpellCheck (TextCorrector.Corrector (Some c) dict) text ag).
Proof.
  intros c dict text ag Ho. unfold TextCorrector.performSpellCheck. simpl.
  apply join_ok.
  - constructor; [discriminate | constructor].
  - apply Forall_map. eapply Forall_impl; [|apply split_whitespace].
    intros word Hword. apply correctWord_noNewline; [exact Ho|].
    apply noSpace_noNewline. exact Hword.
Qed.

Lemma fallback_suggestions_noNewline :
  forall dict w s,
    TextCorrector.correct (TextCorrector.oracleOf TextCorrector.Fallback dict) w = true ->
    In s (TextCorrector.suggest (TextCorrector.oracleOf TextCorrector.Fallback dict) w) ->
    noNewline s.
Proof.
  intros dict w s _ H. simpl in H. unfold TextCorrector.getSuggestions in H.
  match type of H with
  | In _ (firstn ?n ?l) =>
      assert (H' : In s l)
        by (rewrite <- (firstn_skipn n l); apply in_or_app; left; exact H)
  end.
  apply filter_In in H'. destruct H' as [H' _]. clear H. rename H' into H.
  assert (A : Forall noNewline TextCorrector.suggestionWords).
  { repeat constructor; discriminate. }
  rewrite Forall_forall in A. exact (A _ H).
Qed.

(* ================================================================= *)
(** * Flow normalization *)

Lemma rep_unfold_hit :
  forall fuel step min st st1,
    step st = [st1] ->
    List.length (rest st1) <> List.length (rest st) ->
    rep (S fuel) step min None st
    = rep fuel step (pred min) None st1
      ++ match min with O => [st] | S _ => [] end.
Proof.
  intros fuel step min st st1 Hs Hl. cbn [rep]. rewrite Hs. cbn [flat_map].
  rewrite (proj2 (Nat.eqb_neq _ _) Hl), andb_false_r, app_nil_r.
  destruct min; [reflexivity | rewrite app_nil_r; reflexivity].
Qed.

Lemma rep_unfold_miss :
  forall fuel step min st,
    step st = [] ->
    rep (S fuel) step min None st = match min with O => [st] | S _ => [] end.
Proof.
  intros fuel step min st Hs. cbn [rep]. rewrite Hs. destruct min; reflexivity.
Qed.

Lemma rev_seq_S :
  forall m len, rev (seq (S m) len) = List.map S (rev (seq m len)).
Proof.
  intros m len. rewrite <- seq_shift, map_rev. reflexivity.
Qed.

Lemma rev_seq_0 :
  forall len, rev (seq 0 (S len)) = List.map S (rev (seq 0 len)) ++ [0].
Proof.
  intros len. change (seq 0 (S len)) with (0 :: seq 1 len).
  cbn [rev]. rewrite rev_seq_S. reflexivity.
Qed.

(** All the ways in which a greedy repetition of a class matches: the
    runs of the class from the longest to the shortest allowed. *)
Lemma rep_class_all :
  forall step p,
    (forall st, step st = oneChar p st) ->
    forall fuel min st,
      prefixLen p (rest st) < fuel ->
      rep fuel step min None st
      = List.map (fun k => advanceN k st)
                 (rev (seq min (S (prefixLen p (rest st)) - min))).
Proof.
  intros step p Hstep.
  induction fuel as [|fuel IH]; intros min st Hfuel; [lia|].
  destruct st as [sn [|c t] cp].
  - rewrite rep_unfold_miss by (rewrite Hstep; reflexivity).
    simpl. destruct min; reflexivity.
  - cbn [rest prefixLen] in *. destruct (p c) eqn:Hc.
    + rewrite (rep_unfold_hit fuel step min _ (MState (c :: sn) t cp)).
      2: { rewrite Hstep, oneChar_cons, Hc. reflexivity. }
      2: { simpl. lia. }
      rewrite IH by (simpl; lia). cbn [rest].
      destruct min as [|min].
      * cbn [pred]. rewrite !Nat.sub_0_r, (rev_seq_0 (S (prefixLen p t))).
        rewrite map_app, map_map. reflexivity.
      * cbn [pred].
        replace (S (S (prefixLen p t)) - S min) with (S (prefixLen p t) - min) by lia.
        rewrite rev_seq_S, map_map, app_nil_r. reflexivity.
    + rewrite rep_unfold_miss by (rewrite Hstep, oneChar_cons, Hc; reflexivity).
      destruct min as [|min]; reflexivity.
Qed.

Lemma noDoubleSpace_tail :
  forall c s, noDoubleSpace (c :: s) = true -> noDoubleSpace s = true.
Proof.
  intros c s H. simpl in H. apply andb_true_iff in H. tauto.
Qed.

Lemma noDoubleSpace_prefixLen :
  forall s, noDoubleSpace s = true -> prefixLen isSpace s <= 1.
Proof.
  intros [|c [|d t]] H; simpl.
  - lia.
  - destruct (isSpace c); lia.
  - simpl in H. destruct (isSpace c), (isSpace d); simpl in *; try lia; discriminate.
Qed.

Lemma template_space :
  forall m, replacement (Template (js " ")) m = [32%N].
Proof. reflexivity. Qed.

(** The first replacement, [/\s{2,}/g] by one space. *)
Lemma collapse_from :
  forall fuel sn s,
    List.length s < fuel ->
    let out := replaceFrom fuel (RegExp (atLeast 2 sp) false) (Template (js " ")) sn s in
    noDoubleSpace out = true
    /\ (headIs isSpace s = false -> headIs isSpace out = false).
Proof.
  induction fuel as [|fuel IH]; intros sn s Hfuel; [lia|].
  cbv zeta. cbn [replaceFrom]. rewrite matchAt_spaces. cbv zeta.
  destruct (2 <=? prefixLen isSpace s)%nat eqn:Hn.
  - apply Nat.leb_le in Hn. simpl whole.
    destruct s as [|c t]; [simpl in Hn; lia|].
    simpl prefixLen in *. destruct (isSpace c) eqn:Hc; [|lia].
    simpl firstn. cbv iota. rewrite template_space.
    simpl Regex.seen. simpl Regex.rest.
    match goal with
    | |- context [replaceFrom fuel _ _ ?a ?b] => destruct (IH a b) as [I1 I2]
    end.
    { rewrite length_skipn. simpl in Hfuel. lia. }
    assert (Hstop : headIs isSpace (skipn (prefixLen isSpace t) t) = false).
    { pose proof (prefixLen_stop isSpace t) as S.
      destruct (skipn (prefixLen isSpace t) t); [reflexivity | exact S]. }
    split.
    + simpl. rewrite (I2 Hstop), I1. reflexivity.
    + simpl. rewrite Hc. discriminate.
  - apply Nat.leb_gt in Hn. destruct s as [|c t]; [split; reflexivity|].
    destruct (IH (c :: sn) t) as [I1 I2]; [simpl in Hfuel; lia|].
    split.
    + cbn [noDoubleSpace]. rewrite I1, andb_true_r.
      destruct (isSpace c) eqn:Hc; [|reflexivity].
      simpl in Hn. rewrite Hc in Hn.
      assert (Ht : headIs isSpace t = false).
      { destruct t as [|d t]; [reflexivity|]. simpl in *.
        destruct (isSpace d); [lia | reflexivity]. }
      rewrite (I2 Ht). reflexivity.
    + simpl. auto.
Qed.

Lemma collapseSpaces_noDoubleSpace :
  forall s, noDoubleSpace (TextCorrector.collapseSpaces s) = true.
Proof.
  intros s. unfold TextCorrector.collapseSpaces, replaceAll.
  apply (collapse_from (S (List.length s)) [] s). lia.
Qed.

(** Where a pattern has no match, [replace] changes nothing. *)
Lemma replaceFrom_noMatch :
  forall re r fuel sn s,
    List.length s < fuel -> noMatch re sn s -> replaceFrom fuel re r sn s = s.
Proof.
  induction fuel as [|fuel IH]; intros sn s Hfuel Hno; [lia|].
  destruct s as [|c t]; simpl in Hno; destruct Hno as [H0 Hno];
    cbn [replaceFrom]; rewrite H0; [reflexivity|].
  f_equal. apply IH; [simpl in Hfuel; lia | exact Hno].
Qed.

Lemma run_rep_sp :
  forall min st,
    run false (RRep min None sp) st
    = List.map (fun k => advanceN k st)
               (rev (seq min (S (prefixLen isSpace (rest st)) - min))).
Proof.
  intros min st. cbn [run].
  apply (rep_class_all _ _ run_sp).
  pose proof (prefixLen_le isSpace (rest st)). lia.
Qed.

Lemma run_plus_sp :
  forall sn s cp,
    noDoubleSpace s = true ->
    run false (plus sp) (MState sn s cp)
    = match s with
      | c :: t => if isSpace c then [MState (c :: sn) t cp] else []
      | [] => []
      end.
Proof.
  intros sn s cp HA. unfold plus. rewrite run_rep_sp. cbn [rest].
  pose proof (noDoubleSpace_prefixLen s HA) as Hn.
  destruct s as [|c t]; [reflexivity|].
  simpl in *. destruct (isSpace c); [|reflexivity].
  assert (prefixLen isSpace t = 0) as -> by lia. reflexivity.
Qed.

Lemma run_star_sp :
  forall sn s cp,
    noDoubleSpace s = true ->
    run false (star sp) (MState sn s cp)
    = match s with
      | c :: t => if isSpace c then [MState (c :: sn) t cp; MState sn s cp]
                  else [MState sn s cp]
      | [] => [MState sn s cp]
      end.
Proof.
  intros sn s cp HA. unfold star. rewrite run_rep_sp. cbn [rest].
  pose proof (noDoubleSpace_prefixLen s HA) as Hn.
  destruct s as [|c t]; [reflexivity|].
  simpl in *. destruct (isSpace c); [|reflexivity].
  assert (prefixLen isSpace t = 0) as -> by lia. reflexivity.
Qed.

Lemma consumed1 :
  forall sn c s cp sn' cp',
    consumed (MState sn (c :: s) cp) (MState sn' s cp') = [c].
Proof.
  intros. unfold consumed. cbn [rest List.length].
  replace (S (List.length s) - List.length s) with 1 by lia. reflexivity.
Qed.

Lemma consumed2 :
  forall sn c d s cp sn' cp',
    consumed (MState sn (c :: d :: s) cp) (MState sn' s cp') = [c; d].
Proof.
  intros. unfold consumed. cbn [rest List.length].
  replace (S (S (List.length s)) - List.length s) with 2 by lia. reflexivity.
Qed.

Lemma consumed3 :
  forall sn c d e s cp sn' cp',
    consumed (MState sn (c :: d :: e :: s) cp) (MState sn' s cp') = [c; d; e].
Proof.
  intros. unfold consumed. cbn [rest List.length].
  replace (S (S (S (List.length s))) - List.length s) with 3 by lia. reflexivity.
Qed.

Lemma run_group_class :
  forall i items sn s cp,
    run false (RGroup i (RSet false items)) (MState sn s cp)
    = match s with
      | c :: t =>
          if existsb (fun it => citemMatch it c) items
          then [MState (c :: sn) t ((i, [c]) :: cp)]
          else []
      | [] => []
      end.
Proof.
  intros i items sn s cp.
  change (run false (RGroup i (RSet false items)) (MState sn s cp))
    with (List.map (fun st' => setCap i (consumed (MState sn s cp) st') st')
                   (run false (RSet false items) (MState sn s cp))).
  rewrite run_class. destruct s as [|c t]; [reflexivity|].
  rewrite oneChar_cons. destruct (existsb _ items); [|reflexivity].
  cbn [List.map]. rewrite consumed1. reflexivity.
Qed.

(** The second pattern at a position of a text without double space. *)
Lemma matchAt_spacePunct :
  forall sn s,
    noDoubleSpace s = true ->
    matchAt TextCorrector.spacePunct (MState sn s [])
    = match s with
      | c1 :: c2 :: s2 =>
          if isSpace c1 && isPunct c2
          then Some (JsMatch [c1; c2] [Some [c2]] (rev sn) s2,
                     MState (c2 :: c1 :: sn) s2 [(1, [c2])])
          else None
      | _ => None
      end.
Proof.
  intros sn s HA. unfold matchAt, TextCorrector.spacePunct. cbn [source ignoreCase seqs].
  change (run false (RSeq (plus sp) (RGroup 1 (RSet false (oneOf ",.;:!?"))))
              (MState sn s []))
    with (flat_map (run false (RGroup 1 (RSet false (oneOf ",.;:!?"))))
                   (run false (plus sp) (MState sn s []))).
  rewrite run_plus_sp by exact HA.
  destruct s as [|c1 s1]; [reflexivity|].
  destruct (isSpace c1); [|destruct s1; reflexivity].
  cbn [flat_map]. rewrite app_nil_r.
  rewrite run_group_class.
  destruct s1 as [|c2 s2]; [reflexivity|].
  fold (isPunct c2). destruct (isPunct c2); [|reflexivity].
  unfold mkMatch. rewrite consumed2. reflexivity.
Qed.

(** The classes are disjoint. *)
Lemma isLowerAZ_range :
  forall c, isLowerAZ c = true -> (97 <= c <= 122)%N.
Proof.
  intros c H. unfold isLowerAZ in H. simpl in H. rewrite orb_false_r in H.
  unfold inRange in H. apply andb_true_iff in H. destruct H as [H1 H2].
  apply N.leb_le in H1, H2. lia.
Qed.

Lemma isPunct_cases :
  forall c, isPunct c = true -> In c [44; 46; 59; 58; 33; 63]%N.
Proof.
  intros c H. unfold isPunct in H. vm_compute oneOf in H.
  cbn [existsb citemMatch] in H.
  repeat (apply orb_true_iff in H; destruct H as [H|H];
          [apply N.eqb_eq in H; subst c; simpl; tauto|]).
  discriminate.
Qed.

Lemma isStop_cases :
  forall c, isStop c = true -> In c [46; 33; 63]%N.
Proof.
  intros c H. unfold isStop in H. vm_compute oneOf in H.
  cbn [existsb citemMatch] in H.
  repeat (apply orb_true_iff in H; destruct H as [H|H];
          [apply N.eqb_eq in H; subst c; simpl; tauto|]).
  discriminate.
Qed.

Ltac among H :=
  simpl in H;
  repeat (destruct H as [H|H]; [subst; try reflexivity; try discriminate|]);
  try contradiction.

Lemma isPunct_not_space : forall c, isPunct c = true -> isSpace c = false.
Proof. intros c H. apply isPunct_cases in H. among H. Qed.

Lemma isStop_not_space : forall c, isStop c = true -> isSpace c = false.
Proof. intros c H. apply isStop_cases in H. among H. Qed.

Lemma isStop_not_lower : forall c, isStop c = true -> isLowerAZ c = false.
Proof. intros c H. apply isStop_cases in H. among H. Qed.

Lemma isPunct_not_lower : forall c, isPunct c = true -> isLowerAZ c = false.
Proof. intros c H. apply isPunct_cases in H. among H. Qed.

Lemma isLowerAZ_not_space : forall c, isLowerAZ c = true -> isSpace c = false.
Proof.
  intros c H. apply isLowerAZ_range in H.
  unfold isSpace, inRange. simpl existsb.
  repeat (rewrite (proj2 (N.eqb_neq c _)) by lia). simpl.
  apply andb_false_iff. left. apply N.leb_gt. lia.
Qed.

Lemma isSpace_not_lower : forall c, isSpace c = true -> isLowerAZ c = false.
Proof.
  intros c H. destruct (isLowerAZ c) eqn:E; [|reflexivity].
  apply isLowerAZ_not_space in E. congruence.
Qed.

Lemma upper_of_lower :
  forall c, isLowerAZ c = true -> (65 <= upperChar c <= 90)%N.
Proof.
  intros c H. apply isLowerAZ_range in H. unfold upperChar, isLower, inRange.
  replace (97 <=? c)%N with true by (symmetry; apply N.leb_le; lia).
  replace (c <=? 122)%N with true by (symmetry; apply N.leb_le; lia).
  simpl. lia.
Qed.

Lemma upper_not_space : forall c, isLowerAZ c = true -> isSpace (upperChar c) = false.
Proof.
  intros c H. apply upper_of_lower in H.
  unfold isSpace, inRange. simpl existsb.
  repeat (rewrite (proj2 (N.eqb_neq (upperChar c) _)) by lia). simpl.
  apply andb_false_iff. left. apply N.leb_gt. lia.
Qed.

Lemma upper_not_lower : forall c, isLowerAZ c = true -> isLowerAZ (upperChar c) = false.
Proof.
  intros c H. apply upper_of_lower in H.
  unfold isLowerAZ. simpl. rewrite orb_false_r. unfold inRange.
  apply andb_false_iff. left. apply N.leb_gt. lia.
Qed.

Lemma upper_not_punct : forall c, isLowerAZ c = true -> isPunct (upperChar c) = false.
Proof.
  intros c H. apply upper_of_lower in H.
  destruct (isPunct (upperChar c)) eqn:E; [|reflexivity].
  apply isPunct_cases in E. simpl in E. lia.
Qed.

Lemma upper_not_stop : forall c, isLowerAZ c = true -> isStop (upperChar c) = false.
Proof.
  intros c H. apply upper_of_lower in H.
  destruct (isStop (upperChar c)) eqn:E; [|reflexivity].
  apply isStop_cases in E. simpl in E. lia.
Qed.

(** The third pattern at a position of a text without double space. *)
Lemma matchAt_stopLower :
  forall sn s,
    noDoubleSpace s = true ->
    matchAt TextCorrector.stopLower (MState sn s [])
    = match s with
      | c1 :: s1 =>
          if isStop c1 then
            match s1 with
            | c2 :: s2 =>
                if isLowerAZ c2
                then Some (JsMatch [c1; c2] [Some [c1]; Some [c2]] (rev sn) s2,
                           MState (c2 :: c1 :: sn) s2 [(2, [c2]); (1, [c1])])
                else if isSpace c2 then
                  match s2 with
                  | c3 :: s3 =>
                      if isLowerAZ c3
                      then Some (JsMatch [c1; c2; c3] [Some [c1]; Some [c3]] (rev sn) s3,
                                 MState (c3 :: c2 :: c1 :: sn) s3 [(2, [c3]); (1, [c1])])
                      else None
                  | [] => None
                  end
                else None
            | [] => None
            end
          else None
      | [] => None
      end.
Proof.
  intros sn s HA. unfold matchAt, TextCorrector.stopLower. cbn [source ignoreCase seqs].
  change (run false
            (RSeq (RGroup 1 (RSet false (oneOf ".!?")))
                  (RSeq (star sp) (RGroup 2 TextCorrector.lowerAZ)))
            (MState sn s []))
    with (flat_map
            (fun st1 => flat_map (run false (RGroup 2 TextCorrector.lowerAZ))
                                 (run false (star sp) st1))
            (run false (RGroup 1 (RSet false (oneOf ".!?"))) (MState sn s []))).
  rewrite run_group_class.
  destruct s as [|c1 s1]; [reflexivity|].
  fold (isStop c1). destruct (isStop c1); [|reflexivity].
  cbn [flat_map]. rewrite app_nil_r.
  apply noDoubleSpace_tail in HA.
  rewrite run_star_sp by exact HA.
  unfold TextCorrector.lowerAZ.
  destruct s1 as [|c2 s2].
  { cbn [flat_map]. rewrite run_group_class. reflexivity. }
  destruct (isSpace c2) eqn:Hs2.
  - rewrite (isSpace_not_lower c2 Hs2).
    cbn [flat_map]. rewrite !run_group_class.
    fold (isLowerAZ c2). rewrite (isSpace_not_lower c2 Hs2).
    rewrite !app_nil_r.
    destruct s2 as [|c3 s3]; [reflexivity|].
    fold (isLowerAZ c3). destruct (isLowerAZ c3); [|reflexivity].
    unfold mkMatch. rewrite consumed3. reflexivity.
  - cbn [flat_map]. rewrite run_group_class, app_nil_r.
    fold (isLowerAZ c2). destruct (isLowerAZ c2); [|reflexivity].
    unfold mkMatch. rewrite consumed2. reflexivity.
Qed.

(** The fourth pattern at a position of a text without double space. *)
Lemma matchAt_stopSpaceLower :
  forall sn s,
    noDoubleSpace s = true ->
    matchAt TextCorrector.stopSpaceLower (MState sn s [])
    = match s with
      | c1 :: c2 :: c3 :: s3 =>
          if isStop c1 && isSpace c2 && isLowerAZ c3
          then Some (JsMatch [c1; c2; c3] [Some [c1; c2]; Some [c3]] (rev sn) s3,
                     MState (c3 :: c2 :: c1 :: sn) s3 [(2, [c3]); (1, [c1; c2])])
          else None
      | _ => None
      end.
Proof.
  intros sn s HA. unfold matchAt, TextCorrector.stopSpaceLower. cbn [source ignoreCase seqs].
  change (run false
            (RSeq (RGroup 1 (RSeq (RSet false (oneOf ".!?")) (plus sp)))
                  (RGroup 2 TextCorrector.lowerAZ))
            (MState sn s []))
    with (flat_map (run false (RGroup 2 TextCorrector.lowerAZ))
            (List.map (fun st' => setCap 1 (consumed (MState sn s []) st') st')
               (flat_map (run false (plus sp))
                         (run false (RSet false (oneOf ".!?")) (MState sn s []))))).
  rewrite run_class. unfold TextCorrector.lowerAZ.
  destruct s as [|c1 s1]; [reflexivity|].
  rewrite oneChar_cons. fold (isStop c1).
  destruct (isStop c1); [|destruct s1 as [|? [|? ?]]; reflexivity].
  cbn [flat_map]. rewrite app_nil_r.
  apply noDoubleSpace_tail in HA. rewrite run_plus_sp by exact HA.
  destruct s1 as [|c2 s2]; [reflexivity|].
  destruct (isSpace c2); [|destruct s2; reflexivity].
  cbn [List.map flat_map]. rewrite consumed2, app_nil_r.
  unfold setCap. cbn [seen rest caps]. rewrite run_group_class.
  destruct s2 as [|c3 s3]; [reflexivity|].
  fold (isLowerAZ c3). destruct (isLowerAZ c3); [|reflexivity].
  unfold mkMatch. rewrite consumed3. reflexivity.
Qed.

Ltac side := first [assumption | reflexivity | simpl in *; lia].

(** The replacements after the first one, on a text without double space,
    are the three functions of the vocabulary. *)
Lemma spaceBeforePunctuation_from :
  forall fuel sn s,
    List.length s < fuel ->
    noDoubleSpace s = true ->
    replaceFrom fuel TextCorrector.spacePunct (Template (js "$1")) sn s = dropSpaceBeforePunct s.
Proof.
  induction fuel as [|fuel IH]; intros sn s Hfuel HA; [lia|].
  cbn [replaceFrom]. rewrite matchAt_spacePunct by exact HA.
  destruct s as [|c1 [|c2 s2]]; [reflexivity | |].
  - rewrite IH by side. reflexivity.
  - pose proof (noDoubleSpace_tail _ _ HA) as HA1.
    pose proof (noDoubleSpace_tail _ _ HA1) as HA2.
    cbn [dropSpaceBeforePunct]. destruct (isSpace c1 && isPunct c2).
    + cbn [whole Regex.seen Regex.rest].
      rewrite IH by side. reflexivity.
    + rewrite IH by side. reflexivity.
Qed.

Lemma spaceAfterSentence_from :
  forall fuel sn s,
    List.length s < fuel ->
    noDoubleSpace s = true ->
    replaceFrom fuel TextCorrector.stopLower (Template (js "$1 $2")) sn s = spaceAfterStop s.
Proof.
  induction fuel as [|fuel IH]; intros sn s Hfuel HA; [lia|].
  cbn [replaceFrom]. rewrite matchAt_stopLower by exact HA.
  destruct s as [|c1 s1]; [reflexivity|].
  pose proof (noDoubleSpace_tail _ _ HA) as HA1.
  cbn [spaceAfterStop]. destruct (isStop c1).
  - destruct s1 as [|c2 s2].
    + rewrite IH by side. reflexivity.
    + pose proof (noDoubleSpace_tail _ _ HA1) as HA2.
      destruct (isLowerAZ c2).
      * cbn [whole Regex.seen Regex.rest].
        rewrite IH by side. reflexivity.
      * destruct (isSpace c2).
        -- destruct s2 as [|c3 s3].
           ++ rewrite IH by side. reflexivity.
           ++ pose proof (noDoubleSpace_tail _ _ HA2) as HA3.
              destruct (isLowerAZ c3).
              ** cbn [whole Regex.seen Regex.rest].
                 rewrite IH by side. reflexivity.
              ** rewrite IH by side. reflexivity.
        -- rewrite IH by side. reflexivity.
  - rewrite IH by side. reflexivity.
Qed.

Lemma capitalizeSentences_from :
  forall fuel sn s,
    List.length s < fuel ->
    noDoubleSpace s = true ->
    replaceFrom fuel TextCorrector.stopSpaceLower
      (Callback (fun m => captureAt (groups m) 1 ++ toUpperCase (captureAt (groups m) 2)))
      sn s
    = capitalizeAfterStop s.
Proof.
  induction fuel as [|fuel IH]; intros sn s Hfuel HA; [lia|].
  cbn [replaceFrom]. rewrite matchAt_stopSpaceLower by exact HA.
  destruct s as [|c1 s1]; [reflexivity|].
  pose proof (noDoubleSpace_tail _ _ HA) as HA1.
  destruct s1 as [|c2 s2].
  { rewrite IH by side. reflexivity. }
  pose proof (noDoubleSpace_tail _ _ HA1) as HA2.
  destruct s2 as [|c3 s3].
  { rewrite IH by side. reflexivity. }
  pose proof (noDoubleSpace_tail _ _ HA2) as HA3.
  cbn [capitalizeAfterStop]. destruct (isStop c1 && isSpace c2 && isLowerAZ c3).
  - cbn [whole Regex.seen Regex.rest].
    rewrite IH by side. reflexivity.
  - rewrite IH by side. reflexivity.
Qed.

Ltac split_and :=
  repeat match goal with
         | H : (_ && _)%bool = true |- _ => apply andb_true_iff in H; destruct H
         | H : negb _ = true |- _ => apply negb_true_iff in H
         end.

(** Closes a goal made of boolean equations with the equations of the
    context. *)
Ltac by_facts :=
  split_and;
  repeat match goal with
         | H : _ = true |- _ => progress (rewrite H)
         | H : _ = false |- _ => progress (rewrite H)
         end;
  repeat match goal with
         | |- _ /\ _ => split
         end;
  try (vm_compute; reflexivity);
  simpl; rewrite ?andb_false_r, ?andb_true_r, ?orb_false_r; try reflexivity; auto.

Lemma dropSpaceBeforePunct_cons :
  forall c1 c2 s2,
    dropSpaceBeforePunct (c1 :: c2 :: s2)
    = if isSpace c1 && isPunct c2 then c2 :: dropSpaceBeforePunct s2
      else c1 :: dropSpaceBeforePunct (c2 :: s2).
Proof. reflexivity. Qed.

Lemma spaceAfterStop_cons :
  forall c1 s1,
    spaceAfterStop (c1 :: s1)
    = if isStop c1 then
        match s1 with
        | c2 :: s2 =>
            if isLowerAZ c2 then c1 :: 32%N :: c2 :: spaceAfterStop s2
            else if isSpace c2 then
              match s2 with
              | c3 :: s3 =>
                  if isLowerAZ c3 then c1 :: 32%N :: c3 :: spaceAfterStop s3
                  else c1 :: spaceAfterStop s1
              | [] => c1 :: spaceAfterStop s1
              end
            else c1 :: spaceAfterStop s1
        | [] => [c1]
        end
      else c1 :: spaceAfterStop s1.
Proof. reflexivity. Qed.

Lemma capitalizeAfterStop_cons :
  forall c1 s1,
    capitalizeAfterStop (c1 :: s1)
    = match s1 with
      | c2 :: c3 :: s3 =>
          if isStop c1 && isSpace c2 && isLowerAZ c3
          then c1 :: c2 :: upperChar c3 :: capitalizeAfterStop s3
          else c1 :: capitalizeAfterStop s1
      | _ => c1 :: capitalizeAfterStop s1
      end.
Proof. reflexivity. Qed.

Lemma dropSpaceBeforePunct_head :
  forall c t,
    isSpace c = false -> dropSpaceBeforePunct (c :: t) = c :: dropSpaceBeforePunct t.
Proof.
  intros c [|d t] H; simpl; [reflexivity|]. rewrite H. reflexivity.
Qed.

(** After the second replacement: no double space, no space before
    punctuation. *)
Lemma dropSpaceBeforePunct_ok :
  forall n s,
    List.length s <= n ->
    noDoubleSpace s = true ->
    noDoubleSpace (dropSpaceBeforePunct s) = true
    /\ noSpaceBeforePunct (dropSpaceBeforePunct s) = true.
Proof.
  induction n as [|n IH]; intros s Hn HA.
  - destruct s; [split; reflexivity | simpl in Hn; lia].
  - destruct s as [|c1 [|c2 s2]]; [split; reflexivity | |].
    + simpl. rewrite !andb_false_r. split; reflexivity.
    + pose proof (noDoubleSpace_tail _ _ HA) as HA1.
      pose proof (noDoubleSpace_tail _ _ HA1) as HA2.
      rewrite dropSpaceBeforePunct_cons.
      destruct (isSpace c1 && isPunct c2) eqn:Hm.
      * apply andb_true_iff in Hm. destruct Hm as [Hs1 Hp2].
        destruct (IH s2) as [I1 I2]; [simpl in *; lia | exact HA2 |].
        cbn [noDoubleSpace noSpaceBeforePunct].
        rewrite (isPunct_not_space _ Hp2), I1, I2. split; reflexivity.
      * destruct (IH (c2 :: s2)) as [I1 I2]; [simpl in *; lia | exact HA1 |].
        cbn [noDoubleSpace noSpaceBeforePunct]. rewrite I1, I2, !andb_true_r.
        destruct (isSpace c1) eqn:Hs1; [|split; reflexivity].
        simpl in Hm.
        assert (Hs2 : isSpace c2 = false).
        { simpl in HA. rewrite Hs1 in HA. simpl in HA.
          destruct (isSpace c2); [discriminate | reflexivity]. }
        rewrite (dropSpaceBeforePunct_head _ _ Hs2). simpl.
        rewrite Hs2, Hm. split; reflexivity.
Qed.

Lemma spaceAfterStop_head :
  forall p s, headIs p (spaceAfterStop s) = headIs p s.
Proof.
  intros p [|c1 [|c2 [|c3 s3]]]; simpl; try reflexivity;
    repeat match goal with
           | |- context [if ?b then _ else _] => destruct b
           end; reflexivity.
Qed.

Lemma spaceAfterStop_skip :
  forall c t, isStop c = false -> spaceAfterStop (c :: t) = c :: spaceAfterStop t.
Proof.
  intros c t H. rewrite spaceAfterStop_cons, H. reflexivity.
Qed.

(** After the third replacement: moreover no lower-case letter directly
    after [. ! ?]. *)
Lemma spaceAfterStop_ok :
  forall n s,
    List.length s <= n ->
    noDoubleSpace s = true ->
    noSpaceBeforePunct s = true ->
    noDoubleSpace (spaceAfterStop s) = true
    /\ noSpaceBeforePunct (spaceAfterStop s) = true
    /\ noStopLower (spaceAfterStop s) = true.
Proof.
  induction n as [|n IH]; intros s Hn HA HB.
  - destruct s; [repeat split; reflexivity | simpl in Hn; lia].
  - destruct s as [|c1 s1]; [repeat split; reflexivity|].
    assert (HA1 : noDoubleSpace s1 = true) by (apply (noDoubleSpace_tail _ _ HA)).
    assert (HB1 : noSpaceBeforePunct s1 = true)
      by (simpl in HB; apply andb_true_iff in HB; tauto).
    assert (Keep : noDoubleSpace (c1 :: spaceAfterStop s1) = true
                   /\ noSpaceBeforePunct (c1 :: spaceAfterStop s1) = true
                   /\ (isStop c1 && headIs isLowerAZ s1 = false ->
                       noStopLower (c1 :: spaceAfterStop s1) = true)).
    { destruct (IH s1) as [I1 [I2 I3]]; [simpl in *; lia | exact HA1 | exact HB1 |].
      cbn [noDoubleSpace noSpaceBeforePunct noStopLower].
      rewrite !spaceAfterStop_head, I1, I2, I3, !andb_true_r.
      simpl in HA, HB. split_and.
      match goal with
      | Ha : isSpace c1 && headIs isSpace s1 = false,
        Hb : isSpace c1 && headIs isPunct s1 = false |- _ => rewrite Ha, Hb
      end.
      split; [reflexivity | split; [reflexivity | intros E; rewrite E; reflexivity]]. }
    destruct Keep as [K1 [K2 K3]].
    assert (Keep : isStop c1 && headIs isLowerAZ s1 = false ->
                   noDoubleSpace (c1 :: spaceAfterStop s1) = true
                   /\ noSpaceBeforePunct (c1 :: spaceAfterStop s1) = true
                   /\ noStopLower (c1 :: spaceAfterStop s1) = true) by auto.
    clear K1 K2 K3.
    rewrite spaceAfterStop_cons. destruct (isStop c1) eqn:Hst; [|apply Keep; reflexivity].
    destruct s1 as [|c2 s2]; [apply Keep; reflexivity|].
    assert (HA2 : noDoubleSpace s2 = true) by (apply (noDoubleSpace_tail _ _ HA1)).
    assert (HB2 : noSpaceBeforePunct s2 = true)
      by (simpl in HB1; apply andb_true_iff in HB1; tauto).
    destruct (isLowerAZ c2) eqn:Hl2.
    + destruct (IH (c2 :: s2)) as [I1 [I2 I3]]; [simpl in *; lia | exact HA1 | exact HB1 |].
      pose proof (isStop_not_space _ Hst). pose proof (isLowerAZ_not_space _ Hl2).
      assert (isStop c2 = false)
        by (destruct (isStop c2) eqn:E; [apply isStop_not_lower in E; congruence | reflexivity]).
      assert (isPunct c2 = false)
        by (destruct (isPunct c2) eqn:E; [apply isPunct_not_lower in E; congruence | reflexivity]).
      rewrite (spaceAfterStop_skip c2 s2) in I1, I2, I3 by assumption.
      cbn [noDoubleSpace noSpaceBeforePunct noStopLower headIs] in I1, I2, I3 |- *.
      by_facts.
    + assert (Hno : true && headIs isLowerAZ (c2 :: s2) = false) by exact Hl2.
      destruct (isSpace c2) eqn:Hs2; [|apply Keep; exact Hno].
      destruct s2 as [|c3 s3]; [apply Keep; exact Hno|].
      destruct (isLowerAZ c3) eqn:Hl3; [|apply Keep; exact Hno].
      destruct (IH (c3 :: s3)) as [I1 [I2 I3]]; [simpl in *; lia | exact HA2 | exact HB2 |].
      pose proof (isStop_not_space _ Hst). pose proof (isLowerAZ_not_space _ Hl3).
      assert (isStop c3 = false)
        by (destruct (isStop c3) eqn:E; [apply isStop_not_lower in E; congruence | reflexivity]).
      assert (isPunct c3 = false)
        by (destruct (isPunct c3) eqn:E; [apply isPunct_not_lower in E; congruence | reflexivity]).
      rewrite (spaceAfterStop_skip c3 s3) in I1, I2, I3 by assumption.
      cbn [noDoubleSpace noSpaceBeforePunct noStopLower headIs] in I1, I2, I3 |- *.
      by_facts.
Qed.

Lemma capitalizeAfterStop_head :
  forall p s, headIs p (capitalizeAfterStop s) = headIs p s.
Proof.
  intros p [|c1 [|c2 [|c3 s3]]]; try reflexivity.
  rewrite capitalizeAfterStop_cons.
  destruct (isStop c1 && isSpace c2 && isLowerAZ c3); reflexivity.
Qed.

Lemma capitalizeAfterStop_skip :
  forall c t,
    isStop c = false -> capitalizeAfterStop (c :: t) = c :: capitalizeAfterStop t.
Proof.
  intros c [|c2 [|c3 s3]] H; try reflexivity.
  rewrite capitalizeAfterStop_cons, H. reflexivity.
Qed.

Lemma lowerFollows_capitalized :
  forall s,
    headIs isLowerAZ s = false ->
    match s with
    | c2 :: c3 :: _ => isSpace c2 && isLowerAZ c3 = false
    | _ => True
    end ->
    lowerFollows (capitalizeAfterStop s) = false.
Proof.
  intros [|c2 s2] Hl Hs; [reflexivity|].
  simpl in Hl. destruct (isSpace c2) eqn:Hs2.
  - assert (Hst : isStop c2 = false)
      by (destruct (isStop c2) eqn:E; [apply isStop_not_space in E; congruence | reflexivity]).
    rewrite (capitalizeAfterStop_skip _ _ Hst). unfold lowerFollows.
    cbn [headIs]. rewrite Hl, Hs2, capitalizeAfterStop_head.
    destruct s2 as [|c3 s3]; [reflexivity|]. simpl in *. exact Hs.
  - unfold lowerFollows. rewrite capitalizeAfterStop_head. cbn [headIs]. rewrite Hl.
    destruct s2 as [|c3 s3]; [simpl; rewrite Hs2; reflexivity|].
    rewrite capitalizeAfterStop_cons.
    destruct s3 as [|c4 s4]; [simpl; rewrite Hs2; reflexivity|].
    destruct (isStop c2 && isSpace c3 && isLowerAZ c4); simpl; rewrite Hs2; reflexivity.
Qed.

(** After the fourth replacement: no lower-case letter after [. ! ?],
    neither directly nor after a white-space code unit. *)
Lemma capitalizeAfterStop_ok :
  forall n s,
    List.length s <= n ->
    noDoubleSpace s = true ->
    noSpaceBeforePunct s = true ->
    noStopLower s = true ->
    noDoubleSpace (capitalizeAfterStop s) = true
    /\ noSpaceBeforePunct (capitalizeAfterStop s) = true
    /\ sentencesCapitalized (capitalizeAfterStop s) = true.
Proof.
  induction n as [|n IH]; intros s Hn HA HB HC.
  - destruct s; [repeat split; reflexivity | simpl in Hn; lia].
  - destruct s as [|c1 s1]; [repeat split; reflexivity|].
    assert (HA1 : noDoubleSpace s1 = true) by (apply (noDoubleSpace_tail _ _ HA)).
    assert (HB1 : noSpaceBeforePunct s1 = true)
      by (simpl in HB; apply andb_true_iff in HB; tauto).
    assert (HC1 : noStopLower s1 = true)
      by (simpl in HC; apply andb_true_iff in HC; tauto).
    assert (Keep : match s1 with
                   | c2 :: c3 :: _ => isStop c1 && isSpace c2 && isLowerAZ c3 = false
                   | _ => True
                   end ->
                   noDoubleSpace (c1 :: capitalizeAfterStop s1) = true
                   /\ noSpaceBeforePunct (c1 :: capitalizeAfterStop s1) = true
                   /\ sentencesCapitalized (c1 :: capitalizeAfterStop s1) = true).
    { intros Hno.
      destruct (IH s1) as [I1 [I2 I3]];
        [simpl in *; lia | exact HA1 | exact HB1 | exact HC1 |].
      cbn [noDoubleSpace noSpaceBeforePunct sentencesCapitalized].
      rewrite !capitalizeAfterStop_head, I1, I2, I3, !andb_true_r.
      cbn [noDoubleSpace noSpaceBeforePunct noStopLower] in HA, HB, HC. split_and.
      match goal with
      | Ha : isSpace c1 && headIs isSpace s1 = false,
        Hb : isSpace c1 && headIs isPunct s1 = false |- _ => rewrite Ha, Hb
      end.
      split; [reflexivity | split; [reflexivity|]].
      destruct (isStop c1) eqn:Hst; [|reflexivity].
      rewrite lowerFollows_capitalized; [reflexivity | |].
      - match goal with
        | Hc : true && headIs isLowerAZ s1 = false |- _ => exact Hc
        end.
      - destruct s1 as [|c2 [|c3 s3]]; try exact I. exact Hno. }
    rewrite capitalizeAfterStop_cons.
    destruct s1 as [|c2 s2]; [apply Keep; exact I|].
    destruct s2 as [|c3 s3]; [apply Keep; exact I|].
    destruct (isStop c1 && isSpace c2 && isLowerAZ c3) eqn:Hm; [|apply Keep; reflexivity].
    apply andb_true_iff in Hm. destruct Hm as [Hm Hl3].
    apply andb_true_iff in Hm. destruct Hm as [Hst Hs2].
    assert (HA3 : noDoubleSpace s3 = true)
      by (apply (noDoubleSpace_tail c3), (noDoubleSpace_tail c2); exact HA1).
    assert (HB3 : noSpaceBeforePunct s3 = true).
    { cbn [noSpaceBeforePunct] in HB1. split_and. assumption. }
    assert (HC3 : noStopLower s3 = true).
    { cbn [noStopLower] in HC1. split_and. assumption. }
    destruct (IH s3) as [I1 [I2 I3]];
      [simpl in *; lia | exact HA3 | exact HB3 | exact HC3 |].
    pose proof (isStop_not_space _ Hst).
    pose proof (isSpace_not_lower _ Hs2).
    pose proof (upper_not_space _ Hl3). pose proof (upper_not_lower _ Hl3).
    pose proof (upper_not_punct _ Hl3). pose proof (upper_not_stop _ Hl3).
    assert (isStop c2 = false)
      by (destruct (isStop c2) eqn:E; [apply isStop_not_space in E; congruence | reflexivity]).
    cbn [noDoubleSpace noSpaceBeforePunct sentencesCapitalized headIs].
    unfold lowerFollows. cbn [headIs].
    by_facts.
Qed.

(** A text with the three properties has no match of any of the four
    patterns. *)
Lemma noMatch_spaces :
  forall s sn,
    noDoubleSpace s = true -> noMatch (RegExp (atLeast 2 sp) false) sn s.
Proof.
  induction s as [|c t IH]; intros sn HA.
  - split; [reflexivity | exact I].
  - split; [|apply IH; exact (noDoubleSpace_tail _ _ HA)].
    rewrite matchAt_spaces. cbv zeta.
    pose proof (noDoubleSpace_prefixLen _ HA) as Hn.
    destruct (2 <=? prefixLen isSpace (c :: t))%nat eqn:E; [|reflexivity].
    apply Nat.leb_le in E. lia.
Qed.

Lemma noMatch_spacePunct :
  forall s sn,
    noDoubleSpace s = true -> noSpaceBeforePunct s = true ->
    noMatch TextCorrector.spacePunct sn s.
Proof.
  induction s as [|c1 s1 IH]; intros sn HA HB.
  - split; [reflexivity | exact I].
  - cbn [noSpaceBeforePunct] in HB. apply andb_true_iff in HB. destruct HB as [HB HB1].
    split; [|apply IH; [exact (noDoubleSpace_tail _ _ HA) | exact HB1]].
    rewrite matchAt_spacePunct by exact HA.
    destruct s1 as [|c2 s2]; [reflexivity|].
    cbn [headIs] in HB. apply negb_true_iff in HB. rewrite HB. reflexivity.
Qed.

Lemma noMatch_stopLower :
  forall s sn,
    noDoubleSpace s = true -> sentencesCapitalized s = true ->
    noMatch TextCorrector.stopLower sn s.
Proof.
  induction s as [|c1 s1 IH]; intros sn HA HC.
  - split; [reflexivity | exact I].
  - cbn [sentencesCapitalized] in HC. apply andb_true_iff in HC. destruct HC as [HC HC1].
    split; [|apply IH; [exact (noDoubleSpace_tail _ _ HA) | exact HC1]].
    rewrite matchAt_stopLower by exact HA.
    destruct (isStop c1); [|reflexivity].
    destruct s1 as [|c2 s2]; [reflexivity|].
    apply negb_true_iff in HC. unfold lowerFollows in HC. cbn [headIs andb] in HC.
    apply orb_false_iff in HC. destruct HC as [Hl2 Hs].
    rewrite Hl2. destruct (isSpace c2); [|reflexivity].
    destruct s2 as [|c3 s3]; [reflexivity|].
    simpl in Hs. rewrite Hs. reflexivity.
Qed.

Lemma noMatch_stopSpaceLower :
  forall s sn,
    noDoubleSpace s = true -> sentencesCapitalized s = true ->
    noMatch TextCorrector.stopSpaceLower sn s.
Proof.
  induction s as [|c1 s1 IH]; intros sn HA HC.
  - split; [reflexivity | exact I].
  - cbn [sentencesCapitalized] in HC. apply andb_true_iff in HC. destruct HC as [HC HC1].
    split; [|apply IH; [exact (noDoubleSpace_tail _ _ HA) | exact HC1]].
    rewrite matchAt_stopSpaceLower by exact HA.
    destruct s1 as [|c2 [|c3 s3]]; try reflexivity.
    apply negb_true_iff in HC. unfold lowerFollows in HC. cbn [headIs] in HC.
    destruct (isStop c1); [|reflexivity].
    cbn [andb] in HC. apply orb_false_iff in HC. destruct HC as [_ Hs].
    cbn [andb]. rewrite Hs. reflexivity.
Qed.

(** The text that the four replacements return has the three
    properties. *)
Lemma normalizeFlow_ok :
  forall s,
    noDoubleSpace (normalizeFlow s) = true
    /\ noSpaceBeforePunct (normalizeFlow s) = true
    /\ sentencesCapitalized (normalizeFlow s) = true.
Proof.
  intros s. unfold normalizeFlow.
  pose proof (collapseSpaces_noDoubleSpace s) as A1.
  set (s1 := TextCorrector.collapseSpaces s) in *.
  assert (E2 : TextCorrector.spaceBeforePunctuation s1 = dropSpaceBeforePunct s1).
  { apply (spaceBeforePunctuation_from (S (List.length s1)) [] s1); [lia | exact A1]. }
  rewrite E2.
  destruct (dropSpaceBeforePunct_ok (List.length s1) s1 (le_n _) A1) as [A2 B2].
  set (s2 := dropSpaceBeforePunct s1) in *.
  assert (E3 : TextCorrector.spaceAfterSentence s2 = spaceAfterStop s2).
  { apply (spaceAfterSentence_from (S (List.length s2)) [] s2); [lia | exact A2]. }
  rewrite E3.
  destruct (spaceAfterStop_ok (List.length s2) s2 (le_n _) A2 B2) as [A3 [B3 C3]].
  set (s3 := spaceAfterStop s2) in *.
  assert (E4 : TextCorrector.capitalizeSentences s3 = capitalizeAfterStop s3).
  { apply (capitalizeSentences_from (S (List.length s3)) [] s3); [lia | exact A3]. }
  rewrite E4.
  exact (capitalizeAfterStop_ok (List.length s3) s3 (le_n _) A3 B3 C3).
Qed.

Lemma normalizeFlow_fixed :
  forall s,
    noDoubleSpace s = true ->
    noSpaceBeforePunct s = true ->
    sentencesCapitalized s = true ->
    normalizeFlow s = s.
Proof.
  intros s HA HB HC. unfold normalizeFlow.
  assert (E1 : TextCorrector.collapseSpaces s = s).
  { apply replaceFrom_noMatch; [lia | apply noMatch_spaces; exact HA]. }
  rewrite E1.
  assert (E2 : TextCorrector.spaceBeforePunctuation s = s).
  { apply replaceFrom_noMatch; [lia | apply noMatch_spacePunct; assumption]. }
  rewrite E2.
  assert (E3 : TextCorrector.spaceAfterSentence s = s).
  { apply replaceFrom_noMatch; [lia | apply noMatch_stopLower; assumption]. }
  rewrite E3.
  apply replaceFrom_noMatch; [lia | apply noMatch_stopSpaceLower; assumption].
Qed.

Lemma normalizeFlow_idempotent :
  forall s, normalizeFlow (normalizeFlow s) = normalizeFlow s.
Proof.
  intros s. destruct (normalizeFlow_ok s) as [HA [HB HC]].
  apply normalizeFlow_fixed; assumption.
Qed.

(* ================================================================= *)
(** * The corrected text is one line when spell checking is on *)

Lemma Forall_dropWhile :
  forall (ok : char -> Prop) p s, Forall ok s -> Forall ok (dropWhile p s).
Proof.
  intros ok p s H. induction H as [|c t Hc Ht IH]; simpl; [constructor|].
  destruct (p c); [exact IH | constructor; assumption].
Qed.

Lemma trim_ok :
  forall (ok : char -> Prop) s, Forall ok s -> Forall ok (trim s).
Proof.
  intros ok s H. unfold trim, trimEnd, trimStart.
  apply Forall_rev, Forall_dropWhile, Forall_rev, Forall_dropWhile. exact H.
Qed.

Lemma Forall_skipn_ok :
  forall (ok : char -> Prop) n s, Forall ok s -> Forall ok (skipn n s).
Proof.
  intros ok n. induction n as [|n IH]; intros s H; [exact H|].
  destruct s as [|c t]; [constructor|]. simpl. apply IH.
  inversion H; assumption.
Qed.

Lemma collapse_noNewline :
  forall fuel sn s,
    noNewline s ->
    noNewline (replaceFrom fuel (RegExp (atLeast 2 sp) false) (Template (js " ")) sn s).
Proof.
  induction fuel as [|fuel IH]; intros sn s H; [exact H|].
  cbn [replaceFrom]. rewrite matchAt_spaces. cbv zeta.
  destruct (2 <=? prefixLen isSpace s)%nat eqn:Hn.
  - apply Nat.leb_le in Hn. simpl whole.
    destruct s as [|c t]; [simpl in Hn; lia|].
    simpl prefixLen in *. destruct (isSpace c); [|lia].
    simpl firstn. cbv iota. rewrite template_space.
    constructor; [discriminate|]. apply IH. simpl Regex.rest.
    apply Forall_skipn_ok. inversion H; assumption.
  - destruct s as [|c t]; [constructor|].
    inversion H; subst. constructor; [assumption | apply IH; assumption].
Qed.

Lemma dropSpaceBeforePunct_noNewline :
  forall n s, List.length s <= n -> noNewline s -> noNewline (dropSpaceBeforePunct s).
Proof.
  induction n as [|n IH]; intros s Hn H.
  - destruct s; [constructor | simpl in Hn; lia].
  - destruct s as [|c1 [|c2 s2]]; [constructor | exact H |].
    rewrite dropSpaceBeforePunct_cons.
    inversion H as [|? ? H1 H']; subst. inversion H' as [|? ? H2 H'']; subst.
    destruct (isSpace c1 && isPunct c2).
    + constructor; [exact H2 | apply IH; [simpl in *; lia | exact H'']].
    + constructor; [exact H1 | apply IH; [simpl in *; lia | exact H']].
Qed.

Lemma spaceAfterStop_noNewline :
  forall n s, List.length s <= n -> noNewline s -> noNewline (spaceAfterStop s).
Proof.
  induction n as [|n IH]; intros s Hn H.
  - destruct s; [constructor | simpl in Hn; lia].
  - destruct s as [|c1 s1]; [constructor|].
    inversion H as [|? ? H1 H']; subst.
    assert (K : noNewline (c1 :: spaceAfterStop s1))
      by (constructor; [exact H1 | apply IH; [simpl in *; lia | exact H']]).
    rewrite spaceAfterStop_cons. destruct (isStop c1); [|exact K].
    destruct s1 as [|c2 s2]; [exact H|].
    inversion H' as [|? ? H2 H'']; subst.
    destruct (isLowerAZ c2).
    + repeat constructor; try assumption; try discriminate.
      apply IH; [simpl in *; lia | exact H''].
    + destruct (isSpace c2); [|exact K].
      destruct s2 as [|c3 s3]; [exact K|].
      inversion H'' as [|? ? H3 H''']; subst.
      destruct (isLowerAZ c3); [|exact K].
      repeat constructor; try assumption; try discriminate.
      apply IH; [simpl in *; lia | exact H'''].
Qed.

Lemma capitalizeAfterStop_noNewline :
  forall n s, List.length s <= n -> noNewline s -> noNewline (capitalizeAfterStop s).
Proof.
  induction n as [|n IH]; intros s Hn H.
  - destruct s; [constructor | simpl in Hn; lia].
  - destruct s as [|c1 s1]; [constructor|].
    inversion H as [|? ? H1 H']; subst.
    assert (K : noNewline (c1 :: capitalizeAfterStop s1))
      by (constructor; [exact H1 | apply IH; [simpl in *; lia | exact H']]).
    rewrite capitalizeAfterStop_cons.
    destruct s1 as [|c2 [|c3 s3]]; try exact K.
    destruct (isStop c1 && isSpace c2 && isLowerAZ c3) eqn:E; [|exact K].
    apply andb_true_iff in E. destruct E as [_ Hl3].
    inversion H' as [|? ? H2 H'']; subst. inversion H'' as [|? ? H3 H''']; subst.
    constructor; [exact H1|]. constructor; [exact H2|].
    constructor; [|apply IH; [simpl in *; lia | exact H''']].
    apply upper_of_lower in Hl3. intros C. unfold LF in C. lia.
Qed.

(** The four replacements as the functions of the vocabulary. *)
Lemma normalizeFlow_spec :
  forall s,
    normalizeFlow s
    = capitalizeAfterStop
        (spaceAfterStop (dropSpaceBeforePunct (TextCorrector.collapseSpaces s))).
Proof.
  intros s. unfold normalizeFlow.
  pose proof (collapseSpaces_noDoubleSpace s) as A1.
  set (s1 := TextCorrector.collapseSpaces s) in *.
  assert (E2 : TextCorrector.spaceBeforePunctuation s1 = dropSpaceBeforePunct s1).
  { apply (spaceBeforePunctuation_from (S (List.length s1)) [] s1); [lia | exact A1]. }
  rewrite E2.
  destruct (dropSpaceBeforePunct_ok (List.length s1) s1 (le_n _) A1) as [A2 B2].
  set (s2 := dropSpaceBeforePunct s1) in *.
  assert (E3 : TextCorrector.spaceAfterSentence s2 = spaceAfterStop s2).
  { apply (spaceAfterSentence_from (S (List.length s2)) [] s2); [lia | exact A2]. }
  rewrite E3.
  destruct (spaceAfterStop_ok (List.length s2) s2 (le_n _) A2 B2) as [A3 _].
  apply (capitalizeSentences_from (S (List.length (spaceAfterStop s2))) []);
    [lia | exact A3].
Qed.

Lemma improveTextFlow_noNewline :
  forall e s,
    (forall t r, TextCorrector.nlpText e t = Some r -> noNewline t -> noNewline r) ->
    noNewline s ->
    noNewline (TextCorrector.improveTextFlow e s).
Proof.
  intros e s Hnlp H. unfold TextCorrector.improveTextFlow.
  destruct (TextCorrector.nlpText e s) as [r|] eqn:E; [|exact H].
  change (noNewline (normalizeFlow r)). rewrite normalizeFlow_spec.
  apply (capitalizeAfterStop_noNewline _ _ (le_n _)).
  apply (spaceAfterStop_noNewline _ _ (le_n _)).
  apply (dropSpaceBeforePunct_noNewline _ _ (le_n _)).
  apply collapse_noNewline. exact (Hnlp _ _ E H).
Qed.

Lemma noMatch_newlines :
  forall s sn,
    noNewline s -> noMatch (RegExp (atLeast 3 (RChr LF)) false) sn s.
Proof.
  assert (P0 : forall s, noNewline s -> prefixLen (chrMatch false LF) s = 0).
  { intros [|c t] H; [reflexivity|]. inversion H; subst.
    cbn [prefixLen chrMatch].
    destruct (LF =? c)%N eqn:E; [|reflexivity].
    apply N.eqb_eq in E. congruence. }
  induction s as [|c t IH]; intros sn H.
  - split; [reflexivity | exact I].
  - split; [|apply IH; inversion H; assumption].
    unfold matchAt, atLeast. cbn [source ignoreCase run].
    pose proof (rep_class_head (run false (RChr LF)) (chrMatch false LF)
                  (fun st => eq_refl) (3 + List.length (c :: t) + 1) 3
                  (MState sn (c :: t) [])) as Hh.
    cbn [rest] in Hh. rewrite (P0 _ H) in Hh. specialize (Hh ltac:(lia)).
    simpl Nat.leb in Hh.
    destruct (rep _ _ _ _ _) as [|st' l]; [reflexivity | discriminate].
Qed.

Lemma splitChar_noNewline :
  forall s, noNewline s -> splitChar LF s = [s].
Proof.
  induction s as [|c t IH]; intros H; [reflexivity|].
  inversion H as [|? ? Hc Ht]; subst. simpl.
  destruct (c =? LF)%N eqn:E; [apply N.eqb_eq in E; congruence|].
  rewrite (IH Ht). reflexivity.
Qed.

Lemma finalCleanup_noNewline :
  forall s, noNewline s -> noNewline (TextCorrector.finalCleanup s).
Proof.
  intros s H. unfold TextCorrector.finalCleanup.
  assert (E : replaceAll (RegExp (atLeast 3 (RChr 10%N)) false) (Template (js "\n\n")) s = s).
  { apply replaceFrom_noMatch; [lia | apply (noMatch_newlines s [] H)]. }
  rewrite E. change 10%N with LF. rewrite (splitChar_noNewline s H).
  simpl. apply trim_ok, trim_ok. exact H.
Qed.

Lemma filter_prefixLen :
  forall s,
    filter (fun c => negb (isSpace c)) (skipn (prefixLen isSpace s) s)
    = filter (fun c => negb (isSpace c)) s.
Proof.
  induction s as [|c t IH]; [reflexivity|].
  simpl prefixLen. destruct (isSpace c) eqn:Hc.
  - simpl. rewrite Hc. exact IH.
  - reflexivity.
Qed.

(** The pieces of [split(/\s+/)], put end to end, are the text without
    its white space; joined by single spaces, they are the text with
    every run of white space replaced by one space. *)
Lemma splitFrom_pieces :
  forall fuel fuel' sn sn' cur s,
    List.length s < fuel ->
    List.length s < fuel' ->
    let pieces := splitFrom fuel whitespaceRun sn cur s in
    pieces <> []
    /\ List.concat pieces = rev cur ++ filter (fun c => negb (isSpace c)) s
    /\ join (js " ") pieces
       = rev cur ++ replaceFrom fuel' whitespaceRun (Template (js " ")) sn' s.
Proof.
  induction fuel as [|fuel IH]; intros fuel' sn sn' cur s Hfuel Hfuel'; [lia|].
  destruct fuel' as [|fuel']; [lia|].
  cbv zeta. destruct s as [|c t]; cbn [splitFrom replaceFrom].
  - unfold whitespaceRun, plus. fold (atLeast 1). rewrite matchAt_spaces.
    simpl. rewrite !app_nil_r. repeat split. discriminate.
  - unfold whitespaceRun, plus. fold (atLeast 1). rewrite !matchAt_spaces.
    cbv zeta. simpl prefixLen. destruct (isSpace c) eqn:Hc.
    + simpl Nat.leb. cbv iota beta. simpl whole. simpl firstn. cbv iota.
      simpl Regex.seen. simpl Regex.rest.
      fold (atLeast 1). 
      match goal with
      | |- context [splitFrom fuel ?re ?a [] ?b] =>
          set (sa := a); set (sb := b)
      end.
      match goal with
      | |- context [replaceFrom fuel' ?re ?r ?a' sb] => set (sa' := a')
      end.
      destruct (IH fuel' sa sa' [] sb) as [I0 [I1 I2]].
      { subst sb. rewrite length_skipn. simpl in Hfuel. lia. }
      { subst sb. rewrite length_skipn. simpl in Hfuel'. lia. }
      unfold whitespaceRun, plus in I0, I1, I2. fold (atLeast 1) in I0, I1, I2.
      assert (Hf : filter (fun c => negb (isSpace c)) (c :: t)
                   = filter (fun c => negb (isSpace c)) sb).
      { cbn [filter]. rewrite Hc. simpl negb. cbv iota. subst sb.
        symmetry. apply filter_prefixLen. }
      rewrite Hf. rewrite template_space.
      clearbody sa sa' sb.
      assert (Hgo : forall pieces,
                 pieces = rev cur :: splitFrom fuel (RegExp (atLeast 1 sp) false) sa [] sb ->
                 pieces <> []
                 /\ List.concat pieces
                    = rev cur ++ filter (fun c => negb (isSpace c)) sb
                 /\ join (js " ") pieces
                    = rev cur ++ [32%N]
                      ++ replaceFrom fuel' (RegExp (atLeast 1 sp) false) (Template (js " "))
                           sa' sb).
      { intros pieces ->. split; [discriminate|]. split.
        - cbn [List.concat]. rewrite I1. reflexivity.
        - destruct (splitFrom fuel _ _ [] _) as [|p ps] eqn:E; [contradiction I0; reflexivity|].
          cbn [join]. simpl rev in I2. simpl app in I2. rewrite <- I2.
          reflexivity. }
      destruct cur; apply Hgo; reflexivity.
    + simpl Nat.leb. cbv iota.
      destruct (IH fuel' (c :: sn) (c :: sn') (c :: cur) t) as [I0 [I1 I2]];
        [simpl in Hfuel; lia | simpl in Hfuel'; lia |].
      unfold whitespaceRun, plus in I0, I1, I2. fold (atLeast 1) in I0, I1, I2.
      split; [exact I0|]. split.
      * rewrite I1. cbn [filter]. rewrite Hc. simpl. rewrite <- app_assoc. reflexivity.
      * rewrite I2. simpl. rewrite <- app_assoc. reflexivity.
Qed.

Lemma split_pieces :
  forall s,
    List.concat (split whitespaceRun s) = filter (fun c => negb (isSpace c)) s
    /\ join (js " ") (split whitespaceRun s)
       = replaceAll whitespaceRun (Template (js " ")) s.
Proof.
  intros [|c t].
  - unfold split, replaceAll. cbn [replaceFrom List.length].
    unfold whitespaceRun, plus. fold (atLeast 1). rewrite !matchAt_spaces.
    simpl. split; reflexivity.
  - unfold split, replaceAll.
    destruct (splitFrom_pieces (2 * List.length (c :: t) + 1) (S (List.length (c :: t)))
                [] [] [] (c :: t)) as [_ [H1 H2]]; [simpl; lia | simpl; lia |].
    split; [exact H1 | exact H2].
Qed.

(** What [processText] does once there is text and spell checking is on. *)
Lemma processText_spell_checked :
  forall e tc r s,
    TextCorrector.enableSpellCheck s = true ->
    truthy (trim (TextCorrector.extractText r)) = true ->
    let dict := TextCorrector.customDictionary (snd (TextCorrector.processText e tc r s)) in
    fst (TextCorrector.processText e tc r s)
    = TextCorrector.finalCleanup
        (TextCorrector.improveTextFlow e
           (TextCorrector.performSpellCheck
              (TextCorrector.Corrector (Some (checkerInUse e tc)) dict)
              (TextCorrector.correctAndRestore (TextCorrector.extractText r))
              (TextCorrector.aggressiveCorrection s))).
Proof.
  intros e tc r s Hon Htext. unfold TextCorrector.processText.
  assert (Ht : truthy (TextCorrector.extractText r) = true).
  { destruct (TextCorrector.extractText r); [discriminate | reflexivity]. }
  rewrite Ht, Htext, Hon. simpl negb. simpl orb. cbv iota zeta. simpl fst. simpl snd.
  do 3 f_equal.
  unfold checkerInUse, TextCorrector.initializeSpellChecker.
  destruct tc as [[c|] dict]; simpl;
    destruct (TextCorrector.dictionary e);
    destruct (TextCorrector.dictionaryGiven s) as [[l|txt]|];
    reflexivity.
Qed.

(** C3 (as amended).  Without a spell checker [performSpellCheck] returns
    its text.  With a spell checker installed, as [processText] installs
    one before the call, [performSpellCheck] cuts the text at
    every run of white space into pieces without white space (put end to
    end, the pieces are the text without its white space; joined by
    single spaces, they are the text with every run of white space
    replaced by one space), corrects the pieces and joins them with
    single spaces; when the suggestions it uses contain no line feed,
    neither does the result.  So, whenever spell checking is enabled and
    there is text to process, the text that [processText] hands to
    [improveTextFlow] is one line: every paragraph break and line
    boundary that structure reconstruction produced is gone; and the text
    returned for the markdown generator is one line when [compromise]
    adds no line feed. *)
Theorem installed_spell_check_removes_newlines :
  forall e tc,
    (forall dict w sg,
        TextCorrector.correct (TextCorrector.oracleOf (checkerInUse e tc) dict) w = true ->
        In sg (TextCorrector.suggest
                 (TextCorrector.oracleOf (checkerInUse e tc) dict) w) ->
        noNewline sg) ->
    (forall dict text ag,
        TextCorrector.performSpellCheck (TextCorrector.Corrector None dict) text ag = text)
    /\ (forall dict text ag,
        let o := TextCorrector.oracleOf (checkerInUse e tc) dict in
        let pieces := split whitespaceRun text in
        let out :=
          TextCorrector.performSpellCheck
            (TextCorrector.Corrector (Some (checkerInUse e tc)) dict) text ag in
        Forall noSpace pieces
        /\ List.concat pieces = filter (fun c => negb (isSpace c)) text
        /\ join (js " ") pieces = replaceAll whitespaceRun (Template (js " ")) text
        /\ out = join (js " ") (List.map (TextCorrector.correctWord o dict ag) pieces)
        /\ noNewline out)
    /\ (forall r s,
          TextCorrector.enableSpellCheck s = true ->
          truthy (trim (TextCorrector.extractText r)) = true ->
          let dict :=
            TextCorrector.customDictionary (snd (TextCorrector.processText e tc r s)) in
          let flat :=
            TextCorrector.performSpellCheck
              (TextCorrector.Corrector (Some (checkerInUse e tc)) dict)
              (TextCorrector.correctAndRestore (TextCorrector.extractText r))
              (TextCorrector.aggressiveCorrection s) in
          noNewline flat
          /\ fst (TextCorrector.processText e tc r s)
             = TextCorrector.finalCleanup (TextCorrector.improveTextFlow e flat)
          /\ ((forall t out,
                  TextCorrector.nlpText e t = Some out -> noNewline t -> noNewline out) ->
              noNewline (fst (TextCorrector.processText e tc r s)))).
Proof.
  intros e tc Hsug. split; [reflexivity|]. split.
  - intros dict text ag o pieces out.
    split; [apply split_whitespace|].
    split; [apply split_pieces|]. split; [apply split_pieces|].
    split; [reflexivity|].
    apply performSpellCheck_noNewline. apply Hsug.
  - intros r s Hon Htext dict flat.
    assert (Hflat : noNewline flat) by (apply performSpellCheck_noNewline; apply Hsug).
    pose proof (processText_spell_checked e tc r s Hon Htext) as Heq.
    cbv zeta in Heq. fold dict in Heq. fold flat in Heq.
    split; [exact Hflat|]. split; [exact Heq|].
    intros Hnlp. rewrite Heq.
    apply finalCleanup_noNewline, improveTextFlow_noNewline; [exact Hnlp | exact Hflat].
Qed.

(** The flattening with the fallback checker, on the two paragraphs of
    the end-to-end scenario. *)
Lemma installed_spell_check_removes_newlines_witness :
  noNewline
    (TextCorrector.performSpellCheck
       (TextCorrector.Corrector (Some TextCorrector.Fallback) []) scenarioText false)
  /\ noNewline
       (fst (TextCorrector.processText plainEnv PDFProcessor.newCorrector
               (TextCorrector.OcrString scenarioText) defaultSettings)).
Proof.
  destruct (installed_spell_check_removes_newlines plainEnv PDFProcessor.newCorrector
              (fun dict => fallback_suggestions_noNewline dict)) as [_ [Hstage Htext]].
  split.
  - exact (proj2 (proj2 (proj2 (proj2 (Hstage [] scenarioText false))))).
  - apply Htext.
    + reflexivity.
    + vm_compute. reflexivity.
    + intros t out H Ht. simpl in H. injection H as <-. exact Ht.
Defined.

(** C3, the claim as stated fails: while no spell checker is installed,
    as in a [TextCorrector] whose [initializeSpellChecker] has not
    finished, [performSpellCheck] returns its text as it is, line feeds
    included. *)
Lemma spell_check_without_checker_keeps_newlines :
  TextCorrector.spellChecker PDFProcessor.newCorrector = None
  /\ TextCorrector.performSpellCheck PDFProcessor.newCorrector (js "a\nb") false
     = js "a\nb"
  /\ ~ noNewline
         (TextCorrector.performSpellCheck PDFProcessor.newCorrector (js "a\nb") false).
Proof.
  split; [reflexivity|]. split; [reflexivity|].
  intros H. simpl in H. inversion H as [|a l Ha Hl]. inversion Hl as [|b l' Hb Hl'].
  apply Hb. reflexivity.
Qed.

(* ================================================================= *)
(** * Further properties: heading detection *)

Lemma determineHeadingLevel_range :
  forall m i level,
    MarkdownGenerator.determineHeadingLevel m i = Returns level ->
    1 <= level <= 3.
Proof.
  intros m i level H.
  destruct i as [|[|[|[|[|[|i]]]]]]; simpl in H; try discriminate;
    try (injection H as <-; lia).
  destruct (_ <=? 3)%N; injection H as <-; lia.
Qed.

Lemma detectHeadingFrom_shape :
  forall patterns i line h,
    MarkdownGenerator.detectHeadingFrom patterns i line = Returns (Some h) ->
    1 <= MarkdownGenerator.level h <= 3
    /\ MarkdownGenerator.markdown h
       = repeat (js "#") (MarkdownGenerator.level h) ++ js " "
         ++ MarkdownGenerator.text h.
Proof.
  induction patterns as [|p patterns IH]; intros i line h H; simpl in H.
  - discriminate.
  - destruct (exec p line) as [m|]; [|exact (IH _ _ _ H)].
    destruct (MarkdownGenerator.determineHeadingLevel m i) as [level|e] eqn:E;
      simpl in H; [|discriminate].
    injection H as <-. simpl. split; [|reflexivity].
    exact (determineHeadingLevel_range _ _ _ E).
Qed.

(** X1.  A heading that [detectHeading] returns has a level between 1
    and 3, and its markdown is that many [#], one space and its text. *)
Theorem detected_heading_shape :
  forall line h,
    MarkdownGenerator.detectHeading line = Returns (Some h) ->
    1 <= MarkdownGenerator.level h <= 3
    /\ MarkdownGenerator.markdown h
       = repeat (js "#") (MarkdownGenerator.level h) ++ js " "
         ++ MarkdownGenerator.text h.
Proof.
  intros line h H. exact (detectHeadingFrom_shape _ _ _ _ H).
Qed.

Lemma detected_heading_shape_witness :
  1 <= 2 <= 3
  /\ js "## INTRODUCTION" = repeat (js "#") 2 ++ js " " ++ js "INTRODUCTION".
Proof.
  exact (detected_heading_shape (js "1. INTRODUCTION")
           (MarkdownGenerator.Heading 2 (js "INTRODUCTION") (js "## INTRODUCTION"))
           eq_refl).
Defined.

Lemma detectHeading_cases :
  forall line,
    MarkdownGenerator.detectHeading line
    = match exec romanNumeral line with
      | Some m => classified m 0
      | None =>
          match exec numericPrefix line with
          | Some m => classified m 1
          | None =>
              match exec letterPrefix line with
              | Some m => classified m 2
              | None =>
                  match exec allCaps line with
                  | Some m => Throws (ReferenceError "line")
                  | None =>
                      MarkdownGenerator.detectHeadingFrom
                        (skipn 4 MarkdownGenerator.headingPatterns) 4 line
                  end
              end
          end
      end.
Proof.
  intros line. unfold MarkdownGenerator.detectHeading.
  change MarkdownGenerator.headingPatterns
    with (romanNumeral :: numericPrefix :: letterPrefix :: allCaps
          :: skipn 4 MarkdownGenerator.headingPatterns) at 1.
  cbn [MarkdownGenerator.detectHeadingFrom].
  destruct (exec romanNumeral line); [reflexivity|].
  destruct (exec numericPrefix line); [reflexivity|].
  destruct (exec letterPrefix line); [reflexivity|].
  destruct (exec allCaps line); reflexivity.
Qed.

Lemma classified_returns :
  forall m i, i <> 3 -> exists h, classified m i = Returns (Some h).
Proof.
  intros m i Hi. unfold classified.
  destruct i as [|[|[|[|[|[|i]]]]]]; simpl; try (eexists; reflexivity).
  contradiction.
Qed.

Lemma detectHeadingFrom_tail_returns :
  forall line,
    exists r,
      MarkdownGenerator.detectHeadingFrom
        (skipn 4 MarkdownGenerator.headingPatterns) 4 line = Returns r.
Proof.
  intros line. cbn [skipn MarkdownGenerator.headingPatterns].
  cbn [MarkdownGenerator.detectHeadingFrom].
  repeat match goal with
         | |- context [exec ?p line] => destruct (exec p line)
         end; simpl; eexists; reflexivity.
Qed.

Lemma detectHeading_throws_allCaps :
  forall line e,
    MarkdownGenerator.detectHeading line = Throws e ->
    e = ReferenceError "line" /\ allCapsFirst line.
Proof.
  intros line e. rewrite detectHeading_cases. unfold allCapsFirst. intros H.
  destruct (exec romanNumeral line) as [m|].
  { destruct (classified_returns m 0) as [h Hh]; [lia|]. congruence. }
  destruct (exec numericPrefix line) as [m|].
  { destruct (classified_returns m 1) as [h Hh]; [lia|]. congruence. }
  destruct (exec letterPrefix line) as [m|].
  { destruct (classified_returns m 2) as [h Hh]; [lia|]. congruence. }
  destruct (exec allCaps line) as [m|].
  - injection H as <-. repeat split; discriminate.
  - destruct (detectHeadingFrom_tail_returns line) as [r Hr]. congruence.
Qed.

(** X2.  [detectHeading] throws exactly on the lines on which the
    all-caps pattern is the first of the table to match, and what it
    throws then is the ReferenceError for [line]. *)
Theorem detectHeading_throws_iff :
  forall line e,
    MarkdownGenerator.detectHeading line = Throws e
    <-> e = ReferenceError "line" /\ allCapsFirst line.
Proof.
  intros line e. split.
  - apply detectHeading_throws_allCaps.
  - rewrite detectHeading_cases. unfold allCapsFirst.
    intros [-> [H0 [H1 [H2 H3]]]]. rewrite H0, H1, H2.
    destruct (exec allCaps line); [reflexivity | contradiction].
Qed.

(* ================================================================= *)
(** * Further properties: what [generate] can throw *)

Lemma processLines_throws :
  forall lines skip processedLines inCodeBlock e,
    MarkdownGenerator.processLines lines skip processedLines inCodeBlock = Throws e ->
    e = ReferenceError "line"
    /\ exists line, In line lines /\ allCapsFirst (trim line).
Proof.
  induction lines as [|line lines IH]; intros skip pl cb e H.
  - discriminate.
  - assert (Hrec : forall skip pl cb,
               MarkdownGenerator.processLines lines skip pl cb = Throws e ->
               e = ReferenceError "line"
               /\ exists l, In l (line :: lines) /\ allCapsFirst (trim l)).
    { intros s p c Hs. destruct (IH _ _ _ _ Hs) as [He [l [Hl Hc]]].
      split; [exact He|]. exists l. split; [right; exact Hl | exact Hc]. }
    cbn [MarkdownGenerator.processLines] in H.
    destruct skip as [|skip]; [|exact (Hrec _ _ _ H)].
    destruct (negb (truthy (trim line))); [exact (Hrec _ _ _ H)|].
    destruct (MarkdownGenerator.detectHeading (trim line)) as [[h|]|e'] eqn:E;
      cbn [bind] in H.
    + exact (Hrec _ _ _ H).
    + destruct (MarkdownGenerator.detectListItem (trim line));
        [exact (Hrec _ _ _ H)|].
      destruct (if MarkdownGenerator.looksLikeTableRow (trim line)
                then MarkdownGenerator.processTable (line :: lines) else None)
        as [[table n]|]; [exact (Hrec _ _ _ H)|].
      destruct (MarkdownGenerator.looksLikeCode (trim line)); exact (Hrec _ _ _ H).
    + injection H as <-.
      destruct (detectHeading_throws_allCaps _ _ E) as [He Hc].
      split; [exact He|]. exists line. split; [left; reflexivity | exact Hc].
Qed.

Lemma placeholder_content :
  exists content,
    MarkdownGenerator.processContent MarkdownGenerator.placeholder = Returns content.
Proof. vm_compute. eexists. reflexivity. Qed.

Lemma generate_throws :
  forall now text o e,
    MarkdownGenerator.generate now (Some text) o = Throws e ->
    e = ReferenceError "line"
    /\ exists line, In line (splitChar LF text) /\ allCapsFirst (trim line).
Proof.
  intros now text o e H. unfold MarkdownGenerator.generate in H.
  destruct text as [|c text].
  - exfalso. destruct placeholder_content as [content E].
    rewrite E in H. discriminate H.
  - unfold MarkdownGenerator.processContent in H.
    destruct (MarkdownGenerator.processLines (splitChar 10%N (c :: text)) 0 [] false)
      as [r|e'] eqn:E; cbn [bind] in H.
    + discriminate H.
    + injection H as <-. exact (processLines_throws _ _ _ _ _ E).
Qed.

(** X3.  The only error that [generate] throws is the ReferenceError for
    [line], and it throws it only when the text has a line that, trimmed,
    is matched by the all-caps pattern and by none of the three patterns
    before it. *)
Theorem generate_throws_only_on_all_caps :
  forall now text o e,
    MarkdownGenerator.generate now (Some text) o = Throws e ->
    e = ReferenceError "line"
    /\ exists line, In line (splitChar LF text) /\ allCapsFirst (trim line).
Proof.
  intros now text o e H. exact (generate_throws now text o e H).
Qed.

Lemma generate_throws_only_on_all_caps_witness :
  ReferenceError "line" = ReferenceError "line"
  /\ exists line, In line (splitChar LF (js "SUMMARY OF RESULTS\ntext"))
                  /\ allCapsFirst (trim line).
Proof.
  exact (generate_throws_only_on_all_caps scenarioDate
           (js "SUMMARY OF RESULTS\ntext") MarkdownGenerator.defaultOptions
           (ReferenceError "line") eq_refl).
Defined.

(* ================================================================= *)
(** * Further properties: batches of pages *)

Lemma chunkFrom_partition :
  forall (A : Type) (chunkSize fuel : nat) (remaining : list A),
    1 <= chunkSize ->
    List.length remaining <= fuel ->
    exists chunks,
      OCRWorker.chunkFrom fuel remaining chunkSize = Some chunks
      /\ List.concat chunks = remaining
      /\ Forall (fun c => 1 <= List.length c <= chunkSize) chunks
      /\ Forall (fun c => List.length c = chunkSize) (removelast chunks).
Proof.
  intros A chunkSize fuel. induction fuel as [|fuel IH]; intros remaining Hc Hf.
  - destruct remaining; [|simpl in Hf; lia].
    exists []. repeat split; constructor.
  - destruct remaining as [|x remaining].
    { exists []. repeat split; constructor. }
    cbn [OCRWorker.chunkFrom].
    destruct (IH (skipn chunkSize (x :: remaining)) Hc) as [chunks [E [Hcat [Hlen Hfull]]]].
    { rewrite length_skipn. cbn [List.length] in *. lia. }
    rewrite E. eexists. split; [reflexivity|]. split; [|split].
    + cbn [List.concat]. rewrite Hcat. apply firstn_skipn.
    + constructor; [|exact Hlen]. rewrite length_firstn. cbn [List.length]. lia.
    + destruct chunks as [|c chunks]; [constructor|].
      change (removelast (firstn chunkSize (x :: remaining) :: c :: chunks))
        with (firstn chunkSize (x :: remaining) :: removelast (c :: chunks)).
      constructor; [|exact Hfull].
      rewrite length_firstn. apply Nat.min_l.
      destruct (Nat.le_gt_cases chunkSize (List.length (x :: remaining))) as [Hle|Hgt];
        [exact Hle|].
      rewrite skipn_all2 in Hcat by lia.
      inversion Hlen as [|c' l' Hc' Hl']; subst.
      destruct c; [simpl in Hc'; lia | discriminate].
Qed.

(** X4.  For a chunk size of at least one, [chunkArray] returns chunks
    that, put end to end, are the array: none is empty, none is longer
    than the chunk size, and all but the last have exactly that size. *)
Theorem chunkArray_partition :
  forall (A : Type) (array : list A) (chunkSize : nat),
    1 <= chunkSize ->
    exists chunks,
      OCRWorker.chunkArray array chunkSize = Some chunks
      /\ List.concat chunks = array
      /\ Forall (fun c => 1 <= List.length c <= chunkSize) chunks
      /\ Forall (fun c => List.length c = chunkSize) (removelast chunks).
Proof.
  intros A array chunkSize H.
  exact (chunkFrom_partition A chunkSize (List.length array) array H (le_n _)).
Qed.

Lemma chunkArray_partition_witness :
  exists chunks,
    OCRWorker.chunkArray [1; 2; 3; 4; 5] 2 = Some chunks
    /\ List.concat chunks = [1; 2; 3; 4; 5]
    /\ Forall (fun c => 1 <= List.length c <= 2) chunks
    /\ Forall (fun c => List.length c = 2) (removelast chunks).
Proof.
  apply (chunkArray_partition nat [1; 2; 3; 4; 5] 2). lia.
Defined.

(** X5.  With a chunk size of zero the loop of [chunkArray] makes no
    progress on an array that is not empty: it has not returned after any
    number of iterations. *)
Theorem chunkArray_zero_diverges :
  forall (A : Type) (fuel : nat) (x : A) (array : list A),
    OCRWorker.chunkFrom fuel (x :: array) 0 = None.
Proof.
  intros A fuel x array. induction fuel as [|fuel IH]; [reflexivity|].
  cbn [OCRWorker.chunkFrom skipn]. rewrite IH. reflexivity.
Qed.

(* ================================================================= *)
(** * Further properties: the text of the combined pages *)

Lemma join_empty_concat :
  forall l : list jsstring, join [] l = List.concat l.
Proof.
  induction l as [|x [|y l] IH]; [reflexivity | simpl; symmetry; apply app_nil_r |].
  change (join [] (x :: y :: l)) with (x ++ [] ++ join [] (y :: l)).
  rewrite IH. reflexivity.
Qed.

Lemma join_cons :
  forall sep x (l : list jsstring),
    join sep (x :: l) = x ++ List.concat (List.map (fun y => sep ++ y) l).
Proof.
  intros sep x l. revert x. induction l as [|y l IH]; intros x.
  - simpl. symmetry. apply app_nil_r.
  - change (join sep (x :: y :: l)) with (x ++ sep ++ join sep (y :: l)).
    rewrite IH. simpl. rewrite <- app_assoc. reflexivity.
Qed.

Lemma combine_parts_more :
  forall results a,
    OCRWorker.a_fullTextParts a <> [] ->
    List.concat (OCRWorker.a_fullTextParts (fold_left OCRWorker.combineStep results a))
    = List.concat (OCRWorker.a_fullTextParts a)
      ++ List.concat (List.map (fun y => js "\n\n" ++ y) (pageTexts results)).
Proof.
  induction results as [|p results IH]; intros a Ha.
  - simpl. symmetry. apply app_nil_r.
  - cbn [fold_left]. unfold pageTexts. cbn [filter].
    unfold OCRWorker.combineStep at 2.
    destruct (OCRWorker.hasText p).
    + rewrite IH.
      * cbn [OCRWorker.a_fullTextParts List.map List.concat].
        destruct (OCRWorker.a_fullTextParts a) as [|x parts]; [contradiction|].
        cbn [List.length Nat.ltb Nat.leb].
        rewrite !concat_app. cbn [List.concat]. rewrite !app_nil_r, <- !app_assoc.
        reflexivity.
      * cbn [OCRWorker.a_fullTextParts]. intros E.
        apply (f_equal (@List.length _)) in E. rewrite length_app in E.
        simpl in E. lia.
    + apply IH. exact Ha.
Qed.

Lemma combine_parts_first :
  forall results a,
    OCRWorker.a_fullTextParts a = [] ->
    List.concat (OCRWorker.a_fullTextParts (fold_left OCRWorker.combineStep results a))
    = join (js "\n\n") (pageTexts results).
Proof.
  induction results as [|p results IH]; intros a Ha.
  - simpl. rewrite Ha. reflexivity.
  - cbn [fold_left]. unfold pageTexts. cbn [filter].
    unfold OCRWorker.combineStep at 2.
    destruct (OCRWorker.hasText p).
    + rewrite combine_parts_more.
      * cbn [OCRWorker.a_fullTextParts]. rewrite Ha.
        cbn [List.length Nat.ltb Nat.leb app List.concat List.map].
        rewrite app_nil_r, join_cons. reflexivity.
      * cbn [OCRWorker.a_fullTextParts]. rewrite Ha. discriminate.
    + apply IH. exact Ha.
Qed.

Lemma fullText_pageTexts :
  forall now results,
    OCRWorker.fullText (OCRWorker.combinePageResults now results)
    = join (js "\n\n") (pageTexts results).
Proof.
  intros now results. unfold OCRWorker.combinePageResults.
  cbn [OCRWorker.fullText]. rewrite join_empty_concat.
  apply combine_parts_first. reflexivity.
Qed.

Lemma hasText_trim :
  forall p, OCRWorker.hasText p = truthy (trim (OCRWorker.text p)).
Proof.
  intros p. unfold OCRWorker.hasText.
  destruct (OCRWorker.text p); reflexivity.
Qed.

Lemma join_truthy :
  forall sep x (l : list jsstring), truthy x = true -> truthy (join sep (x :: l)) = true.
Proof.
  intros sep x l H. rewrite join_cons. destruct x; [discriminate | reflexivity].
Qed.

Lemma extractText_combined :
  forall now results,
    TextCorrector.extractText
      (TextCorrector.OcrStructured (OCRWorker.combinePageResults now results))
    = join (js "\n\n") (pageTexts results).
Proof.
  intros now results. unfold TextCorrector.extractText.
  rewrite fullText_pageTexts.
  destruct (truthy (join (js "\n\n") (pageTexts results))) eqn:E; [reflexivity|].
  cbn [OCRWorker.pages OCRWorker.combinePageResults].
  assert (H : filter OCRWorker.hasText results = []).
  { unfold pageTexts in E.
    destruct (filter OCRWorker.hasText results) as [|p l] eqn:F; [reflexivity|].
    assert (Hp : OCRWorker.hasText p = true).
    { assert (I : In p (filter OCRWorker.hasText results)) by (rewrite F; left; reflexivity).
      apply filter_In in I. apply I. }
    cbn [List.map] in E. rewrite join_truthy in E; [discriminate|].
    rewrite <- hasText_trim. exact Hp. }
  unfold pageTexts. rewrite H. cbn [List.map].
  clear E. induction results as [|p results IH]; [reflexivity|].
  cbn [filter] in H. cbn [List.map filter].
  destruct (OCRWorker.hasText p) eqn:Hp; [discriminate|].
  rewrite hasText_trim in Hp. rewrite Hp. exact (IH H).
Qed.

(** X6.  The text that [processText] reads from the value of
    [combinePageResults] is the trimmed texts of the pages that have
    text, in the order of the pages, with one blank line between two of
    them; the pages without text leave no trace in it. *)
Theorem combined_text_is_page_texts :
  forall now results,
    TextCorrector.extractText
      (TextCorrector.OcrStructured (OCRWorker.combinePageResults now results))
    = join (js "\n\n") (pageTexts results).
Proof.
  intros now results. apply extractText_combined.
Qed.

(* ================================================================= *)
(** * Further properties: the custom dictionary and the spell checker *)

Lemma streq_refl : forall a, streq a a = true.
Proof.
  induction a as [|x a IH]; [reflexivity|]. simpl. rewrite N.eqb_refl. exact IH.
Qed.

Lemma streq_eq : forall a b, streq a b = true -> a = b.
Proof.
  induction a as [|x a IH]; intros [|y b] H; simpl in H; try discriminate.
  - reflexivity.
  - apply andb_prop in H. destruct H as [Hx Ha].
    apply N.eqb_eq in Hx. rewrite (IH _ Ha), Hx. reflexivity.
Qed.

Lemma has_In : forall d w, TextCorrector.has d w = true <-> In w d.
Proof.
  intros d w. unfold TextCorrector.has. rewrite existsb_exists. split.
  - intros [x [Hx E]]. apply streq_eq in E. subst. exact Hx.
  - intros H. exists w. split; [exact H | apply streq_refl].
Qed.

Lemma add_In :
  forall d w x, In x (TextCorrector.add d w) <-> In x d \/ x = w.
Proof.
  intros d w x. unfold TextCorrector.add.
  destruct (TextCorrector.has d w) eqn:E.
  - apply has_In in E. split; [left; assumption|].
    intros [H| ->]; assumption.
  - rewrite in_app_iff. simpl. split.
    + intros [H|[H|[]]]; [left; exact H | right; symmetry; exact H].
    + intros [H|H]; [left; exact H | right; left; symmetry; exact H].
Qed.

Lemma add_NoDup :
  forall d w, NoDup d -> NoDup (TextCorrector.add d w).
Proof.
  intros d w H. unfold TextCorrector.add.
  destruct (TextCorrector.has d w) eqn:E; [exact H|].
  apply NoDup_app; [exact H | repeat constructor; intros [] |].
  intros x Hx [Hw|[]]. subst x. apply has_In in Hx. congruence.
Qed.

Lemma fold_add_In :
  forall (l : list jsstring) d x,
    In x (fold_left (fun d word => TextCorrector.add d (toLowerCase word)) l d)
    <-> In x d \/ In x (List.map toLowerCase l).
Proof.
  induction l as [|w l IH]; intros d x; simpl.
  - tauto.
  - rewrite IH, add_In. split; intros H; intuition auto.
Qed.

Lemma fold_add_NoDup :
  forall (l : list jsstring) d,
    NoDup d ->
    NoDup (fold_left (fun d word => TextCorrector.add d (toLowerCase word)) l d).
Proof.
  induction l as [|w l IH]; intros d H; simpl; [exact H|].
  apply IH, add_NoDup, H.
Qed.

Lemma fold_lines_entries :
  forall (lines : list jsstring) d,
    fold_left (fun d word =>
                 let trimmed := trim word in
                 if truthy trimmed then TextCorrector.add d (toLowerCase trimmed) else d)
              lines d
    = fold_left (fun d word => TextCorrector.add d (toLowerCase word))
                (filter truthy (List.map trim lines)) d.
Proof.
  induction lines as [|w lines IH]; intros d; [reflexivity|].
  cbn [fold_left List.map filter]. cbv zeta.
  destruct (truthy (trim w)); cbn [fold_left]; apply IH.
Qed.

Lemma loadCustomDictionary_entries :
  forall tc w,
    TextCorrector.customDictionary (TextCorrector.loadCustomDictionary tc w)
    = fold_left (fun d word => TextCorrector.add d (toLowerCase word))
                (entries w) (TextCorrector.customDictionary tc).
Proof.
  intros tc [l|s]; cbn [TextCorrector.loadCustomDictionary
                         TextCorrector.customDictionary entries].
  - reflexivity.
  - apply fold_lines_entries.
Qed.

(** X7.  [loadCustomDictionary] keeps the dictionary a set: it stays
    without duplicates, and afterwards it holds what it held before
    together with the lower-case form of every word given, and nothing
    else. *)
Theorem loadCustomDictionary_is_union :
  forall tc w,
    NoDup (TextCorrector.customDictionary tc) ->
    NoDup (TextCorrector.customDictionary (TextCorrector.loadCustomDictionary tc w))
    /\ forall x,
         In x (TextCorrector.customDictionary (TextCorrector.loadCustomDictionary tc w))
         <-> In x (TextCorrector.customDictionary tc)
             \/ In x (List.map toLowerCase (entries w)).
Proof.
  intros tc w H. rewrite loadCustomDictionary_entries. split.
  - apply fold_add_NoDup, H.
  - intros x. apply fold_add_In.
Qed.

Lemma loadCustomDictionary_is_union_witness :
  NoDup (TextCorrector.customDictionary
           (TextCorrector.loadCustomDictionary
              (TextCorrector.Corrector None [js "ocr"])
              (TextCorrector.WordText (js "Tesseract\n\n  OCR \npdf"))))
  /\ forall x,
       In x (TextCorrector.customDictionary
               (TextCorrector.loadCustomDictionary
                  (TextCorrector.Corrector None [js "ocr"])
                  (TextCorrector.WordText (js "Tesseract\n\n  OCR \npdf"))))
       <-> In x [js "ocr"]
           \/ In x (List.map toLowerCase
                      (entries (TextCorrector.WordText (js "Tesseract\n\n  OCR \npdf")))).
Proof.
  apply (loadCustomDictionary_is_union
           (TextCorrector.Corrector None [js "ocr"])
           (TextCorrector.WordText (js "Tesseract\n\n  OCR \npdf"))).
  repeat constructor. intros [].
Defined.

(** X8.  A token whose key is, up to case, a word given to
    [loadCustomDictionary] is left as it is by the spell check, whatever
    the spell checker answers and in either mode. *)
Theorem custom_word_is_kept :
  forall o tc w aggressiveMode custom word,
    In custom (entries w) ->
    toLowerCase (keyOf word) = toLowerCase custom ->
    TextCorrector.correctWord o
      (TextCorrector.customDictionary (TextCorrector.loadCustomDictionary tc w))
      aggressiveMode word
    = word.
Proof.
  intros o tc w ag custom word Hin Hkey.
  unfold TextCorrector.correctWord. fold (keyOf word).
  destruct (List.length (keyOf word) <? 2)%nat; [reflexivity|].
  assert (H : TextCorrector.has
                (TextCorrector.customDictionary (TextCorrector.loadCustomDictionary tc w))
                (toLowerCase (keyOf word)) = true).
  { apply has_In. rewrite loadCustomDictionary_entries, Hkey.
    apply fold_add_In. right. apply in_map. exact Hin. }
  rewrite H. reflexivity.
Qed.

Lemma custom_word_is_kept_witness :
  TextCorrector.correctWord (suggesting (js "test"))
    (TextCorrector.customDictionary
       (TextCorrector.loadCustomDictionary PDFProcessor.newCorrector
          (TextCorrector.WordList [js "Tesseract"])))
    true (js "(TESSERACT),")
  = js "(TESSERACT),".
Proof.
  apply (custom_word_is_kept (suggesting (js "test")) PDFProcessor.newCorrector
           (TextCorrector.WordList [js "Tesseract"]) true (js "Tesseract")
           (js "(TESSERACT),")).
  - left. reflexivity.
  - reflexivity.
Defined.

(** X9.  Whatever the spell check changes in non-aggressive mode, it
    changes in the same way in aggressive mode. *)
Theorem aggressive_mode_extends_cautious :
  forall o dict word,
    TextCorrector.correctWord o dict false word <> word ->
    TextCorrector.correctWord o dict true word
    = TextCorrector.correctWord o dict false word.
Proof.
  intros o dict word. unfold TextCorrector.correctWord.
  destruct (List.length _ <? 2)%nat; [reflexivity|].
  destruct (TextCorrector.has dict _); [reflexivity|].
  destruct (TextCorrector.correct o _); [|reflexivity].
  destruct (TextCorrector.suggest o _) as [|top more]; [reflexivity|].
  rewrite chooseBestSuggestion_cautious.
  cbn [TextCorrector.chooseBestSuggestion negb].
  destruct (_ <=? _)%nat; [reflexivity|].
  intros H. contradiction H. reflexivity.
Qed.

Lemma aggressive_mode_extends_cautious_witness :
  TextCorrector.correctWord (suggesting (js "test")) [] true (js "tesst.")
  = TextCorrector.correctWord (suggesting (js "test")) [] false (js "tesst.").
Proof.
  apply (aggressive_mode_extends_cautious (suggesting (js "test")) [] (js "tesst.")).
  vm_compute. discriminate.
Defined.

(** X10.  With the fallback spell checker, a token is changed only when
    its key is none of the common words, up to case; its key is then
    replaced by one of the ten words of [getSuggestions], at edit distance
    at most two from the key in lower case. *)
Theorem fallback_corrections :
  forall dict aggressiveMode word,
    TextCorrector.correctWord (TextCorrector.fallbackOracle dict) dict aggressiveMode word
    = word
    \/ (TextCorrector.has TextCorrector.commonWords (toLowerCase (keyOf word)) = false
        /\ exists s,
             In s TextCorrector.suggestionWords
             /\ Natural.LevenshteinDistance (toLowerCase (keyOf word)) s <= 2
             /\ TextCorrector.correctWord (TextCorrector.fallbackOracle dict) dict
                  aggressiveMode word
                = replaceString word (keyOf word) s).
Proof.
  intros dict ag word. unfold TextCorrector.correctWord. fold (keyOf word).
  destruct (List.length (keyOf word) <? 2)%nat; [left; reflexivity|].
  destruct (TextCorrector.has dict (toLowerCase (keyOf word))) eqn:Hd;
    [left; reflexivity|].
  cbn [TextCorrector.fallbackOracle TextCorrector.correct TextCorrector.suggest].
  unfold TextCorrector.isValidWord. rewrite Hd.
  destruct (TextCorrector.has TextCorrector.commonWords (toLowerCase (keyOf word)));
    [left; reflexivity|].
  cbn [negb].
  destruct (TextCorrector.getSuggestions (keyOf word)) as [|top more] eqn:Hs;
    [left; reflexivity|].
  destruct (TextCorrector.chooseBestSuggestion (keyOf word) (top :: more) ag)
    as [best|] eqn:Hb; [|left; reflexivity].
  destruct (truthy best); [|left; reflexivity].
  right. split; [reflexivity|]. exists best.
  apply chooseBestSuggestion_in in Hb. rewrite <- Hs in Hb.
  unfold TextCorrector.getSuggestions in Hb.
  assert (I : In best (filter (fun candidate =>
                (Natural.LevenshteinDistance (toLowerCase (keyOf word)) candidate <=? 2)%nat)
                TextCorrector.suggestionWords)).
  { rewrite <- (firstn_skipn 5). apply in_or_app. left. exact Hb. }
  apply filter_In in I. destruct I as [I1 I2]. apply Nat.leb_le in I2.
  split; [exact I1 | split; [exact I2 | reflexivity]].
Qed.

(* ================================================================= *)
(** * Further properties: paragraphs and page markers *)

Lemma restoreLines_app :
  forall pre post,
    TextCorrector.restoreLines (pre ++ post)
    = TextCorrector.flush
        (fold_left TextCorrector.structureStep post
           (fold_left TextCorrector.structureStep pre (TextCorrector.Structure [] []))).
Proof.
  intros pre post. unfold TextCorrector.restoreLines. rewrite fold_left_app. reflexivity.
Qed.

(** X11.  A blank line is a paragraph boundary that nothing crosses: the
    logical lines of a text are those of the lines before the blank
    line, an empty line, and those of the lines after it. *)
Theorem blank_line_separates :
  forall pre blank post,
    trim blank = [] ->
    TextCorrector.restoreLines (pre ++ blank :: post)
    = TextCorrector.restoreLines pre ++ [] :: TextCorrector.restoreLines post.
Proof.
  intros pre blank post Hb. rewrite restoreLines_app. cbn [fold_left].
  unfold TextCorrector.structureStep at 2. rewrite Hb.
  change (test TextCorrector.pageMarker []) with false.
  cbn [truthy negb].
  fold (TextCorrector.restoreLines pre).
  rewrite <- (app_nil_r (TextCorrector.restoreLines pre ++ [[]])).
  rewrite fold_structure_prefix, flush_app.
  unfold TextCorrector.restoreLines.
  destruct (fold_left TextCorrector.structureStep post (TextCorrector.Structure [] []))
    as [P c].
  cbn [TextCorrector.processedLines TextCorrector.currentParagraph].
  rewrite <- app_assoc. reflexivity.
Qed.

Lemma blank_line_separates_witness :
  TextCorrector.restoreLines ([js "one"; js "two"] ++ js "  " :: [js "three"])
  = TextCorrector.restoreLines [js "one"; js "two"]
    ++ [] :: TextCorrector.restoreLines [js "three"].
Proof.
  apply (blank_line_separates [js "one"; js "two"] (js "  ") [js "three"]).
  reflexivity.
Defined.

(** X12.  A page marker is dropped without a trace: the logical lines
    are those of the text without the marker line, so that a paragraph
    runs on across it. *)
Theorem page_marker_is_transparent :
  forall pre marker post,
    test TextCorrector.pageMarker (trim marker) = true ->
    TextCorrector.restoreLines (pre ++ marker :: post)
    = TextCorrector.restoreLines (pre ++ post).
Proof.
  intros pre marker post Hm. rewrite !restoreLines_app. cbn [fold_left].
  unfold TextCorrector.structureStep at 2. rewrite Hm. reflexivity.
Qed.

Lemma page_marker_is_transparent_witness :
  TextCorrector.restoreLines ([js "the end of"] ++ js "--- Page 12 ---" :: [js "a page"])
  = TextCorrector.restoreLines ([js "the end of"] ++ [js "a page"]).
Proof.
  apply (page_marker_is_transparent [js "the end of"] (js "--- Page 12 ---") [js "a page"]).
  reflexivity.
Defined.

(* ================================================================= *)
(** * Further properties: the normal form of the text flow *)

(** X13.  When [compromise] returns, the text that [improveTextFlow]
    gives has no two white-space code units in a row, no white space
    before one of [, . ; : ! ?], and no lower-case letter after one of
    [. ! ?], directly or after white space. *)
Theorem improveTextFlow_normal_form :
  forall e text improved,
    TextCorrector.nlpText e text = Some improved ->
    noDoubleSpace (TextCorrector.improveTextFlow e text) = true
    /\ noSpaceBeforePunct (TextCorrector.improveTextFlow e text) = true
    /\ sentencesCapitalized (TextCorrector.improveTextFlow e text) = true.
Proof.
  intros e text improved H. unfold TextCorrector.improveTextFlow. rewrite H.
  exact (normalizeFlow_ok improved).
Qed.

Lemma improveTextFlow_normal_form_witness :
  noDoubleSpace (TextCorrector.improveTextFlow plainEnv (js "one  two .three")) = true
  /\ noSpaceBeforePunct (TextCorrector.improveTextFlow plainEnv (js "one  two .three")) = true
  /\ sentencesCapitalized (TextCorrector.improveTextFlow plainEnv (js "one  two .three")) = true.
Proof.
  apply (improveTextFlow_normal_form plainEnv (js "one  two .three") (js "one  two .three")).
  reflexivity.
Defined.

(* ================================================================= *)
(** * Further properties: the lines after the final cleanup *)

Lemma join_cons_more :
  forall sep x y (l : list jsstring),
    join sep (x :: y :: l) = x ++ sep ++ join sep (y :: l).
Proof. reflexivity. Qed.

Lemma join_snoc :
  forall sep (l : list jsstring) x,
    l <> [] -> join sep (l ++ [x]) = join sep l ++ sep ++ x.
Proof.
  intros sep l x. induction l as [|a [|b l] IH]; intros H.
  - contradiction.
  - reflexivity.
  - change ((a :: b :: l) ++ [x]) with (a :: (b :: l) ++ [x]).
    change ((b :: l) ++ [x]) with (b :: l ++ [x]) at 1.
    rewrite join_cons_more.
    change (b :: l ++ [x]) with ((b :: l) ++ [x]).
    rewrite IH by discriminate.
    rewrite join_cons_more, <- !app_assoc. reflexivity.
Qed.

Lemma splitChar_nonempty : forall sep s, splitChar sep s <> [].
Proof.
  intros sep [|c t]; simpl; [discriminate|].
  destruct (c =? sep)%N; [discriminate|].
  destruct (splitChar sep t); discriminate.
Qed.

Lemma splitChar_lines :
  forall s, Forall noNewline (splitChar LF s).
Proof.
  induction s as [|c t IH]; simpl.
  - repeat constructor.
  - destruct (c =? LF)%N eqn:E.
    + constructor; [constructor | exact IH].
    + apply N.eqb_neq in E.
      destruct (splitChar LF t) as [|h r]; [repeat constructor; exact E|].
      inversion IH; subst. constructor; [constructor; assumption | assumption].
Qed.

Lemma splitChar_app :
  forall a b, noNewline a -> splitChar LF (a ++ LF :: b) = a :: splitChar LF b.
Proof.
  induction a as [|c a IH]; intros b H.
  - simpl. reflexivity.
  - inversion H as [|? ? Hc Ha]; subst.
    change ((c :: a) ++ LF :: b) with (c :: (a ++ LF :: b)).
    cbn [splitChar]. rewrite (IH b Ha).
    destruct (c =? LF)%N eqn:E; [apply N.eqb_eq in E; contradiction | reflexivity].
Qed.

Lemma splitChar_join_more :
  forall (l : list jsstring) b,
    l <> [] -> Forall noNewline l ->
    splitChar LF (join [LF] l ++ LF :: b) = l ++ splitChar LF b.
Proof.
  induction l as [|x [|y l] IH]; intros b Hne H.
  - contradiction.
  - inversion H; subst. apply splitChar_app. assumption.
  - inversion H as [|? ? Hx Hl]; subst.
    rewrite join_cons_more, <- !app_assoc.
    change ([LF] ++ join [LF] (y :: l) ++ LF :: b)
      with (LF :: (join [LF] (y :: l) ++ LF :: b)).
    rewrite (splitChar_app x _ Hx), IH by (discriminate || assumption).
    reflexivity.
Qed.

Lemma splitChar_join :
  forall l : list jsstring,
    l <> [] -> Forall noNewline l -> splitChar LF (join [LF] l) = l.
Proof.
  intros l Hne H. destruct (exists_last Hne) as [l' [x E]]. subst l.
  apply Forall_app in H. destruct H as [Hl Hx]. inversion Hx; subst.
  destruct l' as [|y l'].
  - apply splitChar_noNewline. assumption.
  - rewrite join_snoc by discriminate.
    change ([LF] ++ x) with (LF :: x).
    rewrite splitChar_join_more by (discriminate || assumption).
    rewrite splitChar_noNewline by assumption. reflexivity.
Qed.

(** Strings without white space at their end, and at their start. *)
Lemma dropWhile_fixed_app :
  forall p (a b : jsstring),
    a <> [] -> dropWhile p a = a -> dropWhile p (a ++ b) = a ++ b.
Proof.
  intros p [|c a] b Hne H; [contradiction|].
  simpl in *. destruct (p c); [|reflexivity].
  exfalso. clear Hne.
  assert (L : forall s : jsstring, List.length (dropWhile p s) <= List.length s).
  { induction s as [|x s IH]; simpl; [lia|]. destruct (p x); simpl; lia. }
  pose proof (L a) as La. rewrite H in La. simpl in La. lia.
Qed.

Lemma dropWhile_idem :
  forall p (s : jsstring), dropWhile p (dropWhile p s) = dropWhile p s.
Proof.
  induction s as [|c s IH]; [reflexivity|]. simpl.
  destruct (p c) eqn:E; [exact IH|]. simpl. rewrite E. reflexivity.
Qed.

Lemma trimEnd_idem : forall s, trimEnd (trimEnd s) = trimEnd s.
Proof.
  intros s. unfold trimEnd. rewrite rev_involutive, dropWhile_idem. reflexivity.
Qed.

Lemma trimStart_idem : forall s, trimStart (trimStart s) = trimStart s.
Proof. intros s. apply dropWhile_idem. Qed.

Lemma trimEnd_fixed_rev :
  forall s, trimEnd s = s -> dropWhile isSpace (rev s) = rev s.
Proof.
  intros s H. unfold trimEnd in H.
  apply (f_equal (@rev _)) in H. rewrite rev_involutive in H. exact H.
Qed.

Lemma trimEnd_app_fixed :
  forall a b, b <> [] -> trimEnd b = b -> trimEnd (a ++ b) = a ++ b.
Proof.
  intros a b Hne H. unfold trimEnd. rewrite rev_app_distr.
  rewrite dropWhile_fixed_app.
  - rewrite <- rev_app_distr. apply rev_involutive.
  - intros E. apply Hne. rewrite <- (rev_involutive b), E. reflexivity.
  - apply trimEnd_fixed_rev, H.
Qed.

Lemma trimEnd_app_space :
  forall a c, isSpace c = true -> trimEnd (a ++ [c]) = trimEnd a.
Proof.
  intros a c H. unfold trimEnd. rewrite rev_app_distr. simpl. rewrite H. reflexivity.
Qed.

Lemma trimStart_app_fixed :
  forall a b, a <> [] -> trimStart a = a -> trimStart (a ++ b) = a ++ b.
Proof. intros a b. apply dropWhile_fixed_app. Qed.

(** Trimming the end of the joined lines removes whole lines at the end,
    when no line ends with white space; likewise at the start. *)
Lemma trimEnd_join :
  forall l : list jsstring,
    Forall (fun x => trimEnd x = x) l ->
    exists l1 l2, l = l1 ++ l2 /\ trimEnd (join [LF] l) = join [LF] l1.
Proof.
  induction l as [|x l IH] using rev_ind; intros H.
  - exists [], []. split; reflexivity.
  - apply Forall_app in H. destruct H as [Hl Hx]. inversion Hx as [|? ? Ex _]; subst.
    destruct x as [|c x].
    + destruct (IH Hl) as [l1 [l2 [E1 E2]]].
      exists l1, (l2 ++ [[]]). split; [rewrite E1, <- app_assoc; reflexivity|].
      destruct l as [|y l].
      * destruct l1; [reflexivity | discriminate].
      * rewrite join_snoc by discriminate. rewrite app_nil_r.
        rewrite trimEnd_app_space by reflexivity. exact E2.
    + exists (l ++ [c :: x]), []. split; [symmetry; apply app_nil_r|].
      destruct l as [|y l].
      * exact Ex.
      * rewrite !join_snoc by discriminate. rewrite app_assoc.
        apply trimEnd_app_fixed; [discriminate | exact Ex].
Qed.

Lemma trimStart_join :
  forall l : list jsstring,
    Forall (fun x => trimStart x = x) l ->
    exists l1 l2, l = l1 ++ l2 /\ trimStart (join [LF] l) = join [LF] l2.
Proof.
  induction l as [|x l IH]; intros H.
  - exists [], []. split; reflexivity.
  - inversion H as [|? ? Ex Hl]; subst.
    destruct x as [|c x].
    + destruct (IH Hl) as [l1 [l2 [E1 E2]]].
      exists ([] :: l1), l2. split; [rewrite E1; reflexivity|].
      destruct l as [|y l].
      * destruct l1; [|discriminate]. simpl in E1. subst l2. reflexivity.
      * rewrite join_cons_more. exact E2.
    + exists [], ((c :: x) :: l). split; [reflexivity|].
      destruct l as [|y l].
      * exact Ex.
      * rewrite join_cons_more.
        apply trimStart_app_fixed; [discriminate | exact Ex].
Qed.

Lemma dropWhile_head :
  forall p c (s : jsstring), dropWhile p (c :: s) = c :: s -> p c = false.
Proof.
  intros p c s H. simpl in H. destruct (p c); [|reflexivity]. exfalso.
  assert (L : forall s : jsstring, List.length (dropWhile p s) <= List.length s).
  { induction s0 as [|x s0 IH]; simpl; [lia|]. destruct (p x); simpl; lia. }
  pose proof (L s) as Ls. rewrite H in Ls. simpl in Ls. lia.
Qed.

Lemma dropWhile_app_stop :
  forall p (a : jsstring) c,
    p c = false -> dropWhile p (a ++ [c]) = dropWhile p a ++ [c].
Proof.
  intros p a c H. induction a as [|x a IH]; simpl.
  - rewrite H. reflexivity.
  - destruct (p x); [exact IH | reflexivity].
Qed.

Lemma trimEnd_keeps_start :
  forall s, trimStart s = s -> trimStart (trimEnd s) = trimEnd s.
Proof.
  intros [|c s] H; [reflexivity|].
  apply dropWhile_head in H.
  unfold trimEnd. cbn [rev]. rewrite (dropWhile_app_stop _ _ _ H), rev_app_distr.
  simpl. unfold trimStart. simpl. rewrite H. reflexivity.
Qed.

Lemma trim_fixed :
  forall s, trimStart (trim s) = trim s /\ trimEnd (trim s) = trim s.
Proof.
  intros s. unfold trim. split.
  - apply trimEnd_keeps_start, trimStart_idem.
  - apply trimEnd_idem.
Qed.

Lemma trim_idem : forall s, trim (trim s) = trim s.
Proof.
  intros s. destruct (trim_fixed s) as [A B]. unfold trim at 1. rewrite A. exact B.
Qed.

Lemma trimEnd_noNewline : forall s, noNewline s -> noNewline (trimEnd s).
Proof.
  intros s H. unfold trimEnd. apply Forall_rev, Forall_dropWhile, Forall_rev, H.
Qed.

Lemma Forall_map_lines :
  forall (P : jsstring -> Prop) (f : jsstring -> jsstring) (l : list jsstring),
    (forall x, P (f x)) -> Forall P (List.map f l).
Proof.
  intros P f l H. induction l; simpl; constructor; auto.
Qed.

Lemma lines_of_cleaned :
  forall (P : jsstring -> Prop) (l : list jsstring),
    P [] -> Forall P l -> Forall noNewline l ->
    Forall P (splitChar LF (join [LF] l))
    /\ Forall P (splitChar LF (join [LF] l ++ [LF])).
Proof.
  intros P l P0 Hl Hn. destruct l as [|x l].
  - split; repeat constructor; exact P0.
  - split.
    + rewrite splitChar_join by (discriminate || assumption). exact Hl.
    + rewrite splitChar_join_more by (discriminate || assumption).
      apply Forall_app. split; [exact Hl | repeat constructor; exact P0].
Qed.

(** X14.  In the markdown that [finalCleanup] returns no line ends with
    white space, and the text ends with one line feed that follows a
    text without white space at its end. *)
Theorem markdown_lines_are_trimmed :
  forall markdown,
    Forall (fun line => trimEnd line = line)
           (splitChar LF (MarkdownGenerator.finalCleanup markdown))
    /\ exists body,
         MarkdownGenerator.finalCleanup markdown = body ++ [LF]
         /\ trimEnd body = body.
Proof.
  intros markdown. unfold MarkdownGenerator.finalCleanup. cbv zeta.
  change (js "\n") with [LF]. change 10%N with LF.
  match goal with |- context [List.map trimEnd (splitChar LF ?c)] => generalize c end.
  intros c. split.
  - set (l := List.map trimEnd (splitChar LF c)).
    assert (Hl : Forall (fun x => trimEnd x = x) l)
      by (apply Forall_map_lines, trimEnd_idem).
    assert (Hn : Forall noNewline l).
    { unfold l. apply Forall_forall. intros x Hx. apply in_map_iff in Hx.
      destruct Hx as [y [<- Hy]]. apply trimEnd_noNewline.
      exact (proj1 (Forall_forall _ _) (splitChar_lines c) y Hy). }
    destruct (trimEnd_join l Hl) as [l1 [l2 [E1 E2]]]. rewrite E2.
    rewrite E1 in Hl, Hn. apply Forall_app in Hl, Hn.
    apply (lines_of_cleaned (fun x => trimEnd x = x) l1 eq_refl);
      [apply Hl | apply Hn].
  - eexists. split; [reflexivity | apply trimEnd_idem].
Qed.

(** X15.  In the text that the [finalCleanup] of the corrector returns no
    line starts or ends with white space, and neither does the text: it
    has no blank line at its start or at its end. *)
Theorem corrected_lines_are_trimmed :
  forall text,
    Forall (fun line => trim line = line)
           (splitChar LF (TextCorrector.finalCleanup text))
    /\ trim (TextCorrector.finalCleanup text) = TextCorrector.finalCleanup text.
Proof.
  intros text. unfold TextCorrector.finalCleanup. cbv zeta.
  change (js "\n") with [LF]. change 10%N with LF.
  match goal with |- context [List.map trim (splitChar LF ?c)] => generalize c end.
  intros c. split; [|apply trim_idem].
  set (l := List.map trim (splitChar LF c)).
  assert (Hs : Forall (fun x => trimStart x = x) l)
    by (apply Forall_map_lines; intros x; apply trim_fixed).
  assert (He : Forall (fun x => trimEnd x = x) l)
    by (apply Forall_map_lines; intros x; apply trim_fixed).
  assert (Hn : Forall noNewline l).
  { unfold l. apply Forall_forall. intros x Hx. apply in_map_iff in Hx.
    destruct Hx as [y [<- Hy]]. apply trim_ok.
    exact (proj1 (Forall_forall _ _) (splitChar_lines c) y Hy). }
  change (trim (join [LF] l)) with (trimEnd (trimStart (join [LF] l))).
  destruct (trimStart_join l Hs) as [l1 [l2 [E1 E2]]]. rewrite E2.
  rewrite E1 in Hs, He, Hn. apply Forall_app in Hs, He, Hn.
  destruct Hs as [_ Hs], He as [_ He], Hn as [_ Hn].
  destruct (trimEnd_join l2 He) as [l3 [l4 [E3 E4]]]. rewrite E4.
  rewrite E3 in Hs, He, Hn. apply Forall_app in Hs, He, Hn.
  destruct Hs as [Hs _], He as [He _], Hn as [Hn _].
  apply (lines_of_cleaned (fun x => trim x = x) l3 eq_refl); [|exact Hn].
  apply Forall_forall. intros x Hx. unfold trim.
  rewrite (proj1 (Forall_forall _ _) Hs x Hx).
  exact (proj1 (Forall_forall _ _) He x Hx).
Qed.

(* ================================================================= *)
(** * Further properties: what a replacement leaves of the subject *)

Lemma moved_refl : forall st, moved st st.
Proof. intros st. exists []. split; reflexivity. Qed.

Lemma moved_trans : forall a b c, moved a b -> moved b c -> moved a c.
Proof.
  intros a b c [p [P1 P2]] [q [Q1 Q2]]. exists (p ++ q). split.
  - rewrite P1, Q1. apply app_assoc.
  - rewrite Q2, P2, rev_app_distr. apply app_assoc.
Qed.

Lemma oneChar_moved :
  forall p st st', In st' (oneChar p st) -> moved st st'.
Proof.
  intros p [sn [|c t] cp] st' H; unfold oneChar, advance in H; simpl in H;
    [contradiction|].
  destruct (p c); [|contradiction]. destruct H as [<-|[]].
  exists [c]. split; reflexivity.
Qed.

Lemma rep_moved :
  forall step,
    (forall st st', In st' (step st) -> moved st st') ->
    forall fuel min max st st',
      In st' (rep fuel step min max st) -> moved st st'.
Proof.
  intros step Hstep. induction fuel as [|fuel IH]; intros min max st st' H.
  - simpl in H. destruct max as [[|n]|]; destruct min;
      simpl in H; try contradiction; destruct H as [<-|[]]; apply moved_refl.
  - assert (Again :
      In st' (flat_map (fun st1 =>
                if (min =? 0)%nat
                   && (List.length (rest st1) =? List.length (rest st))%nat
                then []
                else rep fuel step (pred min) (option_map pred max) st1)
              (step st)) -> moved st st').
    { intros Hin. apply in_flat_map in Hin. destruct Hin as [st1 [H1 H2]].
      destruct (_ && _); [contradiction|].
      exact (moved_trans _ _ _ (Hstep _ _ H1) (IH _ _ _ _ H2)). }
    cbn [rep] in H.
    destruct max as [[|n]|].
    + destruct H as [<-|[]]. apply moved_refl.
    + destruct min; [|exact (Again H)].
      apply in_app_or in H. destruct H as [H|[<-|[]]];
        [exact (Again H) | apply moved_refl].
    + destruct min; [|exact (Again H)].
      apply in_app_or in H. destruct H as [H|[<-|[]]];
        [exact (Again H) | apply moved_refl].
Qed.

(** The matcher only moves forward in the subject. *)
Lemma run_moved :
  forall ic r st st', In st' (run ic r st) -> moved st st'.
Proof.
  intros ic. induction r as [|a| |neg items|a IHa b IHb|a IHa b IHb|min max a IHa
                             |i a IHa| | | |a IHa];
    intros st st' H; cbn [run] in H.
  - destruct H as [<-|[]]. apply moved_refl.
  - exact (oneChar_moved _ _ _ H).
  - exact (oneChar_moved _ _ _ H).
  - exact (oneChar_moved _ _ _ H).
  - apply in_flat_map in H. destruct H as [mid [H1 H2]].
    exact (moved_trans _ _ _ (IHa _ _ H1) (IHb _ _ H2)).
  - apply in_app_or in H. destruct H as [H|H]; [exact (IHa _ _ H) | exact (IHb _ _ H)].
  - exact (rep_moved _ IHa _ _ _ _ _ H).
  - apply in_map_iff in H. destruct H as [st1 [<- H1]].
    destruct (IHa _ _ H1) as [p [P1 P2]]. exists p. split; assumption.
  - destruct (seen st); [|contradiction]. destruct H as [<-|[]]. apply moved_refl.
  - destruct (rest st); [|contradiction]. destruct H as [<-|[]]. apply moved_refl.
  - destruct (atWordBoundary st); [|contradiction].
    destruct H as [<-|[]]. apply moved_refl.
  - destruct (run ic a st); [|contradiction]. destruct H as [<-|[]]. apply moved_refl.
Qed.

(** A match is a part of the subject, and the matcher stops at its end. *)
Lemma matchAt_subject :
  forall re sn s m st',
    matchAt re (MState sn s []) = Some (m, st') ->
    s = whole m ++ rest st' /\ seen st' = rev (whole m) ++ sn.
Proof.
  intros re sn s m st' H. unfold matchAt in H.
  destruct (run (ignoreCase re) (source re) (MState sn s [])) as [|st1 l] eqn:E;
    [discriminate|].
  injection H as <- <-.
  destruct (run_moved (ignoreCase re) (source re) (MState sn s []) st1) as [p [P1 P2]].
  { rewrite E. left. reflexivity. }
  simpl in P1, P2. clear E. subst s. unfold mkMatch, consumed. cbn [whole rest].
  rewrite length_app.
  replace (List.length p + List.length (rest st1) - List.length (rest st1))
    with (List.length p) by lia.
  rewrite firstn_app, Nat.sub_diag, firstn_all, firstn_O, app_nil_r.
  split; [reflexivity | exact P2].
Qed.

(** What holds of the replacements and of the code units passed over
    holds of the result of [replace]. *)
Lemma replaceFrom_Forall :
  forall (P Q : char -> Prop) re r,
    (forall m, Forall Q (replacement r m)) ->
    (forall sn c t, P c -> passedOver re sn c t -> Q c) ->
    forall fuel sn s,
      List.length s < fuel -> Forall P s ->
      Forall Q (replaceFrom fuel re r sn s).
Proof.
  intros P Q re r Hr Hp. induction fuel as [|fuel IH]; intros sn s Hf Hs; [lia|].
  cbn [replaceFrom].
  destruct (matchAt re (MState sn s [])) as [[m st']|] eqn:E.
  - destruct (matchAt_subject _ _ _ _ _ E) as [E1 E2].
    destruct (whole m) as [|w0 w] eqn:W.
    + destruct s as [|c t]; [apply Hr|].
      apply Forall_app. split; [apply Hr|].
      inversion Hs as [|? ? Hc Ht]; subst.
      constructor.
      * apply (Hp sn c t Hc). unfold passedOver. rewrite E. exact W.
      * apply IH; [simpl in Hf; lia | exact Ht].
    + apply Forall_app. split; [apply Hr|].
      apply IH.
      * rewrite E1 in Hf. rewrite length_app in Hf. simpl in Hf. lia.
      * rewrite E1 in Hs. apply Forall_app in Hs. apply Hs.
  - destruct s as [|c t]; [constructor|].
    inversion Hs as [|? ? Hc Ht]; subst. constructor.
    + apply (Hp sn c t Hc). unfold passedOver. rewrite E. exact I.
    + apply IH; [simpl in Hf; lia | exact Ht].
Qed.

Lemma replaceAll_Forall :
  forall (P Q : char -> Prop) re r s,
    (forall m, Forall Q (replacement r m)) ->
    (forall sn c t, P c -> passedOver re sn c t -> Q c) ->
    Forall P s -> Forall Q (replaceAll re r s).
Proof.
  intros P Q re r s Hr Hp Hs. unfold replaceAll.
  apply (replaceFrom_Forall P Q re r Hr Hp); [lia | exact Hs].
Qed.

Lemma getSubstitution_plain :
  forall matched before after captures t,
    plain t -> getSubstitution matched before after captures t = t.
Proof.
  intros matched before after captures t H.
  induction H as [|c t Hc Ht IH]; [reflexivity|].
  cbn [getSubstitution].
  destruct (c =? 36)%N eqn:E; [apply N.eqb_eq in E; contradiction|].
  cbn [negb]. rewrite IH. reflexivity.
Qed.

(** A replacement string without [$] keeps what holds of the subject
    and of the replacement string. *)
Lemma replaceAll_keeps :
  forall (P : char -> Prop) re t s,
    plain t -> Forall P t -> Forall P s ->
    Forall P (replaceAll re (Template t) s).
Proof.
  intros P re t s Ht Hp Hs.
  apply (replaceAll_Forall P P); [| auto | exact Hs].
  intros m. cbn [replacement]. rewrite getSubstitution_plain by exact Ht. exact Hp.
Qed.

(* ================================================================= *)
(** * Further properties: the character corrections *)

Lemma applyTable_keeps :
  forall (P : char -> Prop) mk table text,
    Forall (fun entry => plain (js (snd entry)) /\ Forall P (js (snd entry))) table ->
    Forall P text ->
    Forall P (TextCorrector.applyTable mk table text).
Proof.
  intros P mk table. unfold TextCorrector.applyTable.
  induction table as [|entry table IH]; intros text Ht Hs; [exact Hs|].
  inversion Ht as [|? ? [H1 H2] Ht']; subst. cbn [fold_left].
  apply IH; [exact Ht'|]. apply replaceAll_keeps; assumption.
Qed.

(** Replacing a code unit everywhere leaves none of it. *)
Lemma replaceAll_char_gone :
  forall d t s,
    plain t -> Forall (fun c => c <> d) t ->
    Forall (fun c => c <> d)
           (replaceAll (RegExp (RSeq (RChr d) REmpty) false) (Template t) s).
Proof.
  intros d t s Hp Ht.
  apply (replaceAll_Forall (fun _ => True) (fun c => c <> d)).
  - intros m. cbn [replacement]. rewrite getSubstitution_plain by exact Hp. exact Ht.
  - intros sn c t' _ Hpass Hc. subst c. unfold passedOver, matchAt in Hpass.
    cbn [source ignoreCase run oneChar rest chrMatch advance seen caps flat_map app]
      in Hpass.
    rewrite N.eqb_refl in Hpass.
    cbn [flat_map run app mkMatch whole] in Hpass.
    unfold consumed in Hpass. cbn [rest List.length] in Hpass.
    replace (S (List.length t') - List.length t') with 1 in Hpass by lia.
    discriminate Hpass.
  - apply Forall_forall. intros; exact I.
Qed.

Lemma applyTable_char_gone :
  forall d mk before key repl after text,
    mk key = RegExp (RSeq (RChr d) REmpty) false ->
    Forall (fun entry => plain (js (snd entry))
                         /\ Forall (fun c => c <> d) (js (snd entry)))
           ((key, repl) :: after) ->
    Forall (fun c => c <> d)
           (TextCorrector.applyTable mk (before ++ (key, repl) :: after) text).
Proof.
  intros d mk before key repl after text Hmk Ht.
  unfold TextCorrector.applyTable. rewrite fold_left_app. cbn [fold_left fst snd].
  inversion Ht as [|? ? [H1 H2] Ht']; subst.
  apply (applyTable_keeps (fun c => c <> d) mk after); [exact Ht'|].
  rewrite Hmk. apply replaceAll_char_gone; assumption.
Qed.

Ltac table_ok :=
  repeat (apply Forall_cons; [split; repeat constructor; discriminate|]);
  apply Forall_nil.

Lemma character_fix_free :
  forall text, afterCharacterFix (TextCorrector.fixCharacterErrors text).
Proof.
  intros text. unfold afterCharacterFix, rewrittenDigit, TextCorrector.fixCharacterErrors.
  set (mk := fun error : string => RegExp (lit error) false).
  assert (H0 : Forall (fun c => c <> 48%N)
                 (TextCorrector.applyTable mk TextCorrector.characterErrors text)).
  { apply (applyTable_char_gone 48%N mk []); [reflexivity | table_ok]. }
  assert (H1 : Forall (fun c => c <> 49%N)
                 (TextCorrector.applyTable mk TextCorrector.characterErrors text)).
  { apply (applyTable_char_gone 49%N mk (firstn 1 TextCorrector.characterErrors));
      [reflexivity | table_ok]. }
  assert (H5 : Forall (fun c => c <> 53%N)
                 (TextCorrector.applyTable mk TextCorrector.characterErrors text)).
  { apply (applyTable_char_gone 53%N mk (firstn 2 TextCorrector.characterErrors));
      [reflexivity | table_ok]. }
  assert (H8 : Forall (fun c => c <> 56%N)
                 (TextCorrector.applyTable mk TextCorrector.characterErrors text)).
  { apply (applyTable_char_gone 56%N mk (firstn 3 TextCorrector.characterErrors));
      [reflexivity | table_ok]. }
  rewrite Forall_forall in *. intros c Hc [E|[E|[E|[E|[]]]]]; subst c.
  - exact (H0 _ Hc eq_refl).
  - exact (H1 _ Hc eq_refl).
  - exact (H5 _ Hc eq_refl).
  - exact (H8 _ Hc eq_refl).
Qed.

Lemma matchAt_chr :
  forall d sn s,
    matchAt (RegExp (RSeq (RChr d) REmpty) false) (MState sn s [])
    = match s with
      | c :: t => if (c =? d)%N
                  then Some (JsMatch [c] [] (rev sn) t, MState (c :: sn) t [])
                  else None
      | [] => None
      end.
Proof.
  intros d sn [|c t]; [reflexivity|].
  unfold matchAt.
  cbn [source ignoreCase run oneChar rest chrMatch advance seen caps flat_map app].
  rewrite (N.eqb_sym d c).
  destruct (c =? d)%N eqn:E; [|reflexivity].
  cbn [flat_map run app]. unfold mkMatch, consumed.
  cbn [rest List.length seen caps source ngroups seq List.map Nat.add Nat.max].
  replace (S (List.length t) - List.length t) with 1 by lia.
  reflexivity.
Qed.

(** Replacing the code unit [d] by [x] everywhere. *)
Lemma replaceFrom_chr :
  forall d x fuel sn s,
    x <> 36%N ->
    List.length s < fuel ->
    replaceFrom fuel (RegExp (RSeq (RChr d) REmpty) false) (Template [x]) sn s
    = List.map (fun c => if (c =? d)%N then x else c) s.
Proof.
  intros d x fuel. induction fuel as [|fuel IH]; intros sn s Hx Hfuel; [lia|].
  cbn [replaceFrom]. rewrite matchAt_chr.
  destruct s as [|c t]; [reflexivity|].
  cbn [List.map]. destruct (c =? d)%N eqn:E.
  - cbn [whole replacement seen rest].
    rewrite getSubstitution_plain by (constructor; [exact Hx | constructor]).
    cbn [app]. f_equal. apply IH; [exact Hx | simpl in Hfuel; lia].
  - f_equal. apply IH; [exact Hx | simpl in Hfuel; lia].
Qed.

Lemma digits_become_letters :
  forall text,
    TextCorrector.applyTable (fun error => RegExp (lit error) false)
      (firstn 4 TextCorrector.characterErrors) text
    = List.map digitLetter text.
Proof.
  intros text. unfold TextCorrector.applyTable.
  cbn [firstn TextCorrector.characterErrors fold_left fst snd].
  unfold replaceAll.
  change (RegExp (lit "0") false) with (RegExp (RSeq (RChr 48%N) REmpty) false).
  change (RegExp (lit "1") false) with (RegExp (RSeq (RChr 49%N) REmpty) false).
  change (RegExp (lit "5") false) with (RegExp (RSeq (RChr 53%N) REmpty) false).
  change (RegExp (lit "8") false) with (RegExp (RSeq (RChr 56%N) REmpty) false).
  change (js "o") with [111%N]. change (js "l") with [108%N].
  change (js "S") with [83%N]. change (js "B") with [66%N].
  rewrite !replaceFrom_chr by (try discriminate; rewrite ?length_map; lia).
  rewrite !map_map.
  apply map_ext. intros c. unfold digitLetter.
  destruct (c =? 48)%N eqn:E0; [reflexivity|].
  destruct (c =? 49)%N eqn:E1; [reflexivity|].
  destruct (c =? 53)%N eqn:E5; [reflexivity|].
  reflexivity.
Qed.

Lemma character_fix_digits :
  forall text,
    TextCorrector.fixCharacterErrors text
    = TextCorrector.applyTable (fun error => RegExp (lit error) false)
        (skipn 4 TextCorrector.characterErrors) (List.map digitLetter text).
Proof.
  intros text. unfold TextCorrector.fixCharacterErrors.
  rewrite <- digits_become_letters.
  rewrite <- (firstn_skipn 4 TextCorrector.characterErrors) at 1.
  unfold TextCorrector.applyTable. apply fold_left_app.
Qed.

(** X16.  [fixCharacterErrors] first turns every 0, 1, 5 and 8 of the text
    into the letter o, l, S and B, leaving the other code units as they
    are, and then applies its seven corrections of letter pairs to that
    text; the text it returns contains none of the four digits. *)
Theorem character_fix_rewrites_0158 :
  forall text,
    TextCorrector.fixCharacterErrors text
    = TextCorrector.applyTable (fun error => RegExp (lit error) false)
        (skipn 4 TextCorrector.characterErrors) (List.map digitLetter text)
    /\ afterCharacterFix (TextCorrector.fixCharacterErrors text).
Proof.
  intros text. split; [apply character_fix_digits | apply character_fix_free].
Qed.

(* ================================================================= *)
(** * Further properties: anchors *)

(** A repetition of a class at a position: the longest run of the class
    there, when it is long enough. *)
Lemma matchAt_classRun :
  forall a p,
    (forall st, run false a st = oneChar p st) ->
    ngroups a = 0 ->
    forall k sn s,
      matchAt (RegExp (RRep k None a) false) (MState sn s [])
      = let n := prefixLen p s in
        if (k <=? n)%nat
        then Some (JsMatch (firstn n s) [] (rev sn) (skipn n s),
                   MState (rev (firstn n s) ++ sn) (skipn n s) [])
        else None.
Proof.
  intros a p Ha Hg k sn s. unfold matchAt. cbn [source ignoreCase run].
  pose proof (rep_class_head (run false a) p Ha
                (k + List.length s + 1) k (MState sn s [])) as H.
  simpl rest in H. pose proof (prefixLen_le p s) as Hle.
  specialize (H ltac:(lia)).
  cbv zeta. destruct (k <=? prefixLen p s)%nat.
  - destruct (rep _ _ _ _ _) as [|st' l]; [discriminate|].
    simpl in H. injection H as ->.
    rewrite advanceN_split by exact Hle.
    unfold mkMatch, consumed. cbn [source ngroups rest caps seen]. rewrite Hg.
    rewrite length_skipn.
    replace (List.length s - (List.length s - prefixLen p s))
      with (prefixLen p s) by lia.
    reflexivity.
  - destruct (rep _ _ _ _ _) as [|st' l]; [reflexivity | discriminate].
Qed.

Lemma squeeze_run :
  forall p t s, squeeze p t true s = squeeze p t false (skipn (prefixLen p s) s).
Proof.
  intros p t. induction s as [|c s IH]; [reflexivity|].
  cbn [squeeze prefixLen]. destruct (p c) eqn:E.
  - cbn [skipn]. exact IH.
  - cbn [skipn squeeze]. rewrite E. reflexivity.
Qed.

(** [replace] of the runs of a class by a string without [$]. *)
Lemma replaceFrom_squeeze :
  forall a p t,
    (forall st, run false a st = oneChar p st) ->
    ngroups a = 0 ->
    plain t ->
    forall fuel sn s,
      List.length s < fuel ->
      replaceFrom fuel (RegExp (RRep 1 None a) false) (Template t) sn s
      = squeeze p t false s.
Proof.
  intros a p t Ha Hg Ht. induction fuel as [|fuel IH]; intros sn s Hf; [lia|].
  cbn [replaceFrom]. rewrite (matchAt_classRun a p Ha Hg). cbv zeta.
  destruct s as [|c s]; [reflexivity|].
  cbn [prefixLen squeeze]. destruct (p c) eqn:E.
  - cbn [Nat.leb whole firstn Regex.seen Regex.rest skipn replacement].
    rewrite getSubstitution_plain by exact Ht.
    rewrite IH, squeeze_run; [reflexivity|].
    rewrite length_skipn. simpl in Hf. lia.
  - cbn [Nat.leb]. rewrite IH by (simpl in Hf; lia). reflexivity.
Qed.

Lemma run_chr :
  forall d st, run false (RChr d) st = oneChar (fun c => (d =? c)%N) st.
Proof. reflexivity. Qed.

Lemma run_negated_class :
  forall items st,
    run false (RSet true items) st
    = oneChar (fun c => negb (existsb (fun it => citemMatch it c) items)) st.
Proof.
  intros items st. cbn [run]. apply oneChar_ext. intros c.
  unfold itemsMatch. cbn [andb]. rewrite orb_false_r.
  destruct (existsb _ items); reflexivity.
Qed.

(** [replace] of the code units outside a class by nothing. *)
Lemma replaceFrom_filter :
  forall items fuel sn s,
    List.length s < fuel ->
    replaceFrom fuel (RegExp (RSet true items) false) (Template []) sn s
    = filter (fun c => existsb (fun it => citemMatch it c) items) s.
Proof.
  intros items. induction fuel as [|fuel IH]; intros sn s Hf; [lia|].
  cbn [replaceFrom]. unfold matchAt. cbn [source ignoreCase].
  rewrite run_negated_class.
  destruct s as [|c s]; [reflexivity|].
  rewrite oneChar_cons. cbn [filter].
  destruct (existsb (fun it => citemMatch it c) items) eqn:E; cbn [negb].
  - rewrite IH by (simpl in Hf; lia). reflexivity.
  - unfold mkMatch, consumed. cbn [whole rest List.length].
    replace (S (List.length s) - List.length s) with 1 by lia.
    cbn [firstn replacement getSubstitution app Regex.seen Regex.rest].
    apply IH. simpl in Hf. lia.
Qed.

Lemma matchAt_endHyphen_later :
  forall x sn c t,
    matchAt endHyphen (MState (x :: sn) (c :: t) [])
    = match t with
      | [] => if isHyphen c
              then Some (JsMatch [c] [] (rev (x :: sn)) [], MState (c :: x :: sn) [] [])
              else None
      | _ :: _ => None
      end.
Proof.
  intros x sn c t. unfold matchAt, endHyphen, isHyphen.
  cbn [source ignoreCase run seen flat_map app]. rewrite oneChar_cons.
  cbn [chrMatch]. destruct (45 =? c)%N; destruct t; reflexivity.
Qed.

Lemma matchAt_endHyphen_end :
  forall sn, matchAt endHyphen (MState sn [] []) = None.
Proof.
  intros [|x sn]; reflexivity.
Qed.

Lemma matchAt_endHyphen_first :
  forall c t,
    matchAt endHyphen (MState [] (c :: t) [])
    = if isHyphen c
      then Some (JsMatch [c] [] [] t, MState [c] t [])
      else None.
Proof.
  intros c t. unfold matchAt, endHyphen, isHyphen.
  cbn [source ignoreCase run seen flat_map app]. rewrite !oneChar_cons, app_nil_r.
  cbn [chrMatch]. destruct (45 =? c)%N; [|reflexivity].
  cbn [app]. unfold mkMatch, consumed. cbn [rest List.length seen rev source ngroups
                                            Nat.max seq List.map].
  replace (S (List.length t) - List.length t) with 1 by lia. reflexivity.
Qed.

Lemma replaceFrom_dropLast :
  forall fuel sn s,
    sn <> [] -> List.length s < fuel ->
    replaceFrom fuel endHyphen (Template []) sn s = dropLastHyphen s.
Proof.
  induction fuel as [|fuel IH]; intros sn s Hsn Hf; [lia|].
  destruct sn as [|x sn]; [contradiction|].
  cbn [replaceFrom].
  destruct s as [|c t]; [reflexivity|].
  rewrite matchAt_endHyphen_later. cbn [dropLastHyphen].
  destruct t as [|d t].
  - destruct (isHyphen c).
    + cbn [whole replacement getSubstitution app Regex.seen Regex.rest].
      destruct fuel; [simpl in Hf; lia|].
      cbn [replaceFrom]. rewrite matchAt_endHyphen_end. reflexivity.
    + destruct fuel; [simpl in Hf; lia|].
      cbn [replaceFrom]. rewrite matchAt_endHyphen_end. reflexivity.
  - f_equal. apply IH; [discriminate | cbn [List.length] in *; lia].
Qed.

Lemma replaceAll_endHyphen :
  forall s, replaceAll endHyphen (Template []) s = dropEndHyphens s.
Proof.
  intros [|c t]; [reflexivity|].
  unfold replaceAll. cbn [replaceFrom].
  rewrite matchAt_endHyphen_first. cbn [dropEndHyphens].
  destruct (isHyphen c) eqn:E.
  - cbn [whole replacement getSubstitution app Regex.seen Regex.rest].
    apply replaceFrom_dropLast; [discriminate | simpl; lia].
  - rewrite replaceFrom_dropLast by (discriminate || simpl; lia).
    cbn [dropLastHyphen]. rewrite E. destruct t; reflexivity.
Qed.

(** [generateAnchor], step by step. *)
Lemma generateAnchor_steps :
  forall text,
    MarkdownGenerator.generateAnchor text
    = dropEndHyphens
        (squeeze isHyphen [45%N] false
           (squeeze isSpace [45%N] false
              (filter anchorChar (toLowerCase text)))).
Proof.
  intros text. unfold MarkdownGenerator.generateAnchor. cbv zeta.
  change (chr "-") with 45%N. change (js "-") with [45%N].
  fold endHyphen. rewrite replaceAll_endHyphen. f_equal.
  unfold replaceAll, plus.
  rewrite (replaceFrom_squeeze (RChr 45%N) isHyphen [45%N] (run_chr 45%N) eq_refl)
    by (repeat constructor; discriminate || lia).
  f_equal.
  rewrite (replaceFrom_squeeze sp isSpace [45%N] run_sp eq_refl)
    by (repeat constructor; discriminate || lia).
  f_equal.
  apply replaceFrom_filter. lia.
Qed.

Ltac char_facts :=
  unfold slugChar, anchorChar, isHyphen, isSpace, isWordChar, isLower, isUpper,
         isDigit, inRange, lowerChar in *;
  cbn [existsb citemMatch] in *;
  unfold isSpace, isWordChar, isLower, isUpper, isDigit, inRange in *;
  cbn [existsb] in *.

Ltac char_lia :=
  char_facts;
  repeat match goal with
         | H : _ = true |- _ =>
             first [ apply andb_true_iff in H; destruct H
                   | apply orb_true_iff in H; destruct H
                   | apply N.eqb_eq in H
                   | apply N.leb_le in H
                   | discriminate H ]
         | H : _ = false |- _ =>
             first [ apply orb_false_iff in H; destruct H
                   | apply N.eqb_neq in H
                   | apply N.leb_gt in H ]
         end;
  repeat match goal with
         | |- _ = false =>
             first [ apply orb_false_iff; split
                   | apply N.eqb_neq
                   | apply andb_false_iff; first [left; apply N.leb_gt; lia
                                                 | right; apply N.leb_gt; lia]
                   | reflexivity ]
         end;
  try lia.

Lemma lowerChar_not_upper : forall c, isUpper (lowerChar c) = false.
Proof.
  intros c. unfold lowerChar. destruct (isUpper c) eqn:E; [|exact E].
  char_lia.
Qed.

Lemma slug_of_kept :
  forall c,
    isUpper c = false -> anchorChar c = true -> isSpace c = false ->
    slugChar c = true.
Proof.
  intros c Hu Ha Hs. unfold anchorChar in Ha. cbn [existsb citemMatch] in Ha.
  rewrite Hs, orb_false_r in Ha. cbn [orb] in Ha.
  unfold slugChar, isHyphen. unfold isWordChar in Ha. rewrite Hu in Ha.
  rewrite orb_false_r in Ha.
  destruct (isLower c), (isDigit c), (c =? 95)%N, (45 =? c)%N;
    simpl in *; congruence.
Qed.

Lemma slugChar_facts :
  forall c,
    slugChar c = true ->
    lowerChar c = c /\ anchorChar c = true /\ isSpace c = false.
Proof.
  intros c H. split; [|split].
  - unfold lowerChar. destruct (isUpper c) eqn:E; [|reflexivity]. exfalso. char_lia.
  - unfold slugChar, isHyphen in H. unfold anchorChar. cbn [existsb citemMatch].
    unfold isWordChar.
    destruct (isLower c), (isDigit c), (c =? 95)%N, (45 =? c)%N;
      simpl in *; try congruence; rewrite ?orb_true_r; reflexivity.
  - char_lia.
Qed.

Lemma squeeze_Forall :
  forall (P Q : char -> Prop) p t,
    Forall Q t ->
    (forall c, P c -> p c = false -> Q c) ->
    forall s inRun, Forall P s -> Forall Q (squeeze p t inRun s).
Proof.
  intros P Q p t Ht Hpq. induction s as [|c s IH]; intros b Hs; [constructor|].
  inversion Hs as [|? ? Hc Hs']; subst. cbn [squeeze].
  destruct (p c) eqn:E.
  - destruct b; [apply IH; exact Hs'|].
    apply Forall_app. split; [exact Ht | apply IH; exact Hs'].
  - constructor; [exact (Hpq c Hc E) | apply IH; exact Hs'].
Qed.

Lemma squeeze_hyphens :
  forall s inRun,
    noDoubleHyphen (squeeze isHyphen [45%N] inRun s) = true
    /\ (inRun = true -> headIs isHyphen (squeeze isHyphen [45%N] true s) = false).
Proof.
  induction s as [|c s IH]; intros b; [split; reflexivity|].
  cbn [squeeze]. destruct (isHyphen c) eqn:E.
  - destruct (IH true) as [I1 I2]. destruct b.
    + split; [exact I1 | intros _; exact (I2 eq_refl)].
    + split; [|discriminate]. cbn [app noDoubleHyphen].
      rewrite (I2 eq_refl), I1, andb_false_r. reflexivity.
  - destruct (IH false) as [I1 _]. split.
    + cbn [noDoubleHyphen]. rewrite E, I1. reflexivity.
    + intros _. cbn [headIs]. exact E.
Qed.

Lemma dropLastHyphen_Forall :
  forall (P : char -> Prop) s, Forall P s -> Forall P (dropLastHyphen s).
Proof.
  intros P s H. induction H as [|c s Hc Hs IH]; [constructor|].
  cbn [dropLastHyphen]. destruct s as [|d s].
  - destruct (isHyphen c); [constructor | constructor; [exact Hc | constructor]].
  - constructor; [exact Hc | exact IH].
Qed.

Lemma dropLastHyphen_head :
  forall s, headIs isHyphen s = false -> headIs isHyphen (dropLastHyphen s) = false.
Proof.
  intros [|c [|d s]] H; cbn [dropLastHyphen]; [reflexivity | | exact H].
  destruct (isHyphen c); [reflexivity | exact H].
Qed.

Lemma dropLastHyphen_noDouble :
  forall s, noDoubleHyphen s = true -> noDoubleHyphen (dropLastHyphen s) = true.
Proof.
  induction s as [|c s IH]; intros H; [reflexivity|].
  cbn [noDoubleHyphen] in H. apply andb_true_iff in H. destruct H as [H1 H2].
  cbn [dropLastHyphen]. destruct s as [|d s].
  - destruct (isHyphen c); [reflexivity|].
    cbn [noDoubleHyphen headIs]. rewrite andb_false_r. reflexivity.
  - cbn [noDoubleHyphen]. rewrite (IH H2), andb_true_r.
    destruct (isHyphen c) eqn:E; [|reflexivity].
    cbn [headIs andb negb] in H1. apply negb_true_iff in H1.
    rewrite dropLastHyphen_head by exact H1. reflexivity.
Qed.

Lemma dropLastHyphen_last :
  forall s,
    noDoubleHyphen s = true -> lastIs isHyphen (dropLastHyphen s) = false.
Proof.
  induction s as [|c s IH]; intros H; [reflexivity|].
  cbn [noDoubleHyphen] in H. apply andb_true_iff in H. destruct H as [H1 H2].
  cbn [dropLastHyphen]. destruct s as [|d s].
  - destruct (isHyphen c) eqn:E; [reflexivity|]. unfold lastIs. simpl. exact E.
  - specialize (IH H2). unfold lastIs in *. cbn [rev].
    destruct (rev (dropLastHyphen (d :: s))) as [|z zs] eqn:R.
    + (* the rest has become empty: [d] was the last hyphen *)
      apply (f_equal (@rev _)) in R. rewrite rev_involutive in R. simpl in R.
      destruct s as [|e s]; [|cbn [dropLastHyphen] in R; discriminate].
      cbn [dropLastHyphen] in R. destruct (isHyphen d) eqn:Ed; [|discriminate].
      cbn [app headIs]. cbn [headIs andb negb] in H1. rewrite Ed, andb_true_r in H1.
      apply negb_true_iff in H1. exact H1.
    + cbn [app headIs]. exact IH.
Qed.

Lemma includes_double_hyphen :
  forall s, noDoubleHyphen s = true -> includes (js "--") s = false.
Proof.
  change (js "--") with [45%N; 45%N].
  induction s as [|c s IH]; intros H; [reflexivity|].
  cbn [noDoubleHyphen] in H. apply andb_true_iff in H. destruct H as [H1 H2].
  cbn [includes]. rewrite (IH H2), orb_false_r.
  cbn [startsWith]. destruct s as [|d s]; [apply andb_false_r|].
  cbn [startsWith headIs] in *. unfold isHyphen in H1. rewrite andb_true_r.
  apply negb_true_iff in H1. exact H1.
Qed.

Lemma endsWith_hyphen :
  forall s, endsWith (js "-") s = lastIs isHyphen s.
Proof.
  intros s. unfold endsWith, lastIs. change (rev (js "-")) with [45%N].
  destruct (rev s) as [|c t]; [reflexivity|].
  cbn [startsWith headIs]. apply andb_true_r.
Qed.

Lemma startsWith_hyphen :
  forall s, startsWith (js "-") s = headIs isHyphen s.
Proof.
  intros [|c t]; [reflexivity|]. change (js "-") with [45%N].
  cbn [startsWith headIs]. apply andb_true_r.
Qed.

Lemma anchor_normal_form :
  forall text,
    Forall (fun c => slugChar c = true) (MarkdownGenerator.generateAnchor text)
    /\ noDoubleHyphen (MarkdownGenerator.generateAnchor text) = true
    /\ headIs isHyphen (MarkdownGenerator.generateAnchor text) = false
    /\ lastIs isHyphen (MarkdownGenerator.generateAnchor text) = false.
Proof.
  intros text. rewrite generateAnchor_steps.
  set (s1 := filter anchorChar (toLowerCase text)).
  set (s2 := squeeze isSpace [45%N] false s1).
  set (s3 := squeeze isHyphen [45%N] false s2).
  assert (H1 : Forall (fun c => isUpper c = false /\ anchorChar c = true) s1).
  { apply Forall_forall. intros c Hc. apply filter_In in Hc. destruct Hc as [Hc Ha].
    split; [|exact Ha]. apply in_map_iff in Hc. destruct Hc as [x [<- _]].
    apply lowerChar_not_upper. }
  assert (H2 : Forall (fun c => slugChar c = true) s2).
  { apply (squeeze_Forall (fun c => isUpper c = false /\ anchorChar c = true)
             (fun c => slugChar c = true) isSpace [45%N]);
      [repeat constructor | | exact H1].
    intros c [Hu Ha] Hs. apply slug_of_kept; assumption. }
  assert (H3 : Forall (fun c => slugChar c = true) s3).
  { apply (squeeze_Forall (fun c => slugChar c = true) (fun c => slugChar c = true)
             isHyphen [45%N]); [repeat constructor | auto | exact H2]. }
  destruct (squeeze_hyphens s2 false) as [D3 _]. fold s3 in D3.
  unfold dropEndHyphens. destruct s3 as [|c s3]; [repeat split; constructor|].
  cbn [noDoubleHyphen] in D3. apply andb_true_iff in D3. destruct D3 as [D3 D4].
  destruct (isHyphen c) eqn:E.
  - cbn [andb negb] in D3. apply negb_true_iff in D3.
    inversion H3; subst. split; [|split; [|split]].
    + apply dropLastHyphen_Forall. assumption.
    + apply dropLastHyphen_noDouble. exact D4.
    + apply dropLastHyphen_head. exact D3.
    + apply dropLastHyphen_last. exact D4.
  - assert (D : noDoubleHyphen (c :: s3) = true).
    { cbn [noDoubleHyphen]. rewrite E, D4. reflexivity. }
    split; [|split; [|split]].
    + apply dropLastHyphen_Forall. exact H3.
    + apply dropLastHyphen_noDouble. exact D.
    + apply dropLastHyphen_head. exact E.
    + apply dropLastHyphen_last. exact D.
Qed.

(** X17.  An anchor is made of lower-case letters, digits, underscores and
    hyphens; it has no two hyphens in a row, and no hyphen at its start
    or at its end. *)
Theorem anchor_shape :
  forall text,
    Forall (fun c => slugChar c = true) (MarkdownGenerator.generateAnchor text)
    /\ includes (js "--") (MarkdownGenerator.generateAnchor text) = false
    /\ startsWith (js "-") (MarkdownGenerator.generateAnchor text) = false
    /\ endsWith (js "-") (MarkdownGenerator.generateAnchor text) = false.
Proof.
  intros text. destruct (anchor_normal_form text) as [H1 [H2 [H3 H4]]].
  split; [exact H1|]. split; [exact (includes_double_hyphen _ H2)|].
  rewrite startsWith_hyphen, endsWith_hyphen. split; assumption.
Qed.

Lemma squeeze_none :
  forall p t s,
    Forall (fun c => p c = false) s -> squeeze p t false s = s.
Proof.
  intros p t s H. induction H as [|c s Hc Hs IH]; [reflexivity|].
  cbn [squeeze]. rewrite Hc, IH. reflexivity.
Qed.

Lemma squeeze_single_hyphens :
  forall s,
    noDoubleHyphen s = true ->
    squeeze isHyphen [45%N] false s = s
    /\ (headIs isHyphen s = false -> squeeze isHyphen [45%N] true s = s).
Proof.
  induction s as [|c s IH]; intros H; [split; reflexivity|].
  cbn [noDoubleHyphen] in H. apply andb_true_iff in H. destruct H as [H1 H2].
  destruct (IH H2) as [I1 I2]. cbn [squeeze headIs].
  destruct (isHyphen c) eqn:E.
  - cbn [andb negb] in H1. apply negb_true_iff in H1. split; [|discriminate].
    rewrite (I2 H1). unfold isHyphen in E. apply N.eqb_eq in E. subst c. reflexivity.
  - split; [|intros _]; rewrite I1; reflexivity.
Qed.

Lemma dropLastHyphen_none :
  forall s, lastIs isHyphen s = false -> dropLastHyphen s = s.
Proof.
  induction s as [|c s IH]; intros H; [reflexivity|].
  cbn [dropLastHyphen]. destruct s as [|d s].
  - unfold lastIs in H. simpl in H. rewrite H. reflexivity.
  - f_equal. apply IH. unfold lastIs in *. cbn [rev] in *.
    destruct (rev s ++ [d]) as [|z zs] eqn:R.
    + destruct (rev s); discriminate.
    + cbn [app headIs] in *. exact H.
Qed.

(** X18.  The anchor of an anchor is that anchor. *)
Theorem generateAnchor_idempotent :
  forall text,
    MarkdownGenerator.generateAnchor (MarkdownGenerator.generateAnchor text)
    = MarkdownGenerator.generateAnchor text.
Proof.
  intros text. destruct (anchor_normal_form text) as [H1 [H2 [H3 H4]]].
  set (a := MarkdownGenerator.generateAnchor text) in *.
  rewrite (generateAnchor_steps a).
  assert (E0 : toLowerCase a = a).
  { unfold toLowerCase. clear H2 H3 H4.
    induction H1 as [|c s Hc Hs IH]; [reflexivity|]. cbn [List.map].
    rewrite IH. destruct (slugChar_facts c Hc) as [-> _]. reflexivity. }
  rewrite E0.
  assert (E1 : filter anchorChar a = a).
  { clear H2 H3 H4 E0.
    induction H1 as [|c s Hc Hs IH]; [reflexivity|]. cbn [filter].
    destruct (slugChar_facts c Hc) as [_ [-> _]]. rewrite IH. reflexivity. }
  rewrite E1.
  rewrite (squeeze_none isSpace).
  2: { eapply Forall_impl; [|exact H1]. intros c Hc. apply (slugChar_facts c Hc). }
  rewrite (proj1 (squeeze_single_hyphens a H2)).
  unfold dropEndHyphens. destruct a as [|c s]; [reflexivity|].
  cbn [headIs] in H3. rewrite H3. apply dropLastHyphen_none. exact H4.
Qed.

(* ================================================================= *)
(** * Further properties: the paragraphs keep the text *)

Lemma spaced_app : forall a b, spaced (a ++ b) = spaced a ++ spaced b.
Proof.
  intros a b. unfold spaced. rewrite filter_app, flat_map_app. reflexivity.
Qed.

Lemma spaced_one :
  forall x, spaced [x] = if truthy x then x ++ [32%N] else [].
Proof.
  intros x. unfold spaced. cbn [filter]. destruct (truthy x); [|reflexivity].
  cbn [flat_map]. apply app_nil_r.
Qed.

Lemma spaced_paragraph :
  forall c paragraph,
    Forall (fun l => truthy l = true) (c :: paragraph) ->
    join (js " ") (c :: paragraph) ++ [32%N] = spaced (c :: paragraph)
    /\ truthy (join (js " ") (c :: paragraph)) = true.
Proof.
  intros c paragraph. revert c.
  induction paragraph as [|d paragraph IH]; intros c H;
    inversion H as [|? ? Hc Hp]; subst.
  - split; [|exact Hc]. rewrite spaced_one, Hc. reflexivity.
  - destruct (IH d Hp) as [I1 I2]. split.
    + change (join (js " ") (c :: d :: paragraph))
        with (c ++ [32%N] ++ join (js " ") (d :: paragraph)).
      change (c :: d :: paragraph) with ([c] ++ d :: paragraph).
      rewrite spaced_app, spaced_one, Hc, <- I1, <- !app_assoc. reflexivity.
    + change (join (js " ") (c :: d :: paragraph))
        with (c ++ [32%N] ++ join (js " ") (d :: paragraph)).
      destruct c; [discriminate | reflexivity].
Qed.

Lemma spaced_flush :
  forall s,
    Forall (fun l => truthy l = true) (TextCorrector.currentParagraph s) ->
    spaced (TextCorrector.flush s)
    = spaced (TextCorrector.processedLines s)
      ++ spaced (TextCorrector.currentParagraph s).
Proof.
  intros [P [|c cp]] H; unfold TextCorrector.flush;
    cbn [TextCorrector.currentParagraph TextCorrector.processedLines] in *.
  - symmetry. apply app_nil_r.
  - destruct (spaced_paragraph c cp H) as [E T].
    rewrite spaced_app, spaced_one, T, E. reflexivity.
Qed.

Lemma structureStep_text :
  forall s raw,
    Forall (fun l => truthy l = true) (TextCorrector.currentParagraph s) ->
    let s' := TextCorrector.structureStep s raw in
    Forall (fun l => truthy l = true) (TextCorrector.currentParagraph s')
    /\ spaced (TextCorrector.processedLines s') ++ spaced (TextCorrector.currentParagraph s')
       = (spaced (TextCorrector.processedLines s) ++ spaced (TextCorrector.currentParagraph s))
         ++ (if isPageMarker raw then [] else spaced [trim raw]).
Proof.
  intros s raw H. cbv zeta. unfold TextCorrector.structureStep, isPageMarker.
  destruct (test TextCorrector.pageMarker (trim raw)).
  - split; [exact H | symmetry; apply app_nil_r].
  - destruct (truthy (trim raw)) eqn:T; cbn [negb].
    + destruct (TextCorrector.shouldMergeWithPrevious (trim raw)
                  (TextCorrector.currentParagraph s));
        cbn [TextCorrector.currentParagraph TextCorrector.processedLines].
      * split; [apply Forall_app; split; [exact H | repeat constructor; exact T]|].
        rewrite spaced_app, app_assoc. reflexivity.
      * split; [repeat constructor; exact T|].
        rewrite (spaced_flush s H). reflexivity.
    + cbn [TextCorrector.currentParagraph TextCorrector.processedLines].
      split; [constructor|].
      rewrite spaced_app, (spaced_flush s H), !spaced_one, T. cbn [truthy]. rewrite !app_nil_r. reflexivity.
Qed.

Lemma fold_structure_text :
  forall lines s,
    Forall (fun l => truthy l = true) (TextCorrector.currentParagraph s) ->
    spaced (TextCorrector.flush (fold_left TextCorrector.structureStep lines s))
    = (spaced (TextCorrector.processedLines s) ++ spaced (TextCorrector.currentParagraph s))
      ++ spaced (List.map trim (filter (fun raw => negb (isPageMarker raw)) lines)).
Proof.
  induction lines as [|raw lines IH]; intros s H.
  - cbn [fold_left filter List.map]. rewrite (spaced_flush s H).
    symmetry. apply app_nil_r.
  - cbn [fold_left filter].
    destruct (structureStep_text s raw H) as [H' E]. rewrite (IH _ H'), E.
    destruct (isPageMarker raw); cbn [negb].
    + rewrite app_nil_r. reflexivity.
    + cbn [List.map].
      change (trim raw :: List.map trim (filter (fun r => negb (isPageMarker r)) lines))
        with ([trim raw] ++ List.map trim (filter (fun r => negb (isPageMarker r)) lines)).
      rewrite (spaced_app [trim raw]), <- !app_assoc. reflexivity.
Qed.

(** X19.  [restoreTextStructure] changes where the lines break and
    nothing else: the non-empty logical lines, each followed by a space,
    spell the same text as the non-empty trimmed lines of the input that
    are no page markers. *)
Theorem restoreLines_keeps_text :
  forall lines,
    spaced (TextCorrector.restoreLines lines)
    = spaced (List.map trim (filter (fun raw => negb (isPageMarker raw)) lines)).
Proof.
  intros lines. unfold TextCorrector.restoreLines.
  rewrite fold_structure_text by constructor. reflexivity.
Qed.

(* ================================================================= *)
(** * Further properties: the pages of an extracted text *)

Lemma dropWhile_nil_all :
  forall p (s : jsstring), dropWhile p s = [] -> Forall (fun c => p c = true) s.
Proof.
  induction s as [|c s IH]; intros H; [constructor|].
  simpl in H. destruct (p c) eqn:E; [|discriminate].
  constructor; [exact E | exact (IH H)].
Qed.

Lemma dropWhile_all_back :
  forall p (s : jsstring),
    Forall (fun c => p c = true) (dropWhile p s) -> Forall (fun c => p c = true) s.
Proof.
  induction s as [|c s IH]; intros H; [constructor|].
  simpl in H. destruct (p c) eqn:E; [|exact H].
  constructor; [exact E | exact (IH H)].
Qed.

Lemma dropWhile_all_nil :
  forall p (s : jsstring), Forall (fun c => p c = true) s -> dropWhile p s = [].
Proof.
  intros p s H. induction H as [|c s Hc Hs IH]; [reflexivity|].
  simpl. rewrite Hc. exact IH.
Qed.

(** A text is blank when it is white space only. *)
Lemma trim_nil_iff :
  forall s, trim s = [] <-> Forall (fun c => isSpace c = true) s.
Proof.
  intros s. unfold trim, trimEnd, trimStart. split.
  - intros H. apply dropWhile_all_back.
    apply (f_equal (@rev _)) in H. rewrite rev_involutive in H. simpl in H.
    apply dropWhile_nil_all in H. apply Forall_rev in H.
    rewrite rev_involutive in H. exact H.
  - intros H. rewrite (dropWhile_all_nil _ _ H). reflexivity.
Qed.

Lemma join_Forall_lines :
  forall (P : char -> Prop) sep (l : list jsstring),
    Forall P (join sep l) -> Forall (Forall P) l.
Proof.
  intros P sep l H. destruct l as [|x l]; [constructor|].
  rewrite join_cons in H. apply Forall_app in H. destruct H as [Hx Hl].
  constructor; [exact Hx|].
  induction l as [|y l IH]; [constructor|].
  cbn [List.map List.concat] in Hl. apply Forall_app in Hl. destruct Hl as [Hy Hl].
  apply Forall_app in Hy.
  constructor; [apply Hy | exact (IH Hl)].
Qed.

Lemma blank_page_lines :
  forall l : list jsstring,
    nonBlank (join [LF] l) = false -> filter nonBlank l = [].
Proof.
  intros l H. unfold nonBlank in H.
  assert (E : trim (join [LF] l) = []) by (destruct (trim (join [LF] l)); [reflexivity | discriminate]).
  apply trim_nil_iff in E. apply join_Forall_lines in E. clear H.
  induction E as [|x l Hx Hl IH]; [reflexivity|].
  cbn [filter]. unfold nonBlank at 1.
  rewrite (proj2 (trim_nil_iff x) Hx). exact IH.
Qed.

Lemma firstn_plus :
  forall (A : Type) a b (l : list A),
    firstn (a + b) l = firstn a l ++ firstn b (skipn a l).
Proof.
  intros A a b. induction a as [|a IH]; intros l; [reflexivity|].
  destruct l as [|x l]; [simpl; rewrite firstn_nil; reflexivity|].
  simpl. rewrite IH. reflexivity.
Qed.

Lemma firstn_min_length :
  forall (A : Type) a (l : list A), firstn (Nat.min a (List.length l)) l = firstn a l.
Proof.
  intros A a l. destruct (Nat.le_gt_cases a (List.length l)) as [H|H].
  - rewrite Nat.min_l by exact H. reflexivity.
  - rewrite Nat.min_r by lia. rewrite firstn_all, firstn_all2 by lia. reflexivity.
Qed.

(** The slices that [splitTextIntoPages] takes, put end to end. *)
Lemma slices_concat :
  forall (A : Type) (lines : list A) size k,
    List.concat
      (List.map (fun i => PDFProcessor.slice (i * size)
                            (Nat.min ((i + 1) * size) (List.length lines)) lines)
                (seq 0 k))
    = firstn (k * size) lines.
Proof.
  intros A lines size. induction k as [|k IH]; [reflexivity|].
  rewrite seq_S, map_app, concat_app, IH. cbn [List.map List.concat plus].
  rewrite app_nil_r. unfold PDFProcessor.slice.
  replace (S k * size) with (k * size + size) by lia.
  rewrite firstn_plus. f_equal.
  rewrite <- (firstn_min_length _ size (skipn (k * size) lines)), length_skipn.
  f_equal. lia.
Qed.

Lemma pages_cover :
  forall len numPages,
    1 <= numPages -> len <= numPages * ((len + numPages - 1) / numPages).
Proof.
  intros len n Hn.
  pose proof (Nat.div_mod_eq (len + n - 1) n) as E.
  pose proof (Nat.mod_upper_bound (len + n - 1) n ltac:(lia)) as B.
  lia.
Qed.

Lemma page_lines :
  forall (pieces : list jsstring),
    Forall noNewline pieces ->
    filter nonBlank
      (flat_map (splitChar LF)
         (if (0 <? List.length (trim (join (js "\n") pieces)))%nat
          then [join (js "\n") pieces] else []))
    = filter nonBlank pieces.
Proof.
  intros pieces Hn. change (js "\n") with [LF].
  destruct (0 <? List.length (trim (join [LF] pieces)))%nat eqn:E.
  - cbn [flat_map]. rewrite app_nil_r.
    destruct pieces as [|x l].
    + apply Nat.ltb_lt in E. simpl in E. lia.
    + rewrite splitChar_join by (discriminate || assumption). reflexivity.
  - cbn [flat_map filter]. symmetry. apply blank_page_lines.
    unfold nonBlank. apply Nat.ltb_ge in E.
    destruct (trim (join [LF] pieces)); [reflexivity | simpl in E; lia].
Qed.

Lemma Forall_firstn_lines :
  forall (P : jsstring -> Prop) n l, Forall P l -> Forall P (firstn n l).
Proof.
  intros P n l H. rewrite <- (firstn_skipn n l) in H.
  apply Forall_app in H. apply H.
Qed.

Lemma Forall_skipn_lines :
  forall (P : jsstring -> Prop) n l, Forall P l -> Forall P (skipn n l).
Proof.
  intros P n l H. rewrite <- (firstn_skipn n l) in H.
  apply Forall_app in H. apply H.
Qed.

(** X20.  For two pages or more, [splitTextIntoPages] returns at most as
    many pages as asked for, none of them blank, and the lines of these
    pages that are not blank are those of the text, in the same order:
    only blank lines are lost. *)
Theorem splitTextIntoPages_keeps_lines :
  forall text numPages,
    2 <= numPages ->
    let pages := PDFProcessor.splitTextIntoPages text numPages in
    List.length pages <= numPages
    /\ Forall (fun page => nonBlank page = true) pages
    /\ filter nonBlank (flat_map (splitChar LF) pages)
       = filter nonBlank (splitChar LF text).
Proof.
  intros text numPages Hn. cbv zeta. unfold PDFProcessor.splitTextIntoPages.
  replace (numPages <=? 1)%nat with false by (symmetry; apply Nat.leb_gt; lia).
  change 10%N with LF.
  set (lines := splitChar LF text).
  set (size := (List.length lines + numPages - 1) / numPages).
  match goal with
  | |- context [flat_map ?f (seq 0 numPages)] => set (emit := f)
  end.
  assert (Hl : Forall noNewline lines) by apply splitChar_lines.
  assert (Lines : forall i,
             filter nonBlank (flat_map (splitChar LF) (emit i))
             = filter nonBlank
                 (PDFProcessor.slice (i * size)
                    (Nat.min ((i + 1) * size) (List.length lines)) lines)).
  { intros i. unfold emit. apply page_lines. unfold PDFProcessor.slice.
    apply Forall_firstn_lines, Forall_skipn_lines, Hl. }
  assert (Pages : forall i page, In page (emit i) -> nonBlank page = true).
  { intros i page. unfold emit.
    destruct (0 <? _)%nat eqn:E; [|contradiction].
    intros [<-|[]]. unfold nonBlank. apply Nat.ltb_lt in E.
    destruct (trim _); [simpl in E; lia | reflexivity]. }
  assert (Count : forall i, List.length (emit i) <= 1).
  { intros i. unfold emit. destruct (0 <? _)%nat; simpl; lia. }
  clearbody emit.
  split; [|split].
  - assert (G : forall l, List.length (flat_map emit l) <= List.length l).
    { induction l as [|i l IH]; [simpl; lia|].
      cbn [flat_map]. rewrite length_app. specialize (Count i). simpl. lia. }
    specialize (G (seq 0 numPages)). rewrite length_seq in G. exact G.
  - apply Forall_forall. intros page Hp. apply in_flat_map in Hp.
    destruct Hp as [i [_ Hp]]. exact (Pages i page Hp).
  - assert (G : forall l,
               filter nonBlank (flat_map (splitChar LF) (flat_map emit l))
               = filter nonBlank
                   (List.concat
                      (List.map (fun i => PDFProcessor.slice (i * size)
                                   (Nat.min ((i + 1) * size) (List.length lines)) lines)
                                l))).
    { induction l as [|i l IH]; [reflexivity|].
      cbn [flat_map List.map List.concat].
      rewrite flat_map_app, !filter_app, IH, Lines. reflexivity. }
    rewrite (G (seq 0 numPages)), slices_concat.
    rewrite firstn_all2; [reflexivity|].
    unfold size. apply pages_cover. lia.
Qed.

Lemma splitTextIntoPages_keeps_lines_witness :
  let pages := PDFProcessor.splitTextIntoPages (js "a\nb\n\n\n\nc\nd") 3 in
  List.length pages <= 3
  /\ Forall (fun page => nonBlank page = true) pages
  /\ filter nonBlank (flat_map (splitChar LF) pages)
     = filter nonBlank (splitChar LF (js "a\nb\n\n\n\nc\nd")).
Proof.
  apply (splitTextIntoPages_keeps_lines (js "a\nb\n\n\n\nc\nd") 3). lia.
Defined.

(* ================================================================= *)
(** * Further properties: what trimming the line does to the detectors *)

Lemma rep_caps :
  forall (i : nat) step,
    (forall st st', In st' (step st) -> lookupCap i (caps st') = lookupCap i (caps st)) ->
    forall fuel min max st st',
      In st' (rep fuel step min max st) ->
      lookupCap i (caps st') = lookupCap i (caps st).
Proof.
  intros i step Hstep. induction fuel as [|fuel IH]; intros min max st st' H.
  - simpl in H. destruct max as [[|n]|]; destruct min;
      simpl in H; try contradiction; destruct H as [<-|[]]; reflexivity.
  - assert (Again :
      In st' (flat_map (fun st1 =>
                if (min =? 0)%nat
                   && (List.length (rest st1) =? List.length (rest st))%nat
                then []
                else rep fuel step (pred min) (option_map pred max) st1)
              (step st)) -> lookupCap i (caps st') = lookupCap i (caps st)).
    { intros Hin. apply in_flat_map in Hin. destruct Hin as [st1 [H1 H2]].
      destruct (_ && _); [contradiction|].
      rewrite (IH _ _ _ _ H2). exact (Hstep _ _ H1). }
    cbn [rep] in H.
    destruct max as [[|n]|].
    + destruct H as [<-|[]]. reflexivity.
    + destruct min; [|exact (Again H)].
      apply in_app_or in H. destruct H as [H|[<-|[]]]; [exact (Again H) | reflexivity].
    + destruct min; [|exact (Again H)].
      apply in_app_or in H. destruct H as [H|[<-|[]]]; [exact (Again H) | reflexivity].
Qed.

(** A group keeps its value through a part of the pattern in which it
    does not occur. *)
Lemma run_caps :
  forall ic i r st st',
    hasGroup i r = false ->
    In st' (run ic r st) ->
    lookupCap i (caps st') = lookupCap i (caps st).
Proof.
  intros ic i. induction r as [|a| |neg items|a IHa b IHb|a IHa b IHb|min max a IHa
                               |j a IHa| | | |a IHa];
    intros st st' Hg H; cbn [run] in H; cbn [hasGroup] in Hg.
  - destruct H as [<-|[]]. reflexivity.
  - destruct st as [sn [|c t] cp]; unfold oneChar, advance in H; simpl in H;
      [contradiction|]. destruct (chrMatch ic a c); [|contradiction].
    destruct H as [<-|[]]. reflexivity.
  - destruct st as [sn [|c t] cp]; unfold oneChar, advance in H; simpl in H;
      [contradiction|]. destruct (negb _); [|contradiction].
    destruct H as [<-|[]]. reflexivity.
  - destruct st as [sn [|c t] cp]; unfold oneChar, advance in H; simpl in H;
      [contradiction|]. destruct (xorb _ _); [|contradiction].
    destruct H as [<-|[]]. reflexivity.
  - apply orb_false_iff in Hg. destruct Hg as [Ga Gb].
    apply in_flat_map in H. destruct H as [mid [H1 H2]].
    rewrite (IHb _ _ Gb H2). exact (IHa _ _ Ga H1).
  - apply orb_false_iff in Hg. destruct Hg as [Ga Gb].
    apply in_app_or in H. destruct H as [H|H];
      [exact (IHa _ _ Ga H) | exact (IHb _ _ Gb H)].
  - apply (rep_caps i (run ic a) (fun s s' => IHa s s' Hg) _ _ _ _ _ H).
  - apply orb_false_iff in Hg. destruct Hg as [Gj Ga].
    apply in_map_iff in H. destruct H as [st1 [<- H1]].
    unfold setCap. cbn [caps lookupCap]. rewrite Gj. exact (IHa _ _ Ga H1).
  - destruct (seen st); [|contradiction]. destruct H as [<-|[]]. reflexivity.
  - destruct (rest st); [|contradiction]. destruct H as [<-|[]]. reflexivity.
  - destruct (atWordBoundary st); [|contradiction]. destruct H as [<-|[]]. reflexivity.
  - destruct (run ic a st); [|contradiction]. destruct H as [<-|[]]. reflexivity.
Qed.

(** A pattern that starts with [^] matches at the start or not at all. *)
Lemma search_anchored :
  forall ic r s sn,
    sn <> [] -> search (RegExp (RSeq RBol r) ic) sn s = None.
Proof.
  intros ic r. induction s as [|c s IH]; intros sn Hsn;
    (destruct sn as [|x sn]; [contradiction|]).
  - reflexivity.
  - cbn [search]. unfold matchAt. cbn [source ignoreCase run seen flat_map].
    apply IH. discriminate.
Qed.

Lemma exec_anchored :
  forall ic r s,
    exec (RegExp (RSeq RBol r) ic) s
    = match run ic r (MState [] s []) with
      | st' :: _ => Some (mkMatch (RegExp (RSeq RBol r) ic) (MState [] s []) st')
      | [] => None
      end.
Proof.
  intros ic r s. unfold exec.
  destruct s as [|c s]; cbn [search]; unfold matchAt;
    cbn [source ignoreCase run seen flat_map]; rewrite app_nil_r;
    destruct (run ic r _); try reflexivity.
  apply search_anchored. discriminate.
Qed.

Lemma star_sp_none :
  forall s cp,
    headIs isSpace s = false ->
    run false (star sp) (MState [] s cp) = [MState [] s cp].
Proof.
  intros s cp H. unfold star. cbn [run].
  rewrite (rep_class_all (run false sp) isSpace run_sp)
    by (cbn [rest]; pose proof (prefixLen_le isSpace s); lia).
  cbn [rest].
  assert (E : prefixLen isSpace s = 0).
  { destruct s as [|c s]; [reflexivity|]. cbn [headIs] in H. cbn [prefixLen].
    rewrite H. reflexivity. }
  rewrite E. reflexivity.
Qed.

Lemma atLeast_sp_none :
  forall k s cp,
    headIs isSpace s = false ->
    run false (atLeast (S k) sp) (MState [] s cp) = [].
Proof.
  intros k s cp H. unfold atLeast. cbn [run].
  rewrite (rep_class_all (run false sp) isSpace run_sp)
    by (cbn [rest]; pose proof (prefixLen_le isSpace s); lia).
  cbn [rest].
  assert (E : prefixLen isSpace s = 0).
  { destruct s as [|c s]; [reflexivity|]. cbn [headIs] in H. cbn [prefixLen].
    rewrite H. reflexivity. }
  rewrite E. reflexivity.
Qed.

(** The indentation that a pattern captures on a line that does not start
    with white space is empty. *)
Lemma anchored_indent :
  forall tail line m,
    headIs isSpace line = false ->
    hasGroup 1 tail = false ->
    exec (RegExp (RSeq RBol (RSeq (RGroup 1 (star sp)) tail)) false) line = Some m ->
    group m 1 = Some [].
Proof.
  intros tail line m Hs Hg H. rewrite exec_anchored in H.
  destruct (run false (RSeq (RGroup 1 (star sp)) tail) (MState [] line []))
    as [|st' l] eqn:E; [discriminate|].
  injection H as <-.
  assert (Hin : In st' (run false (RSeq (RGroup 1 (star sp)) tail) (MState [] line [])))
    by (rewrite E; left; reflexivity).
  change (run false (RSeq (RGroup 1 (star sp)) tail) (MState [] line []))
    with (flat_map (run false tail)
            (List.map (fun s1 => setCap 1 (consumed (MState [] line []) s1) s1)
                      (run false (star sp) (MState [] line [])))) in Hin.
  rewrite (star_sp_none line [] Hs) in Hin. cbn [List.map flat_map] in Hin.
  rewrite app_nil_r in Hin.
  pose proof (run_caps false 1 tail _ _ Hg Hin) as C.
  unfold setCap, consumed in C. cbn [caps rest lookupCap Nat.eqb] in C.
  rewrite Nat.sub_diag in C. cbn [firstn] in C.
  unfold group, mkMatch. cbn [groups source ngroups].
  destruct (ngroups tail) as [|n]; cbn [Nat.max seq List.map nth_error]; exact C.
Qed.

Lemma trim_head : forall raw, headIs isSpace (trim raw) = false.
Proof.
  intros raw. destruct (trim_fixed raw) as [H _].
  destruct (trim raw) as [|c s]; [reflexivity|].
  cbn [headIs]. exact (dropWhile_head _ _ _ H).
Qed.

(** The ways in which [cls+] matches, for a class [cls]: the runs of the
    class of one code unit or more. *)
Lemma in_plus_class :
  forall cls p st st',
    (forall s, run false cls s = oneChar p s) ->
    In st' (run false (plus cls) st) ->
    exists k, 1 <= k <= prefixLen p (rest st) /\ st' = advanceN k st.
Proof.
  intros cls p st st' Hcls H. unfold plus in H. cbn [run] in H.
  rewrite (rep_class_all (run false cls) p Hcls) in H
    by (pose proof (prefixLen_le p (rest st)); lia).
  apply in_map_iff in H. destruct H as [k [<- Hk]].
  apply in_rev in Hk. apply in_seq in Hk. exists k. split; [lia | reflexivity].
Qed.

Lemma firstn_prefixLen :
  forall p k s,
    k <= prefixLen p s -> Forall (fun c => p c = true) (firstn k s).
Proof.
  intros p. induction k as [|k IH]; intros s Hk; [constructor|].
  destruct s as [|c t]; [simpl in Hk; lia|].
  simpl in Hk. destruct (p c) eqn:E; [|lia].
  cbn [firstn]. constructor; [exact E | apply IH; lia].
Qed.

Lemma in_oneChar :
  forall p st st',
    In st' (oneChar p st) ->
    exists c t, rest st = c :: t /\ p c = true
                /\ st' = MState (c :: seen st) t (caps st).
Proof.
  intros p [sn [|c t] cp] st' H; unfold oneChar, advance in H; cbn [rest] in H;
    [contradiction|].
  destruct (p c) eqn:E; [|contradiction]. destruct H as [<-|[]].
  exists c, t. repeat split. exact E.
Qed.

Lemma run_digit : forall st, run false digit st = oneChar isDigit st.
Proof.
  intros st. unfold digit. rewrite run_class. apply oneChar_ext.
  intros c. simpl. apply orb_false_r.
Qed.

(** The end of the two patterns of [detectListItem],
    [\s+(.+)$]: white space, then the rest of the line as group 3. *)
Lemma in_item_tail :
  forall st st',
    In st' (run false (seqs [plus sp; RGroup 3 (plus RAny); REol]) st) ->
    exists spaces content,
      rest st = spaces ++ content
      /\ spaces <> [] /\ Forall (fun c => isSpace c = true) spaces
      /\ content <> []
      /\ caps st' = (3, content) :: caps st.
Proof.
  intros [sn s cp] st' H. cbn [seqs] in H.
  change (run false (RSeq (plus sp) (RSeq (RGroup 3 (plus RAny)) REol)) (MState sn s cp))
    with (flat_map (run false (RSeq (RGroup 3 (plus RAny)) REol))
                   (run false (plus sp) (MState sn s cp))) in H.
  apply in_flat_map in H. destruct H as [st1 [H1 H]].
  apply (in_plus_class sp isSpace _ _ run_sp) in H1.
  destruct H1 as [j [Hj ->]]. cbn [rest] in Hj.
  pose proof (prefixLen_le isSpace s) as Hle.
  rewrite advanceN_split in H by lia.
  change (run false (RSeq (RGroup 3 (plus RAny)) REol) ?x)
    with (flat_map (run false REol) (run false (RGroup 3 (plus RAny)) x)) in H.
  apply in_flat_map in H. destruct H as [st2 [H2 H]].
  cbn [run] in H. destruct (rest st2) eqn:Hend; [|contradiction].
  destruct H as [<-|[]].
  change (run false (RGroup 3 (plus RAny)) ?x)
    with (List.map (fun s1 => setCap 3 (consumed x s1) s1) (run false (plus RAny) x)) in H2.
  apply in_map_iff in H2. destruct H2 as [s2 [<- H2]].
  apply (in_plus_class RAny (fun c => negb (isLineTerminator c))) in H2;
    [|reflexivity].
  destruct H2 as [i [Hi ->]]. cbn [rest] in Hi.
  pose proof (prefixLen_le (fun c => negb (isLineTerminator c)) (skipn j s)) as Hle2.
  rewrite advanceN_split in Hend |- * by lia.
  unfold setCap in Hend |- *. cbn [rest caps seen] in Hend |- *.
  unfold consumed. cbn [rest]. rewrite Hend. cbn [List.length].
  rewrite Nat.sub_0_r, firstn_all.
  exists (firstn j s), (skipn j s). split; [symmetry; apply firstn_skipn|].
  split.
  { intros E. apply (f_equal (@List.length _)) in E.
    rewrite length_firstn in E. simpl in E. lia. }
  split; [apply firstn_prefixLen; lia|].
  split; [|reflexivity].
  intros E. rewrite E in Hi. simpl in Hi. lia.
Qed.

(** The indentation on a line that does not start with white space. *)
Lemma in_item_indent :
  forall tail line st',
    headIs isSpace line = false ->
    In st' (run false (RSeq (RGroup 1 (star sp)) tail) (MState [] line [])) ->
    In st' (run false tail (MState [] line [(1, [])])).
Proof.
  intros tail line st' Hs H.
  change (run false (RSeq (RGroup 1 (star sp)) tail) (MState [] line []))
    with (flat_map (run false tail)
            (List.map (fun s1 => setCap 1 (consumed (MState [] line []) s1) s1)
                      (run false (star sp) (MState [] line [])))) in H.
  rewrite (star_sp_none line [] Hs) in H. cbn [List.map flat_map] in H.
  rewrite app_nil_r in H.
  unfold setCap, consumed in H. cbn [rest seen caps] in H.
  rewrite Nat.sub_diag in H. exact H.
Qed.

Lemma exec_bullet :
  forall line m,
    headIs isSpace line = false ->
    exec bulletRe line = Some m ->
    exists b spaces content,
      In (CChr b) MarkdownGenerator.bulletSet
      /\ line = b :: spaces ++ content
      /\ spaces <> [] /\ Forall (fun c => isSpace c = true) spaces
      /\ content <> []
      /\ groups m = [Some []; Some [b]; Some content].
Proof.
  intros line m Hs H. unfold bulletRe in H. cbn [seqs] in H.
  rewrite exec_anchored in H.
  match type of H with
  | match ?l with _ => _ end = _ => destruct l as [|st' l'] eqn:E; [discriminate|]
  end.
  injection H as <-.
  assert (Hin : In st' (st' :: l')) by (left; reflexivity).
  rewrite <- E in Hin. clear E l'.
  apply (in_item_indent _ _ _ Hs) in Hin.
  match type of Hin with
  | In _ (run false (RSeq ?g ?t) ?x) =>
      change (run false (RSeq g t) x) with (flat_map (run false t) (run false g x)) in Hin
  end.
  apply in_flat_map in Hin. destruct Hin as [st2 [H2 Hin]].
  match type of H2 with
  | In _ (run false (RGroup 2 ?r) ?x) =>
      change (run false (RGroup 2 r) x)
        with (List.map (fun s1 => setCap 2 (consumed x s1) s1) (run false r x)) in H2
  end.
  apply in_map_iff in H2. destruct H2 as [s2 [<- H2]].
  rewrite run_class in H2. apply in_oneChar in H2.
  destruct H2 as [b [t [Hline [Hb ->]]]]. cbn [rest seen caps] in Hline. subst line.
  unfold setCap, consumed in Hin. cbn [rest seen caps List.length] in Hin.
  replace (S (List.length t) - List.length t) with 1 in Hin by lia.
  cbn [firstn] in Hin.
  apply (in_item_tail (MState [b] t [(2, [b]); (1, [])])) in Hin.
  destruct Hin as [spaces [content [Ht [Hne [Hsp [Hc Hcaps]]]]]].
  cbn [rest caps] in Ht, Hcaps. subst t.
  exists b, spaces, content.
  split.
  { apply existsb_exists in Hb. destruct Hb as [it [Hit Hm]].
    unfold MarkdownGenerator.bulletSet in Hit |- *. cbn [In] in Hit |- *.
    repeat (destruct Hit as [<-|Hit];
            [cbn [citemMatch] in Hm; apply N.eqb_eq in Hm; subst b; tauto|]).
    contradiction. }
  repeat (split; [assumption || reflexivity|]).
  unfold mkMatch. cbn [groups source ngroups Nat.max seq List.map].
  rewrite Hcaps. reflexivity.
Qed.

Lemma exec_numbered :
  forall line m,
    headIs isSpace line = false ->
    exec numberedRe line = Some m ->
    exists number p spaces content,
      number <> [] /\ Forall (fun c => isDigit c = true) number
      /\ In p (js ".)")
      /\ line = number ++ p :: spaces ++ content
      /\ spaces <> [] /\ Forall (fun c => isSpace c = true) spaces
      /\ content <> []
      /\ groups m = [Some []; Some number; Some content].
Proof.
  intros line m Hs H. unfold numberedRe in H. cbn [seqs] in H.
  rewrite exec_anchored in H.
  match type of H with
  | match ?l with _ => _ end = _ => destruct l as [|st' l'] eqn:E; [discriminate|]
  end.
  injection H as <-.
  assert (Hin : In st' (st' :: l')) by (left; reflexivity).
  rewrite <- E in Hin. clear E l'.
  apply (in_item_indent _ _ _ Hs) in Hin.
  match type of Hin with
  | In _ (run false (RSeq ?g ?t) ?x) =>
      change (run false (RSeq g t) x) with (flat_map (run false t) (run false g x)) in Hin
  end.
  apply in_flat_map in Hin. destruct Hin as [st2 [H2 Hin]].
  match type of H2 with
  | In _ (run false (RGroup 2 ?r) ?x) =>
      change (run false (RGroup 2 r) x)
        with (List.map (fun s1 => setCap 2 (consumed x s1) s1) (run false r x)) in H2
  end.
  apply in_map_iff in H2. destruct H2 as [s2 [<- H2]].
  apply (in_plus_class digit isDigit _ _ run_digit) in H2.
  destruct H2 as [k [Hk ->]]. cbn [rest] in Hk.
  pose proof (prefixLen_le isDigit line) as Hle.
  rewrite advanceN_split in Hin by lia.
  unfold setCap, consumed in Hin. cbn [rest seen caps] in Hin.
  rewrite length_skipn in Hin.
  replace (List.length line - (List.length line - k)) with k in Hin by lia.
  match type of Hin with
  | In _ (run false (RSeq ?g ?t) ?x) =>
      change (run false (RSeq g t) x) with (flat_map (run false t) (run false g x)) in Hin
  end.
  apply in_flat_map in Hin. destruct Hin as [st3 [H3 Hin]].
  rewrite run_class in H3. apply in_oneChar in H3.
  destruct H3 as [p [t [Hrest [Hp ->]]]]. cbn [rest seen caps] in Hrest, Hin.
  apply in_item_tail in Hin.
  destruct Hin as [spaces [content [Ht [Hne [Hsp [Hc Hcaps]]]]]].
  cbn [rest caps] in Ht, Hcaps. subst t.
  exists (firstn k line), p, spaces, content.
  split.
  { intros E0. apply (f_equal (@List.length _)) in E0.
    rewrite length_firstn in E0. simpl in E0. lia. }
  split; [apply firstn_prefixLen; lia|].
  split.
  { apply existsb_exists in Hp. destruct Hp as [it [Hit Hm]].
    cbn in Hit. destruct Hit as [<-|[<-|[]]]; cbn [citemMatch] in Hm;
      apply N.eqb_eq in Hm; subst p; cbn; tauto. }
  split; [rewrite <- Hrest; symmetry; apply firstn_skipn|].
  repeat (split; [assumption|]).
  unfold mkMatch. cbn [groups source ngroups Nat.max seq List.map].
  rewrite Hcaps. reflexivity.
Qed.

(** X21.  [processContent] hands [detectListItem] a trimmed line, and on
    such a line the indentation it measures is zero.  A list item found
    on a trimmed line has level 1 and its markdown is not indented: the
    line is a bullet, white space and a non-empty content, and the
    markdown is "- " and the content; or the line is a non-empty number
    made of digits, a full stop or a closing parenthesis, white space and
    a non-empty content, and the markdown is the number, ". " and the
    content. *)
Theorem list_item_of_trimmed_line :
  forall raw item,
    MarkdownGenerator.detectListItem (trim raw) = Some item ->
    exists spaces content,
      spaces <> [] /\ Forall (fun c => isSpace c = true) spaces
      /\ content <> []
      /\ ((exists b,
              In (CChr b) MarkdownGenerator.bulletSet
              /\ trim raw = b :: spaces ++ content
              /\ item = MarkdownGenerator.ListItem 1 MarkdownGenerator.bullet
                          (js "- " ++ content))
          \/ (exists number p,
                 number <> [] /\ Forall (fun c => isDigit c = true) number
                 /\ In p (js ".)")
                 /\ trim raw = number ++ p :: spaces ++ content
                 /\ item = MarkdownGenerator.ListItem 1 MarkdownGenerator.numbered
                             (number ++ js ". " ++ content))).
Proof.
  intros raw item H. unfold MarkdownGenerator.detectListItem in H.
  pose proof (trim_head raw) as Hs.
  fold bulletRe in H. fold numberedRe in H.
  destruct (exec bulletRe (trim raw)) as [m|] eqn:E.
  - destruct (exec_bullet _ _ Hs E)
      as [b [spaces [content [Hb [Hline [Hne [Hsp [Hc Hg]]]]]]]].
    exists spaces, content. repeat (split; [assumption|]).
    left. exists b. split; [exact Hb|]. split; [exact Hline|].
    unfold group in H. rewrite Hg in H. cbn in H. injection H as <-. reflexivity.
  - destruct (exec numberedRe (trim raw)) as [m|] eqn:E2; [|discriminate].
    destruct (exec_numbered _ _ Hs E2)
      as [number [p [spaces [content [Hn [Hd [Hp [Hline [Hne [Hsp [Hc Hg]]]]]]]]]]].
    exists spaces, content. repeat (split; [assumption|]).
    right. exists number, p. repeat (split; [assumption|]).
    unfold group in H. rewrite Hg in H.
    cbn [nth_error MarkdownGenerator.strOf List.length Nat.div Nat.divmod fst
         Nat.add Nat.sub Nat.max repeat app] in H.
    injection H as <-. reflexivity.
Qed.

Lemma list_item_of_trimmed_line_witness :
  exists spaces content,
    spaces <> [] /\ Forall (fun c => isSpace c = true) spaces
    /\ content <> []
    /\ ((exists b,
            In (CChr b) MarkdownGenerator.bulletSet
            /\ trim (js "   12)  twelve  ") = b :: spaces ++ content
            /\ MarkdownGenerator.ListItem 1 MarkdownGenerator.numbered (js "12. twelve")
               = MarkdownGenerator.ListItem 1 MarkdownGenerator.bullet
                   (js "- " ++ content))
        \/ (exists number p,
               number <> [] /\ Forall (fun c => isDigit c = true) number
               /\ In p (js ".)")
               /\ trim (js "   12)  twelve  ") = number ++ p :: spaces ++ content
               /\ MarkdownGenerator.ListItem 1 MarkdownGenerator.numbered (js "12. twelve")
                  = MarkdownGenerator.ListItem 1 MarkdownGenerator.numbered
                      (number ++ js ". " ++ content))).
Proof.
  exact (list_item_of_trimmed_line (js "   12)  twelve  ")
           (MarkdownGenerator.ListItem 1 MarkdownGenerator.numbered (js "12. twelve"))
           eq_refl).
Defined.

(** X22.  On a trimmed line, as [processContent] passes it, the test of
    [looksLikeCode] for an indentation of four never succeeds: the line
    looks like code exactly when it contains a keyword or one of the
    symbols. *)
Theorem indentation_never_marks_code :
  forall raw,
    MarkdownGenerator.looksLikeCode (trim raw)
    = existsb (fun keyword => includes keyword (trim raw)) MarkdownGenerator.codeKeywords
      || test (RegExp (RSet false (oneOf "{}();=<>")) false) (trim raw).
Proof.
  intros raw. unfold MarkdownGenerator.looksLikeCode.
  pose proof (trim_head raw) as Hs.
  destruct (trim raw) as [|c s] eqn:T; [reflexivity|].
  cbn [List.length Nat.eqb].
  destruct (existsb _ MarkdownGenerator.codeKeywords); [reflexivity|].
  destruct (test (RegExp (RSet false (oneOf "{}();=<>")) false) (c :: s));
    [reflexivity|].
  cbn [orb].
  assert (E : test (RegExp (seqs [RBol; atLeast 4 sp]) false) (c :: s) = false).
  { unfold test. cbn [seqs]. rewrite exec_anchored.
    rewrite (atLeast_sp_none 3 (c :: s) [] Hs). reflexivity. }
  rewrite E. reflexivity.
Qed.

(* ================================================================= *)
(** * Further properties: the alphabet of a replacement *)

Section Alphabet.
Variable ok : char -> Prop.

Lemma moved_rest_ok :
  forall st st', moved st st' -> Forall ok (rest st) -> Forall ok (rest st').
Proof.
  intros st st' [p [P1 _]] H. rewrite P1 in H. apply Forall_app in H. apply H.
Qed.

Lemma consumed_ok :
  forall st st', Forall ok (rest st) -> Forall ok (consumed st st').
Proof.
  intros st st' H. unfold consumed.
  rewrite <- (firstn_skipn (List.length (rest st) - List.length (rest st')) (rest st)) in H.
  apply Forall_app in H. apply H.
Qed.

Lemma oneChar_caps_ok :
  forall p st st', capturesOver ok st -> In st' (oneChar p st) -> capturesOver ok st'.
Proof.
  intros p [sn [|c t] cp] st' H Hin; unfold oneChar, advance in Hin; simpl in Hin;
    [contradiction|].
  destruct (p c); [|contradiction]. destruct Hin as [<-|[]]. exact H.
Qed.

Lemma rep_caps_ok :
  forall step,
    (forall st st', In st' (step st) -> moved st st') ->
    (forall st st', Forall ok (rest st) -> capturesOver ok st -> In st' (step st) -> capturesOver ok st') ->
    forall fuel min max st st',
      Forall ok (rest st) -> capturesOver ok st ->
      In st' (rep fuel step min max st) -> capturesOver ok st'.
Proof.
  intros step Hmoved Hstep. induction fuel as [|fuel IH]; intros min max st st' Hr Hc H.
  - simpl in H. destruct max as [[|n]|]; destruct min;
      simpl in H; try contradiction; destruct H as [<-|[]]; exact Hc.
  - assert (Again :
      In st' (flat_map (fun st1 =>
                if (min =? 0)%nat
                   && (List.length (rest st1) =? List.length (rest st))%nat
                then []
                else rep fuel step (pred min) (option_map pred max) st1)
              (step st)) -> capturesOver ok st').
    { intros Hin. apply in_flat_map in Hin. destruct Hin as [st1 [H1 H2]].
      destruct (_ && _); [contradiction|].
      eapply IH; [| |exact H2].
      - exact (moved_rest_ok _ _ (Hmoved _ _ H1) Hr).
      - exact (Hstep _ _ Hr Hc H1). }
    cbn [rep] in H.
    destruct max as [[|n]|].
    + destruct H as [<-|[]]. exact Hc.
    + destruct min; [|exact (Again H)].
      apply in_app_or in H. destruct H as [H|[<-|[]]]; [exact (Again H) | exact Hc].
    + destruct min; [|exact (Again H)].
      apply in_app_or in H. destruct H as [H|[<-|[]]]; [exact (Again H) | exact Hc].
Qed.

(** What the groups capture is made of code units of the subject. *)
Lemma run_caps_ok :
  forall ic r st st',
    Forall ok (rest st) -> capturesOver ok st -> In st' (run ic r st) -> capturesOver ok st'.
Proof.
  intros ic. induction r as [|a| |neg items|a IHa b IHb|a IHa b IHb|min max a IHa
                             |i a IHa| | | |a IHa];
    intros st st' Hr Hc H; cbn [run] in H.
  - destruct H as [<-|[]]. exact Hc.
  - exact (oneChar_caps_ok _ _ _ Hc H).
  - exact (oneChar_caps_ok _ _ _ Hc H).
  - exact (oneChar_caps_ok _ _ _ Hc H).
  - apply in_flat_map in H. destruct H as [mid [H1 H2]].
    apply (IHb mid st'); [| |exact H2].
    + exact (moved_rest_ok _ _ (run_moved _ _ _ _ H1) Hr).
    + exact (IHa _ _ Hr Hc H1).
  - apply in_app_or in H. destruct H as [H|H];
      [exact (IHa _ _ Hr Hc H) | exact (IHb _ _ Hr Hc H)].
  - exact (rep_caps_ok (run ic a) (run_moved ic a) IHa _ _ _ _ _ Hr Hc H).
  - apply in_map_iff in H. destruct H as [st1 [<- H1]].
    unfold capturesOver, setCap. cbn [caps]. constructor.
    + cbn [snd]. apply consumed_ok. exact Hr.
    + exact (IHa _ _ Hr Hc H1).
  - destruct (seen st); [|contradiction]. destruct H as [<-|[]]. exact Hc.
  - destruct (rest st); [|contradiction]. destruct H as [<-|[]]. exact Hc.
  - destruct (atWordBoundary st); [|contradiction]. destruct H as [<-|[]]. exact Hc.
  - destruct (run ic a st); [|contradiction]. destruct H as [<-|[]]. exact Hc.
Qed.

Lemma lookupCap_ok :
  forall i l s,
    Forall (fun entry : nat * jsstring => Forall ok (snd entry)) l ->
    lookupCap i l = Some s -> Forall ok s.
Proof.
  intros i l s H. induction H as [|[j x] l Hx Hl IH]; intros E; [discriminate|].
  cbn [lookupCap] in E. destruct (i =? j)%nat; [|exact (IH E)].
  injection E as <-. exact Hx.
Qed.

(** A match on a subject over an alphabet: the match, the text around
    it and the groups are over that alphabet. *)
Lemma matchAt_ok :
  forall re sn s m st',
    Forall ok sn -> Forall ok s ->
    matchAt re (MState sn s []) = Some (m, st') ->
    Forall ok (whole m) /\ Forall ok (before m) /\ Forall ok (after m)
    /\ Forall (fun o => match o with Some g => Forall ok g | None => True end) (groups m)
    /\ List.length (groups m) = ngroups (source re)
    /\ Forall ok (seen st') /\ Forall ok (rest st').
Proof.
  intros re sn s m st' Hsn Hs H.
  destruct (matchAt_subject _ _ _ _ _ H) as [E1 E2].
  unfold matchAt in H.
  destruct (run (ignoreCase re) (source re) (MState sn s [])) as [|st1 l] eqn:E;
    [discriminate|].
  injection H as <- <-.
  assert (Hin : In st1 (run (ignoreCase re) (source re) (MState sn s [])))
    by (rewrite E; left; reflexivity).
  assert (Hc : capturesOver ok st1).
  { apply (run_caps_ok (ignoreCase re) (source re) (MState sn s []) st1);
      [exact Hs | constructor | exact Hin]. }
  assert (Hrest : Forall ok (rest st1)).
  { exact (moved_rest_ok (MState sn s []) st1 (run_moved _ _ _ _ Hin) Hs). }
  assert (Hw : Forall ok (consumed (MState sn s []) st1))
    by (apply consumed_ok; exact Hs).
  unfold mkMatch in *. cbn [whole before after groups] in *.
  split; [exact Hw|]. split; [apply Forall_rev; exact Hsn|]. split; [exact Hrest|].
  split; [|split; [|split; [|exact Hrest]]].
  - apply Forall_forall. intros o Ho. apply in_map_iff in Ho.
    destruct Ho as [i [<- _]].
    destruct (lookupCap i (caps st1)) as [g|] eqn:G; [|exact I].
    exact (lookupCap_ok _ _ _ Hc G).
  - rewrite length_map, length_seq. reflexivity.
  - rewrite E2. apply Forall_app. split; [apply Forall_rev; exact Hw | exact Hsn].
Qed.

(** [replace] keeps the alphabet of the subject when the replacements are
    over it. *)
Lemma replaceFrom_ok :
  forall re r,
    (forall m,
        Forall ok (whole m) -> Forall ok (before m) -> Forall ok (after m) ->
        Forall (fun o => match o with Some g => Forall ok g | None => True end) (groups m) ->
        List.length (groups m) = ngroups (source re) ->
        Forall ok (replacement r m)) ->
    forall fuel sn s,
      Forall ok sn -> Forall ok s -> Forall ok (replaceFrom fuel re r sn s).
Proof.
  intros re r Hr. induction fuel as [|fuel IH]; intros sn s Hsn Hs; [exact Hs|].
  cbn [replaceFrom].
  destruct (matchAt re (MState sn s [])) as [[m st']|] eqn:E.
  - destruct (matchAt_ok _ _ _ _ _ Hsn Hs E) as [Hw [Hb [Ha [Hg [Hn [Hs1 Hr1]]]]]].
    assert (R : Forall ok (replacement r m)) by (apply Hr; assumption).
    destruct (whole m) as [|w0 w].
    + destruct s as [|c t]; [exact R|].
      inversion Hs as [|? ? Hc Ht]; subst.
      apply Forall_app. split; [exact R|]. constructor; [exact Hc|].
      apply IH; [constructor; assumption | exact Ht].
    + apply Forall_app. split; [exact R|]. apply IH; assumption.
  - destruct s as [|c t]; [constructor|].
    inversion Hs as [|? ? Hc Ht]; subst. constructor; [exact Hc|].
    apply IH; [constructor; assumption | exact Ht].
Qed.

Lemma replaceAll_template_ok :
  forall re t s,
    Forall ok t -> Forall ok s -> Forall ok (replaceAll re (Template t) s).
Proof.
  intros re t s Ht Hs. unfold replaceAll.
  apply replaceFrom_ok; [|constructor | exact Hs].
  intros m Hw Hb Ha Hg _. cbn [replacement]. apply getSubstitution_ok; assumption.
Qed.

Lemma splitFrom_ok :
  forall re fuel sn cur s,
    Forall ok sn -> Forall ok cur -> Forall ok s ->
    Forall (Forall ok) (splitFrom fuel re sn cur s).
Proof.
  intros re. induction fuel as [|fuel IH]; intros sn cur s Hsn Hcur Hs.
  - cbn [splitFrom]. constructor; [|constructor].
    apply Forall_app. split; [apply Forall_rev; exact Hcur | exact Hs].
  - cbn [splitFrom]. destruct s as [|c t].
    + constructor; [apply Forall_rev; exact Hcur | constructor].
    + inversion Hs as [|? ? Hc Ht]; subst.
      destruct (matchAt re (MState sn (c :: t) [])) as [[m st']|] eqn:E.
      * destruct (matchAt_ok _ _ _ _ _ Hsn Hs E) as [_ [_ [_ [_ [_ [Hs1 Hr1]]]]]].
        assert (Split : Forall (Forall ok)
                          (rev cur :: splitFrom fuel re (seen st') [] (rest st'))).
        { constructor; [apply Forall_rev; exact Hcur|].
          apply IH; [exact Hs1 | constructor | exact Hr1]. }
        destruct (whole m); [|exact Split].
        destruct cur; [|exact Split].
        apply IH; [constructor; assumption | repeat constructor; assumption | exact Ht].
      * apply IH; [constructor; assumption | constructor; assumption | exact Ht].
Qed.

Lemma split_ok :
  forall re s, Forall ok s -> Forall (Forall ok) (split re s).
Proof.
  intros re [|c t] H; unfold split.
  - destruct (matchAt re (MState [] [] [])); repeat constructor.
  - apply splitFrom_ok; [constructor | constructor | exact H].
Qed.

Lemma splitChar_ok :
  forall sep s, Forall ok s -> Forall (Forall ok) (splitChar sep s).
Proof.
  intros sep s H. induction H as [|c s Hc Hs IH]; [repeat constructor|].
  cbn [splitChar]. destruct (c =? sep)%N; [constructor; [constructor | exact IH]|].
  destruct (splitChar sep s) as [|h r].
  - repeat constructor. exact Hc.
  - inversion IH; subst. constructor; [constructor; assumption | assumption].
Qed.

End Alphabet.

(* ================================================================= *)
(** * Further properties: the alphabet of the corrected text *)

Section Pipeline.
Variable ok : char -> Prop.
Hypothesis ok_space : ok 32%N.
Hypothesis ok_newline : ok 10%N.
Hypothesis ok_upper : forall c, ok c -> ok (upperChar c).

Lemma applyTable_ok :
  forall mk table text,
    Forall (fun entry => Forall ok (js (snd entry))) table ->
    Forall ok text ->
    Forall ok (TextCorrector.applyTable mk table text).
Proof.
  intros mk table. unfold TextCorrector.applyTable.
  induction table as [|entry table IH]; intros text Ht Hs; [exact Hs|].
  inversion Ht as [|? ? H1 Ht']; subst. cbn [fold_left].
  apply IH; [exact Ht'|]. apply replaceAll_template_ok; assumption.
Qed.

Lemma flush_ok :
  forall s,
    Forall (Forall ok) (TextCorrector.processedLines s) ->
    Forall (Forall ok) (TextCorrector.currentParagraph s) ->
    Forall (Forall ok) (TextCorrector.flush s).
Proof.
  intros [P [|c cp]] HP Hc; unfold TextCorrector.flush;
    cbn [TextCorrector.processedLines TextCorrector.currentParagraph] in *;
    [exact HP|].
  apply Forall_app. split; [exact HP|]. constructor; [|constructor].
  apply join_ok; [repeat constructor; exact ok_space | exact Hc].
Qed.

Lemma structureStep_ok :
  forall s raw,
    Forall ok raw ->
    Forall (Forall ok) (TextCorrector.processedLines s) ->
    Forall (Forall ok) (TextCorrector.currentParagraph s) ->
    Forall (Forall ok) (TextCorrector.processedLines (TextCorrector.structureStep s raw))
    /\ Forall (Forall ok)
         (TextCorrector.currentParagraph (TextCorrector.structureStep s raw)).
Proof.
  intros s raw Hr HP Hc. unfold TextCorrector.structureStep.
  pose proof (trim_ok ok raw Hr) as Ht.
  pose proof (flush_ok s HP Hc) as Hf.
  destruct (test TextCorrector.pageMarker (trim raw)); [split; assumption|].
  destruct (negb (truthy (trim raw))).
  - cbn [TextCorrector.processedLines TextCorrector.currentParagraph].
    split; [|constructor]. apply Forall_app. split; [exact Hf | repeat constructor].
  - destruct (TextCorrector.shouldMergeWithPrevious _ _);
      cbn [TextCorrector.processedLines TextCorrector.currentParagraph].
    + split; [exact HP|]. apply Forall_app. split; [exact Hc | repeat constructor; exact Ht].
    + split; [exact Hf | repeat constructor; exact Ht].
Qed.

Lemma restoreTextStructure_ok :
  forall text, Forall ok text -> Forall ok (TextCorrector.restoreTextStructure text).
Proof.
  intros text H. unfold TextCorrector.restoreTextStructure, TextCorrector.restoreLines.
  apply join_ok; [repeat constructor; exact ok_newline|].
  pose proof (splitChar_ok ok 10%N text H) as Hl.
  assert (G : forall lines s,
             Forall (Forall ok) lines ->
             Forall (Forall ok) (TextCorrector.processedLines s) ->
             Forall (Forall ok) (TextCorrector.currentParagraph s) ->
             Forall (Forall ok)
               (TextCorrector.flush (fold_left TextCorrector.structureStep lines s))).
  { induction lines as [|raw lines IH]; intros s Hlines HP Hc.
    - apply flush_ok; assumption.
    - inversion Hlines as [|? ? Hraw Hrest]; subst. cbn [fold_left].
      destruct (structureStep_ok s raw Hraw HP Hc) as [HP' Hc'].
      apply IH; assumption. }
  apply G; [exact Hl | constructor | constructor].
Qed.

Lemma correctWord_ok :
  forall o dict ag word,
    (forall w s, In s (TextCorrector.suggest o w) -> Forall ok s) ->
    Forall ok word ->
    Forall ok (TextCorrector.correctWord o dict ag word).
Proof.
  intros o dict ag word Ho Hw. unfold TextCorrector.correctWord.
  destruct (_ <? 2)%nat; [exact Hw|].
  destruct (TextCorrector.has dict _); [exact Hw|].
  destruct (TextCorrector.correct o _); [|exact Hw].
  destruct (TextCorrector.suggest o _) as [|top more] eqn:Es; [exact Hw|].
  destruct (TextCorrector.chooseBestSuggestion _ (top :: more) ag) as [best|] eqn:Eb;
    [|exact Hw].
  destruct (truthy best); [|exact Hw].
  apply replaceString_ok; [exact Hw|].
  apply chooseBestSuggestion_in in Eb. rewrite <- Es in Eb.
  exact (Ho _ _ Eb).
Qed.

Lemma performSpellCheck_ok :
  forall tc text ag,
    (forall c w s,
        TextCorrector.spellChecker tc = Some c ->
        In s (TextCorrector.suggest
                (TextCorrector.oracleOf c (TextCorrector.customDictionary tc)) w) ->
        Forall ok s) ->
    Forall ok text ->
    Forall ok (TextCorrector.performSpellCheck tc text ag).
Proof.
  intros tc text ag Ho Ht. unfold TextCorrector.performSpellCheck.
  destruct (TextCorrector.spellChecker tc) as [c|] eqn:Ec; [|exact Ht].
  apply join_ok; [repeat constructor; exact ok_space|].
  apply Forall_map. eapply Forall_impl; [|apply (split_ok ok _ _ Ht)].
  intros word Hword. apply correctWord_ok; [|exact Hword].
  intros w s Hs. exact (Ho c w s eq_refl Hs).
Qed.

Lemma improveTextFlow_ok :
  forall e text,
    (forall t u, TextCorrector.nlpText e t = Some u -> Forall ok t -> Forall ok u) ->
    Forall ok text ->
    Forall ok (TextCorrector.improveTextFlow e text).
Proof.
  intros e text Hnlp Ht. unfold TextCorrector.improveTextFlow.
  destruct (TextCorrector.nlpText e text) as [improved|] eqn:E; [|exact Ht].
  pose proof (Hnlp _ _ E Ht) as Hi.
  unfold TextCorrector.capitalizeSentences, TextCorrector.spaceAfterSentence,
    TextCorrector.spaceBeforePunctuation, TextCorrector.collapseSpaces.
  unfold replaceAll at 1. apply replaceFrom_ok; [|constructor|].
  { intros m _ _ _ Hg _. cbn [replacement]. apply Forall_app. split.
    - apply captureAt_ok. exact Hg.
    - unfold toUpperCase. apply Forall_map.
      eapply Forall_impl; [|apply (captureAt_ok ok _ 2 Hg)]. exact ok_upper. }
  unfold replaceAll at 1. apply replaceFrom_ok; [|constructor|].
  { intros m _ _ _ Hg Hn. cbn [replacement].
    destruct (groups m) as [|g1 [|g2 [|g3 gs]]]; try discriminate Hn.
    inversion Hg as [|? ? H1 Hg']; subst. inversion Hg' as [|? ? H2 _]; subst.
    change (Forall ok (captureAt [g1; g2] 1 ++ [32%N] ++ captureAt [g1; g2] 2)).
    apply Forall_app. split; [apply captureAt_ok; exact Hg|].
    constructor; [exact ok_space | apply captureAt_ok; exact Hg]. }
  unfold replaceAll at 1. apply replaceFrom_ok; [|constructor|].
  { intros m _ _ _ Hg Hn. cbn [replacement].
    destruct (groups m) as [|g1 [|g2 gs]]; try discriminate Hn.
    change (Forall ok (captureAt [g1] 1)). apply captureAt_ok. exact Hg. }
  apply replaceAll_template_ok; [repeat constructor; exact ok_space | exact Hi].
Qed.

Lemma corrector_finalCleanup_ok :
  forall text, Forall ok text -> Forall ok (TextCorrector.finalCleanup text).
Proof.
  intros text H. unfold TextCorrector.finalCleanup. cbv zeta.
  apply trim_ok. apply join_ok; [repeat constructor; exact ok_newline|].
  apply Forall_map. eapply Forall_impl; [intros l Hl; exact (trim_ok ok l Hl)|].
  apply splitChar_ok. apply replaceAll_template_ok; [|exact H].
  repeat constructor; exact ok_newline.
Qed.

End Pipeline.

Lemma upperChar_not_rewritten :
  forall c, ~ rewrittenDigit c -> ~ rewrittenDigit (upperChar c).
Proof.
  intros c H. unfold upperChar. destruct (isLower c) eqn:E; [|exact H].
  unfold isLower, inRange in E. apply andb_true_iff in E. destruct E as [E1 E2].
  apply N.leb_le in E1, E2.
  unfold rewrittenDigit. simpl. intros [F|[F|[F|[F|[]]]]]; lia.
Qed.

Lemma free_by_computation :
  forall s,
    forallb (fun c => negb (existsb (N.eqb c) (js "0158"))) s = true ->
    afterCharacterFix s.
Proof.
  intros s H. unfold afterCharacterFix. apply Forall_forall. intros c Hc Hd.
  rewrite forallb_forall in H. specialize (H c Hc).
  apply negb_true_iff in H.
  assert (E : existsb (N.eqb c) (js "0158") = true).
  { apply existsb_exists. exists c. split; [exact Hd | apply N.eqb_refl]. }
  congruence.
Qed.

Ltac free_of_digits := apply free_by_computation; vm_compute; reflexivity.

Lemma correctAndRestore_free :
  forall text, afterCharacterFix (TextCorrector.correctAndRestore text).
Proof.
  intros text. unfold TextCorrector.correctAndRestore, afterCharacterFix.
  apply restoreTextStructure_ok;
    [simpl; intros [F|[F|[F|[F|[]]]]]; discriminate F
    |simpl; intros [F|[F|[F|[F|[]]]]]; discriminate F|].
  unfold TextCorrector.fixPunctuationErrors, TextCorrector.fixWordErrors.
  apply applyTable_ok.
  { repeat (apply Forall_cons; [cbn [snd]; free_of_digits|]). apply Forall_nil. }
  apply applyTable_ok.
  { repeat (apply Forall_cons; [cbn [snd]; free_of_digits|]). apply Forall_nil. }
  apply character_fix_free.
Qed.

(** X23.  The first four steps of [processText] give a text without the
    digits 0, 1, 5 and 8, and so does [processText] as a whole, when
    neither the suggestions of the spell checker in use nor [compromise]
    bring such a digit in. *)
Theorem corrected_text_has_no_0158 :
  forall e tc r s,
    (forall dict w sg,
        In sg (TextCorrector.suggest
                 (TextCorrector.oracleOf (checkerInUse e tc) dict) w) ->
        afterCharacterFix sg) ->
    (forall t u,
        TextCorrector.nlpText e t = Some u -> afterCharacterFix t -> afterCharacterFix u) ->
    afterCharacterFix (TextCorrector.correctAndRestore (TextCorrector.extractText r))
    /\ afterCharacterFix (fst (TextCorrector.processText e tc r s)).
Proof.
  intros e tc r s Hsug Hnlp. split; [apply correctAndRestore_free|].
  assert (S32 : ~ rewrittenDigit 32%N)
    by (simpl; intros [F|[F|[F|[F|[]]]]]; discriminate F).
  assert (S10 : ~ rewrittenDigit 10%N)
    by (simpl; intros [F|[F|[F|[F|[]]]]]; discriminate F).
  unfold TextCorrector.processText.
  destruct (negb (truthy (TextCorrector.extractText r))
            || negb (truthy (trim (TextCorrector.extractText r)))).
  - cbn [fst]. free_of_digits.
  - cbn [fst]. unfold afterCharacterFix.
    apply corrector_finalCleanup_ok; [exact S10|].
    apply improveTextFlow_ok; [exact S32 | exact upperChar_not_rewritten | exact Hnlp|].
    destruct (TextCorrector.enableSpellCheck s); [|apply correctAndRestore_free].
    apply performSpellCheck_ok; [exact S32 | | apply correctAndRestore_free].
    intros c w sg Hc Hin.
    match type of Hc with
    | TextCorrector.spellChecker ?tc' = _ =>
        assert (Hu : TextCorrector.spellChecker tc' = Some (checkerInUse e tc))
    end.
    { unfold checkerInUse, TextCorrector.initializeSpellChecker.
      destruct tc as [[c0|] dict]; simpl;
        destruct (TextCorrector.dictionary e);
        destruct (TextCorrector.dictionaryGiven s) as [[l|txt]|];
        simpl; reflexivity. }
    rewrite Hu in Hc. injection Hc as <-. exact (Hsug _ _ _ Hin).
Qed.

Lemma fallback_suggestions_free :
  forall dict w sg,
    In sg (TextCorrector.suggest (TextCorrector.oracleOf TextCorrector.Fallback dict) w) ->
    afterCharacterFix sg.
Proof.
  intros dict w sg H. simpl in H. unfold TextCorrector.getSuggestions in H.
  match type of H with
  | In _ (firstn ?n ?l) =>
      assert (H' : In sg l)
        by (rewrite <- (firstn_skipn n l); apply in_or_app; left; exact H)
  end.
  apply filter_In in H'. destruct H' as [H' _]. clear H.
  assert (A : Forall afterCharacterFix TextCorrector.suggestionWords).
  { repeat (apply Forall_cons; [free_of_digits|]). apply Forall_nil. }
  rewrite Forall_forall in A. exact (A _ H').
Qed.

Lemma corrected_text_has_no_0158_witness :
  afterCharacterFix
    (TextCorrector.correctAndRestore
       (TextCorrector.extractText (TextCorrector.OcrString (js "In 2018, 50 books"))))
  /\ afterCharacterFix
       (fst (TextCorrector.processText plainEnv PDFProcessor.newCorrector
               (TextCorrector.OcrString (js "In 2018, 50 books")) defaultSettings)).
Proof.
  apply (corrected_text_has_no_0158 plainEnv PDFProcessor.newCorrector
           (TextCorrector.OcrString (js "In 2018, 50 books")) defaultSettings).
  - exact (fun dict => fallback_suggestions_free dict).
  - intros t u H Ht. simpl in H. injection H as <-. exact Ht.
Defined.

(* ================================================================= *)
(** * Further properties: the pipeline as a whole *)

(** X24.  In [processURL], the computation of the markdown from the page
    results (the combination of the pages, the text correction and
    [generate]) can throw only the ReferenceError of
    [determineHeadingLevel], and only when a line of the corrected text,
    trimmed, is matched by the all-caps pattern and by none of the three
    patterns before it.  What the progress messages and the saving of
    the file, which comes after, can throw is another matter. *)
Theorem markdown_of_processURL_throws_only_on_all_caps :
  forall e clock now url results s err,
    PDFProcessor.processURL e clock now url results s = Throws err ->
    err = ReferenceError "line"
    /\ exists line,
         In line (splitChar LF
                    (fst (TextCorrector.processText e PDFProcessor.newCorrector
                            (TextCorrector.OcrStructured
                               (OCRWorker.combinePageResults clock results)) s)))
         /\ allCapsFirst (trim line).
Proof.
  intros e clock now url results s err H. unfold PDFProcessor.processURL in H.
  exact (generate_throws _ _ _ _ H).
Qed.

Lemma markdown_of_processURL_throws_only_on_all_caps_witness :
  ReferenceError "line" = ReferenceError "line"
  /\ exists line,
       In line (splitChar LF
                  (fst (TextCorrector.processText plainEnv PDFProcessor.newCorrector
                          (TextCorrector.OcrStructured
                             (OCRWorker.combinePageResults 0
                                [OCRWorker.PageResult 1 (js "SUMMARY") (Some (90 # 1)%Q) None]))
                          defaultSettings)))
       /\ allCapsFirst (trim line).
Proof.
  exact (markdown_of_processURL_throws_only_on_all_caps plainEnv 0%N scenarioDate scenarioURL
           [OCRWorker.PageResult 1 (js "SUMMARY") (Some (90 # 1)%Q) None]
           defaultSettings (ReferenceError "line") eq_refl).
Defined.




(* ================================================================= *)
(** * Further properties: documents of extracted text *)

Lemma splitTextIntoPages_nonBlank :
  forall text numPages,
    nonBlank text = true ->
    Forall (fun page => nonBlank page = true)
           (PDFProcessor.splitTextIntoPages text numPages).
Proof.
  intros text numPages Ht. unfold PDFProcessor.splitTextIntoPages.
  destruct (numPages <=? 1)%nat; [repeat constructor; exact Ht|].
  apply Forall_forall. intros page Hp. apply in_flat_map in Hp.
  destruct Hp as [i [_ Hp]].
  destruct (0 <? _)%nat eqn:E; [|contradiction].
  destruct Hp as [<-|[]]. unfold nonBlank. apply Nat.ltb_lt in E.
  destruct (trim _); [simpl in E; lia | reflexivity].
Qed.

Lemma nonBlank_truthy : forall s, nonBlank s = true -> truthy s = true.
Proof. intros [|c s] H; [discriminate | reflexivity]. Qed.

(** A page of extracted text is taken as it is, whatever recognition
    would give. *)
Lemma textPage_outcome :
  forall ocr n t,
    nonBlank t = true ->
    OCRWorker.pageOutcome ocr (OCRWorker.ImagePage n true (Some t))
    = OCRWorker.PageResult n t (Some 100%Q) (Some (OCRWorker.createMockWordData t)).
Proof.
  intros ocr n t Ht. unfold OCRWorker.pageOutcome, OCRWorker.extractedOrEmpty.
  cbn [OCRWorker.isTextOnly OCRWorker.extractedText OCRWorker.ip_page].
  rewrite (nonBlank_truthy t Ht). reflexivity.
Qed.

Lemma textPages_outcomes :
  forall ocr pages,
    Forall (fun p => OCRWorker.isTextOnly p = true
                     /\ exists t, OCRWorker.extractedText p = Some t
                                  /\ nonBlank t = true) pages ->
    let results := List.map (OCRWorker.pageOutcome ocr) pages in
    List.map (fun r => Some (OCRWorker.text r)) results
    = List.map OCRWorker.extractedText pages
    /\ filter OCRWorker.hasText results = results
    /\ filter isLowConfidence results = []
    /\ forall ocr', List.map (OCRWorker.pageOutcome ocr') pages = results.
Proof.
  intros ocr pages. cbv zeta.
  induction pages as [|p ps IH]; intros H.
  - repeat split; reflexivity.
  - inversion H as [|? ? [Hp [t [Ht Hb]]] Hps]; subst.
    destruct (IH Hps) as [I1 [I2 [I3 I4]]].
    destruct p as [n only ext]. cbn [OCRWorker.isTextOnly OCRWorker.extractedText] in Hp, Ht.
    subst only ext. cbn [List.map].
    rewrite (textPage_outcome ocr n t Hb).
    assert (Has : OCRWorker.hasText
                    (OCRWorker.PageResult n t (Some 100%Q)
                       (Some (OCRWorker.createMockWordData t))) = true).
    { unfold OCRWorker.hasText. cbn [OCRWorker.text].
      rewrite (nonBlank_truthy t Hb). exact Hb. }
    split; [|split; [|split]].
    + cbn [OCRWorker.text OCRWorker.extractedText]. rewrite I1. reflexivity.
    + cbn [filter]. rewrite Has, I2. reflexivity.
    + cbn [filter]. unfold isLowConfidence at 1. rewrite Has. exact I3.
    + intros ocr'. rewrite (textPage_outcome ocr' n t Hb), (I4 ocr'). reflexivity.
Qed.

(** The pages that the loop over the page texts makes. *)
Lemma pagesFrom_pages :
  forall writeFile texts i pages,
    PDFProcessor.pagesFrom writeFile i texts = Some pages ->
    List.map OCRWorker.extractedText pages = List.map Some texts
    /\ Forall (fun p => OCRWorker.isTextOnly p = true) pages
    /\ List.map OCRWorker.ip_page pages
       = List.map N.of_nat (seq (i + 1) (List.length texts)).
Proof.
  intros writeFile. induction texts as [|t ts IH]; intros i pages H.
  - injection H as <-. repeat split. constructor.
  - cbn [PDFProcessor.pagesFrom] in H.
    destruct (writeFile (PDFProcessor.TextFile (i + 1))); [|discriminate].
    destruct (PDFProcessor.pagesFrom writeFile (S i) ts) as [ps|] eqn:E; [|discriminate].
    injection H as <-. destruct (IH (S i) ps E) as [I1 [I2 I3]].
    split; [|split].
    + cbn [List.map OCRWorker.extractedText]. rewrite I1. reflexivity.
    + constructor; [reflexivity | exact I2].
    + cbn [List.map OCRWorker.ip_page List.length seq]. rewrite I3.
      replace (S i + 1) with (S (i + 1)) by lia. reflexivity.
Qed.

Lemma pagesFrom_written :
  forall writeFile texts i,
    (forall page, writeFile (PDFProcessor.TextFile page) = true) ->
    exists pages, PDFProcessor.pagesFrom writeFile i texts = Some pages.
Proof.
  intros writeFile texts. induction texts as [|t ts IH]; intros i Hw.
  - exists []. reflexivity.
  - destruct (IH (S i) Hw) as [ps E]. cbn [PDFProcessor.pagesFrom].
    rewrite Hw, E. eexists. reflexivity.
Qed.

Lemma mockText_nonBlank : nonBlank PDFProcessor.mockText = true.
Proof. vm_compute. reflexivity. Qed.

Lemma mockText_trimmed : trim PDFProcessor.mockText = PDFProcessor.mockText.
Proof. vm_compute. reflexivity. Qed.

Lemma map_Some_inj :
  forall (A : Type) (l l' : list A), List.map Some l = List.map Some l' -> l = l'.
Proof.
  intros A. induction l as [|a l IH]; intros [|b l'] H; try discriminate;
    [reflexivity|].
  cbn [List.map] in H. injection H as -> H. rewrite (IH _ H). reflexivity.
Qed.

(** The pages that [convertPDFToImages] returns when [pdf2pic] gives
    nothing are pages of text that is not blank. *)
Lemma convertPDFToImages_textPages :
  forall parsed writeFile pages,
    PDFProcessor.convertPDFToImages None parsed writeFile = Some pages ->
    Forall (fun p => OCRWorker.isTextOnly p = true
                     /\ exists t, OCRWorker.extractedText p = Some t
                                  /\ nonBlank t = true) pages.
Proof.
  intros parsed writeFile pages H. unfold PDFProcessor.convertPDFToImages in H.
  assert (Mock : (if writeFile PDFProcessor.MockFile
                  then Some [OCRWorker.ImagePage 1 true (Some PDFProcessor.mockText)]
                  else None) = Some pages ->
                 Forall (fun p => OCRWorker.isTextOnly p = true
                                  /\ exists t, OCRWorker.extractedText p = Some t
                                               /\ nonBlank t = true) pages).
  { intros M. destruct (writeFile PDFProcessor.MockFile); [|discriminate].
    injection M as <-. constructor; [|constructor].
    split; [reflexivity|]. exists PDFProcessor.mockText.
    split; [reflexivity | exact mockText_nonBlank]. }
  destruct parsed as [[text numpages]|]; [|exact (Mock H)].
  destruct (truthy text && truthy (trim text) && (100 <? List.length text)%nat) eqn:G;
    [|exact (Mock H)].
  apply andb_true_iff in G. destruct G as [G _].
  apply andb_true_iff in G. destruct G as [_ G].
  set (n := if (numpages =? 0)%nat then 1 else numpages) in *.
  destruct (PDFProcessor.pagesFrom writeFile 0 (PDFProcessor.splitTextIntoPages text n))
    as [ps|] eqn:E; [|exact (Mock H)].
  injection H as <-.
  destruct (pagesFrom_pages _ _ _ _ E) as [I1 [I2 _]].
  pose proof (splitTextIntoPages_nonBlank text n G) as Hnb.
  clear E Mock. revert ps I1 I2.
  induction Hnb as [|t ts Ht Hts IH]; intros [|p ps] I1 I2; try discriminate;
    constructor.
  - inversion I2; subst. split; [assumption|]. exists t.
    cbn [List.map] in I1. injection I1 as -> _. split; [reflexivity | exact Ht].
  - inversion I2; subst. cbn [List.map] in I1. injection I1 as _ I1. apply IH; assumption.
Qed.

(** X26.  When [pdf2pic] gives no pages, the pages that
    [convertPDFToImages] returns are pages of text, and recognition plays
    no part in the result of [processImages] on them: the result is the
    same whatever the recognizer, and no page is of low confidence.  For
    a text extracted by [pdf-parse] that is not blank and has more than
    100 code units, the page files being written, the pages hold the
    texts of [splitTextIntoPages], numbered from 1, and the combined text
    is these texts,
    trimmed, with one blank line between two of them.  When [pdf-parse]
    gives nothing, or a text that is blank or of at most 100 code units,
    the document is the single page of the mock text, and the combined
    text is the mock text. *)
Theorem extracted_text_needs_no_recognition :
  forall now ocr parsed writeFile,
    (forall pages,
        PDFProcessor.convertPDFToImages None parsed writeFile = Some pages ->
        (forall ocr',
            OCRWorker.processImages now ocr' pages = OCRWorker.processImages now ocr pages)
        /\ OCRWorker.lowConfidencePages
             (OCRWorker.meta (OCRWorker.processImages now ocr pages)) = [])
    /\ (forall text numpages,
          parsed = Some (text, numpages) ->
          nonBlank text = true ->
          100 < List.length text ->
          (forall page, writeFile (PDFProcessor.TextFile page) = true) ->
          let pageTexts :=
            PDFProcessor.splitTextIntoPages text
              (if (numpages =? 0)%nat then 1 else numpages) in
          exists pages,
            PDFProcessor.convertPDFToImages None parsed writeFile = Some pages
            /\ List.map OCRWorker.extractedText pages = List.map Some pageTexts
            /\ List.map OCRWorker.ip_page pages
               = List.map N.of_nat (seq 1 (List.length pageTexts))
            /\ Forall (fun p => OCRWorker.isTextOnly p = true) pages
            /\ OCRWorker.fullText (OCRWorker.processImages now ocr pages)
               = join (js "\n\n") (List.map trim pageTexts))
    /\ ((parsed = None
         \/ exists text numpages,
              parsed = Some (text, numpages)
              /\ (nonBlank text = false \/ List.length text <= 100)) ->
        writeFile PDFProcessor.MockFile = true ->
        PDFProcessor.convertPDFToImages None parsed writeFile
        = Some [OCRWorker.ImagePage 1 true (Some PDFProcessor.mockText)]
        /\ OCRWorker.fullText
             (OCRWorker.processImages now ocr
                [OCRWorker.ImagePage 1 true (Some PDFProcessor.mockText)])
           = PDFProcessor.mockText).
Proof.
  intros now ocr parsed writeFile.
  assert (Full : forall pages,
             Forall (fun p => OCRWorker.isTextOnly p = true
                              /\ exists t, OCRWorker.extractedText p = Some t
                                           /\ nonBlank t = true) pages ->
             forall texts,
               List.map OCRWorker.extractedText pages = List.map Some texts ->
               OCRWorker.fullText (OCRWorker.processImages now ocr pages)
               = join (js "\n\n") (List.map trim texts)).
  { intros pages Hp texts Ht. unfold OCRWorker.processImages.
    destruct (textPages_outcomes ocr pages Hp) as [I1 [I2 _]].
    rewrite fullText_pageTexts. unfold pageTexts. rewrite I2.
    rewrite Ht, <- (map_map OCRWorker.text Some) in I1.
    apply map_Some_inj in I1.
    rewrite <- (map_map OCRWorker.text trim), I1. reflexivity. }
  split; [|split].
  - intros pages H. pose proof (convertPDFToImages_textPages _ _ _ H) as Hp.
    destruct (textPages_outcomes ocr pages Hp) as [_ [_ [I3 I4]]].
    unfold OCRWorker.processImages. split.
    + intros ocr'. rewrite (I4 ocr'). reflexivity.
    + unfold OCRWorker.combinePageResults.
      cbn [OCRWorker.meta OCRWorker.lowConfidencePages].
      rewrite combine_low, I3. reflexivity.
  - intros text numpages -> Hnb Hlen Hw. cbv zeta.
    set (n := if (numpages =? 0)%nat then 1 else numpages).
    destruct (pagesFrom_written writeFile (PDFProcessor.splitTextIntoPages text n) 0 Hw)
      as [pages E].
    assert (C : PDFProcessor.convertPDFToImages None (Some (text, numpages)) writeFile
                = Some pages).
    { unfold PDFProcessor.convertPDFToImages. fold n.
      unfold nonBlank in Hnb. rewrite Hnb.
      replace (truthy text) with true
        by (destruct text; [discriminate Hnb | reflexivity]).
      rewrite (proj2 (Nat.ltb_lt _ _) Hlen). cbn [andb]. rewrite E. reflexivity. }
    exists pages. split; [exact C|].
    destruct (pagesFrom_pages _ _ _ _ E) as [I1 [I2 I3]].
    split; [exact I1|]. split; [exact I3|]. split; [exact I2|].
    apply Full; [exact (convertPDFToImages_textPages _ _ _ C) | exact I1].
  - intros Hcase Hw.
    assert (C : PDFProcessor.convertPDFToImages None parsed writeFile
                = Some [OCRWorker.ImagePage 1 true (Some PDFProcessor.mockText)]).
    { unfold PDFProcessor.convertPDFToImages.
      destruct Hcase as [->|[text [numpages [-> Hbad]]]]; [rewrite Hw; reflexivity|].
      assert (G : truthy text && truthy (trim text) && (100 <? List.length text)%nat
                  = false).
      { destruct Hbad as [Hb|Hl].
        - unfold nonBlank in Hb. rewrite Hb, andb_false_r. reflexivity.
        - rewrite (proj2 (Nat.ltb_ge _ _) Hl). apply andb_false_r. }
      rewrite G, Hw. reflexivity. }
    split; [exact C|].
    rewrite (Full _ (convertPDFToImages_textPages _ _ _ C) [PDFProcessor.mockText] eq_refl).
    cbn [List.map join]. exact mockText_trimmed.
Qed.

(** A text of 10 code units gives the mock document; the sample document
    gives its own pages. *)
Lemma extracted_text_needs_no_recognition_witness :
  (PDFProcessor.convertPDFToImages None (Some (js "a\nb\n\n\n\nc\nd", 3)) (fun _ => true)
   = Some [OCRWorker.ImagePage 1 true (Some PDFProcessor.mockText)]
   /\ OCRWorker.fullText
        (OCRWorker.processImages 0 (fun _ => None)
           [OCRWorker.ImagePage 1 true (Some PDFProcessor.mockText)])
      = PDFProcessor.mockText)
  /\ exists pages,
       PDFProcessor.convertPDFToImages None (Some (sampleDocument, 2)) (fun _ => true)
       = Some pages
       /\ List.map OCRWorker.extractedText pages
          = List.map Some (PDFProcessor.splitTextIntoPages sampleDocument 2)
       /\ List.map OCRWorker.ip_page pages
          = List.map N.of_nat
              (seq 1 (List.length (PDFProcessor.splitTextIntoPages sampleDocument 2)))
       /\ Forall (fun p => OCRWorker.isTextOnly p = true) pages
       /\ OCRWorker.fullText (OCRWorker.processImages 0 (fun _ => None) pages)
          = join (js "\n\n")
              (List.map trim (PDFProcessor.splitTextIntoPages sampleDocument 2)).
Proof.
  split.
  - destruct (extracted_text_needs_no_recognition 0%N (fun _ => None)
                (Some (js "a\nb\n\n\n\nc\nd", 3)) (fun _ => true)) as [_ [_ Hmock]].
    apply Hmock; [|reflexivity].
    right. exists (js "a\nb\n\n\n\nc\nd"), 3. split; [reflexivity|].
    right. vm_compute. lia.
  - destruct (extracted_text_needs_no_recognition 0%N (fun _ => None)
                (Some (sampleDocument, 2)) (fun _ => true)) as [_ [Htext _]].
    apply (Htext sampleDocument 2); [reflexivity | vm_compute; reflexivity
                                     | vm_compute; lia | reflexivity].
Defined.

(* ================================================================= *)
(** * Further properties: no blank line survives the corrector *)

Lemma noDoubleSpace_app :
  forall x y,
    noDoubleSpace (x ++ y)
    = noDoubleSpace x && noDoubleSpace y && negb (lastIs isSpace x && headIs isSpace y).
Proof.
  induction x as [|a x IH]; intros y.
  - cbn [app noDoubleSpace lastIs rev headIs andb negb]. rewrite andb_true_r. reflexivity.
  - cbn [app noDoubleSpace]. rewrite IH. unfold lastIs. cbn [rev].
    destruct x as [|b x].
    + cbn [app headIs rev noDoubleSpace andb]. rewrite andb_false_r. cbn [negb andb].
      destruct (isSpace a), (headIs isSpace y), (noDoubleSpace y); reflexivity.
    + cbn [app headIs].
      assert (E : headIs isSpace ((rev (b :: x)) ++ [a]) = headIs isSpace (rev (b :: x))).
      { destruct (rev (b :: x)) as [|z zs] eqn:R; [|reflexivity].
        apply (f_equal (@List.length _)) in R. rewrite length_rev in R. discriminate. }
      rewrite E.
      destruct (isSpace a && isSpace b), (noDoubleSpace (b :: x)), (noDoubleSpace y),
        (headIs isSpace (rev (b :: x)) && headIs isSpace y); reflexivity.
Qed.

Lemma lastIs_snoc :
  forall p (x : jsstring) c, lastIs p (x ++ [c]) = p c.
Proof.
  intros p x c. unfold lastIs. rewrite rev_app_distr. reflexivity.
Qed.

Lemma noDoubleSpace_rev :
  forall s, noDoubleSpace (rev s) = noDoubleSpace s.
Proof.
  induction s as [|a s IH]; [reflexivity|].
  cbn [rev]. rewrite noDoubleSpace_app, IH. unfold lastIs. rewrite rev_involutive.
  cbn [noDoubleSpace headIs].
  destruct (isSpace a), (headIs isSpace s), (noDoubleSpace s); reflexivity.
Qed.

Lemma noDoubleSpace_dropWhile :
  forall p s, noDoubleSpace s = true -> noDoubleSpace (dropWhile p s) = true.
Proof.
  intros p. induction s as [|a s IH]; intros H; [reflexivity|].
  cbn [dropWhile]. destruct (p a); [|exact H].
  apply IH. exact (noDoubleSpace_tail _ _ H).
Qed.

Lemma noDoubleSpace_trim :
  forall s, noDoubleSpace s = true -> noDoubleSpace (trim s) = true.
Proof.
  intros s H. unfold trim, trimEnd, trimStart.
  rewrite noDoubleSpace_rev. apply noDoubleSpace_dropWhile.
  rewrite noDoubleSpace_rev. apply noDoubleSpace_dropWhile. exact H.
Qed.

Lemma first_line :
  forall t,
    noNewline t \/ exists a b, t = a ++ LF :: b /\ noNewline a.
Proof.
  induction t as [|c t IH]; [left; constructor|].
  destruct (N.eq_dec c LF) as [->|Hc].
  - right. exists [], t. split; [reflexivity | constructor].
  - destruct IH as [H|[a [b [E H]]]].
    + left. constructor; assumption.
    + right. exists (c :: a), b. split; [rewrite E; reflexivity | constructor; assumption].
Qed.

Lemma trimEnd_last :
  forall s, lastIs isSpace (trimEnd s) = false.
Proof.
  intros s. unfold lastIs, trimEnd. rewrite rev_involutive.
  induction (rev s) as [|c r IH]; [reflexivity|].
  cbn [dropWhile]. destruct (isSpace c) eqn:E; [exact IH | cbn [headIs]; exact E].
Qed.

Lemma trim_head_keeps :
  forall c s, isSpace c = false -> headIs isSpace (trim (c :: s)) = false.
Proof. intros c s H. apply trim_head. Qed.

Lemma trim_nonspace_head :
  forall c s, isSpace c = false -> exists u, trim (c :: s) = c :: u.
Proof.
  intros c s H. unfold trim, trimStart. cbn [dropWhile]. rewrite H.
  unfold trimEnd. cbn [rev]. rewrite (dropWhile_app_stop _ _ _ H), rev_app_distr.
  eexists. reflexivity.
Qed.

Lemma join_cons_ne :
  forall sep x (l : list jsstring),
    l <> [] -> join sep (x :: l) = x ++ sep ++ join sep l.
Proof.
  intros sep x [|y l] H; [contradiction | reflexivity].
Qed.

(** The lines of a text, each trimmed, put together again. *)
Lemma trimmed_lines_noDoubleSpace :
  forall n t,
    List.length t <= n ->
    noDoubleSpace t = true ->
    noDoubleSpace (join [LF] (List.map trim (splitChar LF t))) = true
    /\ (headIs isSpace t = false ->
        headIs isSpace (join [LF] (List.map trim (splitChar LF t))) = false).
Proof.
  induction n as [|n IH]; intros t Hn Ht.
  - destruct t; [split; reflexivity | simpl in Hn; lia].
  - destruct (first_line t) as [H|[a [b [E Ha]]]].
    + rewrite (splitChar_noNewline t H). cbn [List.map join]. split.
      * apply noDoubleSpace_trim. exact Ht.
      * intros _. apply trim_head.
    + subst t. rewrite (splitChar_app a b Ha). cbn [List.map].
      rewrite join_cons_ne.
      2: { intros E. apply map_eq_nil in E. exact (splitChar_nonempty LF b E). }
      change ([LF] ++ join [LF] (List.map trim (splitChar LF b)))
        with (LF :: join [LF] (List.map trim (splitChar LF b))).
      rewrite noDoubleSpace_app in Ht.
      apply andb_true_iff in Ht. destruct Ht as [Ht Hj].
      apply andb_true_iff in Ht. destruct Ht as [Hda Hdb].
      cbn [noDoubleSpace] in Hdb. apply andb_true_iff in Hdb.
      destruct Hdb as [Hb0 Hdb]. change (isSpace LF) with true in Hb0.
      cbn [andb] in Hb0. apply negb_true_iff in Hb0.
      cbn [headIs] in Hj. change (isSpace LF) with true in Hj.
      rewrite andb_true_r in Hj. apply negb_true_iff in Hj.
      destruct (IH b) as [I1 I2].
      { rewrite length_app in Hn. simpl in Hn. lia. }
      { exact Hdb. }
      specialize (I2 Hb0).
      split.
      * rewrite noDoubleSpace_app. cbn [noDoubleSpace headIs].
        rewrite I2, I1, (noDoubleSpace_trim a Hda).
        unfold trim. rewrite trimEnd_last. reflexivity.
      * intros Hh. destruct a as [|c a].
        -- (* the text starts with a line feed *)
           cbn [headIs] in Hh. discriminate Hh.
        -- cbn [headIs] in Hh.
           destruct (trim_nonspace_head c a Hh) as [u ->]. cbn [app headIs]. exact Hh.
Qed.

Lemma noMatch_newlines3 :
  forall s sn,
    noDoubleSpace s = true -> noMatch (RegExp (atLeast 3 (RChr LF)) false) sn s.
Proof.
  assert (P1 : forall s, noDoubleSpace s = true -> prefixLen (chrMatch false LF) s <= 1).
  { intros [|c [|d t]] H; cbn [prefixLen chrMatch].
    - lia.
    - destruct (LF =? c)%N; lia.
    - destruct (LF =? c)%N eqn:Ec; [|lia]. destruct (LF =? d)%N eqn:Ed; [|lia].
      apply N.eqb_eq in Ec, Ed. subst c d. discriminate H. }
  induction s as [|c t IH]; intros sn H.
  - split; [reflexivity | exact I].
  - split; [|apply IH; exact (noDoubleSpace_tail _ _ H)].
    unfold matchAt, atLeast. cbn [source ignoreCase run].
    pose proof (rep_class_head (run false (RChr LF)) (chrMatch false LF)
                  (fun st => eq_refl) (3 + List.length (c :: t) + 1) 3
                  (MState sn (c :: t) [])) as R.
    cbn [rest] in R. pose proof (prefixLen_le (chrMatch false LF) (c :: t)) as Hle.
    specialize (R ltac:(lia)).
    pose proof (P1 (c :: t) H) as Hp.
    replace (3 <=? prefixLen (chrMatch false LF) (c :: t))%nat with false in R
      by (symmetry; apply Nat.leb_gt; lia).
    destruct (rep _ _ _ _ _); [reflexivity | discriminate R].
Qed.

Lemma corrector_finalCleanup_noDoubleSpace :
  forall t,
    noDoubleSpace t = true -> noDoubleSpace (TextCorrector.finalCleanup t) = true.
Proof.
  intros t H. unfold TextCorrector.finalCleanup. cbv zeta.
  assert (E : replaceAll (RegExp (atLeast 3 (RChr 10%N)) false) (Template (js "\n\n")) t = t).
  { apply replaceFrom_noMatch; [lia | apply (noMatch_newlines3 t [] H)]. }
  rewrite E. apply noDoubleSpace_trim.
  exact (proj1 (trimmed_lines_noDoubleSpace (List.length t) t (le_n _) H)).
Qed.

Lemma no_blank_line :
  forall s, noDoubleSpace s = true -> includes (js "\n\n") s = false.
Proof.
  change (js "\n\n") with [LF; LF].
  induction s as [|c s IH]; intros H; [reflexivity|].
  cbn [includes]. rewrite (IH (noDoubleSpace_tail _ _ H)), orb_false_r.
  cbn [startsWith]. destruct s as [|d s]; [apply andb_false_r|].
  cbn [startsWith]. rewrite andb_true_r.
  destruct (LF =? c)%N eqn:Ec; [|reflexivity]. destruct (LF =? d)%N eqn:Ed; [|reflexivity].
  apply N.eqb_eq in Ec, Ed. subst c d. discriminate H.
Qed.

(** X27.  When there is text and [compromise] returns, the text that
    [processText] returns has no two white-space code units in a row,
    whether spell checking is on or off: in particular it has no blank
    line, so that no paragraph break of the structure reconstruction
    survives. *)
Theorem corrected_text_has_no_blank_line :
  forall e tc r s,
    truthy (trim (TextCorrector.extractText r)) = true ->
    (forall t, TextCorrector.nlpText e t <> None) ->
    noDoubleSpace (fst (TextCorrector.processText e tc r s)) = true
    /\ includes (js "\n\n") (fst (TextCorrector.processText e tc r s)) = false.
Proof.
  intros e tc r s Htext Hnlp.
  assert (G : noDoubleSpace (fst (TextCorrector.processText e tc r s)) = true).
  { unfold TextCorrector.processText.
    assert (Ht : truthy (TextCorrector.extractText r) = true).
    { destruct (TextCorrector.extractText r); [discriminate | reflexivity]. }
    rewrite Ht, Htext. cbn [negb orb fst].
    apply corrector_finalCleanup_noDoubleSpace.
    match goal with
    | |- noDoubleSpace (TextCorrector.improveTextFlow e ?x) = true =>
        generalize x
    end.
    intros x. unfold TextCorrector.improveTextFlow.
    destruct (TextCorrector.nlpText e x) as [improved|] eqn:E;
      [|exfalso; exact (Hnlp x E)].
    exact (proj1 (normalizeFlow_ok improved)). }
  split; [exact G | exact (no_blank_line _ G)].
Qed.

Lemma corrected_text_has_no_blank_line_witness :
  noDoubleSpace
    (fst (TextCorrector.processText plainEnv PDFProcessor.newCorrector
            (TextCorrector.OcrString scenarioText)
            (TextCorrector.Settings None false false true))) = true
  /\ includes (js "\n\n")
       (fst (TextCorrector.processText plainEnv PDFProcessor.newCorrector
               (TextCorrector.OcrString scenarioText)
               (TextCorrector.Settings None false false true))) = false.
Proof.
  apply (corrected_text_has_no_blank_line plainEnv PDFProcessor.newCorrector
           (TextCorrector.OcrString scenarioText)
           (TextCorrector.Settings None false false true)).
  - reflexivity.
  - intros t. discriminate.
Defined.

(* ================================================================= *)
(** * Further properties: lines without lower-case letters *)

Lemma toUpperCase_caseless :
  forall line,
    Forall (fun c => upperOrCaseless c = true) line -> toUpperCase line = line.
Proof.
  intros line H. induction H as [|c s Hc Hs IH]; [reflexivity|].
  cbn [toUpperCase List.map]. fold (toUpperCase s). rewrite IH.
  unfold upperOrCaseless in Hc. apply andb_true_iff in Hc. destruct Hc as [_ Hc].
  apply negb_true_iff in Hc. unfold upperChar. rewrite Hc. reflexivity.
Qed.

(** X28.  A line of 3 to 49 ASCII code units without a lower-case letter
    looks like a heading to [looksLikeHeading], whatever it is made of
    (digits and punctuation included), and is never merged with the
    paragraph before it. *)
Theorem caseless_line_looks_like_heading :
  forall line currentParagraph,
    3 <= List.length line < 50 ->
    Forall (fun c => upperOrCaseless c = true) line ->
    TextCorrector.looksLikeHeading line = true
    /\ TextCorrector.shouldMergeWithPrevious line currentParagraph = false.
Proof.
  intros line cp [H3 H50] Hc.
  assert (E : TextCorrector.looksLikeHeading line = true).
  { unfold TextCorrector.looksLikeHeading.
    replace (List.length line <? 3)%nat with false by (symmetry; apply Nat.ltb_ge; lia).
    replace (100 <? List.length line)%nat with false by (symmetry; apply Nat.ltb_ge; lia).
    rewrite (toUpperCase_caseless line Hc), streq_refl.
    replace (List.length line <? 50)%nat with true by (symmetry; apply Nat.ltb_lt; lia).
    reflexivity. }
  split; [exact E|].
  unfold TextCorrector.shouldMergeWithPrevious. rewrite E.
  destruct cp; reflexivity.
Qed.

Lemma caseless_line_looks_like_heading_witness :
  TextCorrector.looksLikeHeading (js "2023 - 2024") = true
  /\ TextCorrector.shouldMergeWithPrevious (js "2023 - 2024") [js "in the years"] = false.
Proof.
  apply (caseless_line_looks_like_heading (js "2023 - 2024") [js "in the years"]).
  - simpl. lia.
  - repeat constructor.
Defined.

(* ================================================================= *)
(** * Further properties: rendering without a text *)

Lemma placeholder_rendering :
  MarkdownGenerator.processContent MarkdownGenerator.placeholder
  = Returns placeholderMarkdown
  /\ MarkdownGenerator.generateTableOfContents placeholderMarkdown = None.
Proof. split; vm_compute; reflexivity. Qed.

(** X29.  Without a text (no string, or the empty string) [generate]
    returns normally, whatever the options: the document is the
    placeholder sentence in a code block, after the metadata block when
    metadata are asked for, and it has no table of contents. *)
Theorem generate_without_text :
  forall now o,
    MarkdownGenerator.generate now None o
    = Returns
        (MarkdownGenerator.finalCleanup
           ((if MarkdownGenerator.metadata o
             then MarkdownGenerator.generateMetadata now (MarkdownGenerator.sourceURL o)
             else [])
            ++ placeholderMarkdown))
    /\ MarkdownGenerator.generate now (Some []) o
       = MarkdownGenerator.generate now None o.
Proof.
  intros now o. split; [|reflexivity].
  unfold MarkdownGenerator.generate.
  destruct placeholder_rendering as [E T]. rewrite E. cbn [bind]. rewrite T.
  destruct (MarkdownGenerator.includeTableOfContents o); reflexivity.
Qed.

(* ================================================================= *)
(** * Further properties: a spell checker that answers as nspell does *)

Lemma correctWord_contract :
  forall (o : TextCorrector.oracle) dict ag word,
    (forall w, TextCorrector.correct o w = true -> TextCorrector.suggest o w = []) ->
    TextCorrector.correctWord o dict ag word = word.
Proof.
  intros o dict ag word H. unfold TextCorrector.correctWord.
  destruct (List.length _ <? 2)%nat; [reflexivity|].
  destruct (TextCorrector.has dict _); [reflexivity|].
  destruct (TextCorrector.correct o _) eqn:Hc; [|reflexivity].
  rewrite (H _ Hc). reflexivity.
Qed.

(** X30.  For a spell checker that answers as [nspell] does, [correct]
    being true of the words spelled correctly and [suggest] proposing
    nothing for them, [performSpellCheck] replaces no token, in either
    mode: it takes the value of [correct] for the sign of a misspelling,
    so its result is the text with every run of white space replaced by
    one space. *)
Theorem nspell_contract_corrects_nothing :
  forall (o : TextCorrector.oracle) dict ag,
    (forall w, TextCorrector.correct o w = true -> TextCorrector.suggest o w = []) ->
    (forall word, TextCorrector.correctWord o dict ag word = word)
    /\ (forall text,
          TextCorrector.performSpellCheck
            (TextCorrector.Corrector (Some (TextCorrector.Nspell o)) dict) text ag
          = replaceAll whitespaceRun (Template (js " ")) text).
Proof.
  intros o dict ag H. split.
  - intros word. apply correctWord_contract. exact H.
  - intros text. unfold TextCorrector.performSpellCheck.
    cbn [TextCorrector.spellChecker TextCorrector.customDictionary TextCorrector.oracleOf].
    rewrite (map_ext _ (fun w => w)) by (intros w; apply correctWord_contract; exact H).
    rewrite map_id. apply split_pieces.
Qed.

(** The token "wrold", which the checker reports misspelled and for which
    it proposes "world", is left as it is in aggressive mode. *)
Lemma nspell_contract_corrects_nothing_witness :
  TextCorrector.correct (lexiconChecker [js "world"] [js "world"]) (js "wrold") = false
  /\ TextCorrector.suggest (lexiconChecker [js "world"] [js "world"]) (js "wrold")
     = [js "world"]
  /\ TextCorrector.correctWord (lexiconChecker [js "world"] [js "world"]) [] true
       (js "wrold") = js "wrold"
  /\ TextCorrector.performSpellCheck
       (TextCorrector.Corrector
          (Some (TextCorrector.Nspell (lexiconChecker [js "world"] [js "world"]))) [])
       (js "hello  wrold\nhello world") true
     = js "hello wrold hello world".
Proof.
  assert (H : forall w,
             TextCorrector.correct (lexiconChecker [js "world"] [js "world"]) w = true ->
             TextCorrector.suggest (lexiconChecker [js "world"] [js "world"]) w = []).
  { intros w Hw. cbn [lexiconChecker TextCorrector.correct TextCorrector.suggest] in Hw |- *.
    rewrite Hw. reflexivity. }
  destruct (nspell_contract_corrects_nothing
              (lexiconChecker [js "world"] [js "world"]) [] true H) as [Hword Htext].
  split; [reflexivity|]. split; [reflexivity|].
  split; [apply Hword|]. rewrite Htext. vm_compute. reflexivity.
Defined.
